(** * The file organizer pipeline of [dosya_siralama.py]

    A shallow embedding of the classification, scheduling, move and undo
    code of the organizer, and the properties its specification states
    about them.

    Conventions of the embedding:
    - a Python [int] is a [Z]; a count that psutil reports is an [N];
    - a Python [float] is a binary64 value, a [spec_float] of the
      Standard Library's IEEE 754 specification with [prec = 53] and
      [emax = 1024];
    - a Python [str], a path included, is the list of its Unicode code
      points ([pystr]); the tables of the Unicode database ([str.lower],
      [\w], whitespace) are a parameter;
    - a [dict] or a [Counter] is an association list in insertion order;
    - the file system is a finite map from paths to files and folders;
    - a raised exception is a result of its own ([None], [inl] or
      [Raised]), and a loop of the model that could run forever is given
      fuel and shown to end within it. *)

From Stdlib Require Import ZArith List Lia.
From Stdlib Require Import Floats.SpecFloat.
From stdpp Require Import gmap strings list pretty.

Open Scope Z_scope.

(** ** Python numbers *)

Module Py.

(** binary64 *)
Definition prec : Z := 53.
Definition emax : Z := 1024.

(** [float(n)] for an [int] [n]: the nearest binary64 value. *)
Definition float_of_int (n : Z) : spec_float :=
  binary_normalize prec emax n 0 false.

Definition fmul : spec_float -> spec_float -> spec_float := SFmul prec emax.
Definition fdiv : spec_float -> spec_float -> spec_float := SFdiv prec emax.

(** [x > y] on floats (false on a NaN). *)
Definition fgt (x y : spec_float) : bool := SFltb y x.
(** [x < y] on floats (false on a NaN). *)
Definition flt (x y : spec_float) : bool := SFltb x y.

(** The literals [0.6] and [0.7]: the binary64 values nearest to them. *)
Definition lit_0_6 : spec_float := S754_finite false 5404319552844595 (-53).
Definition lit_0_7 : spec_float := S754_finite false 6305039478318694 (-53).

(** [int(x)] for a float [x]: truncation toward zero; an infinity raises
    [OverflowError] and a NaN raises [ValueError] ([None]). *)
Definition int_of_float (x : spec_float) : option Z :=
  match x with
  | S754_zero _ => Some 0
  | S754_finite s m e =>
      let a := if 0 <=? e then Z.pos m * 2 ^ e else Z.pos m / 2 ^ (- e) in
      Some (if s then - a else a)
  | S754_infinity _ | S754_nan => None
  end.

(** [x or d] for an optional count [x]: [None] and [0] are falsy. *)
Definition or_default (x : option N) (d : N) : N :=
  match x with
  | Some n => if (n =? 0)%N then d else n
  | None => d
  end.

End Py.

(** ** Concurrency governor: [OrganizerWorker._optimize_thread_count] *)

Module Governor.

(** What one call samples from psutil. (The count of physical cores is
    read for the log line only.) *)
Record Telemetry := {
  cpu_count_logical : option N;   (* psutil.cpu_count(logical=True) *)
  cpu_percent : spec_float;       (* psutil.cpu_percent(interval=0.1) *)
  memory_percent : spec_float;    (* psutil.virtual_memory().percent *)
  memory_total : Z                (* psutil.virtual_memory().total, bytes *)
}.

Inductive cpu_type := low_end | mid_range | high_end | unknown.

(** The dictionary [max_by_cpu_type], read at [cpu_type]. *)
Definition max_by_cpu_type (ty : cpu_type) (cpu_count : Z) : Z :=
  match ty with
  | low_end => Z.min 4 (cpu_count * 2)
  | mid_range => Z.min 8 (cpu_count * 2)
  | high_end => Z.min 16 (cpu_count * 2)
  | unknown => Z.min 8 (cpu_count * 2)
  end.

Definition classify_cpu (cpu_count : Z) : cpu_type :=
  if cpu_count <=? 4 then low_end
  else if cpu_count <=? 8 then mid_range
  else high_end.

(** KURAL 1: at least two files per thread. *)
Definition rule_files (total_files optimal_threads : Z) : Z :=
  if total_files <? optimal_threads * 2 then Z.max 1 (total_files / 2)
  else optimal_threads.

(** KURAL 2: the ceiling of the processor class. *)
Definition rule_cpu_limit (cpu_limit optimal_threads : Z) : Z :=
  if cpu_limit <? optimal_threads then cpu_limit else optimal_threads.

(** KURAL 3 and 4: [max(2, int(optimal_threads * factor))] when the load
    is above the bound. *)
Definition rule_load (load bound factor : spec_float) (optimal_threads : Z)
  : option Z :=
  if Py.fgt load bound then
    reduction ← Py.int_of_float (Py.fmul (Py.float_of_int optimal_threads) factor);
    Some (Z.max 2 reduction)
  else Some optimal_threads.

(** KURAL 5: little memory. *)
Definition rule_low_ram (memory_gb : spec_float) (optimal_threads : Z) : Z :=
  if Py.flt memory_gb (Py.float_of_int 4) then Z.min optimal_threads 4
  else optimal_threads.

Definition memory_gb (t : Telemetry) : spec_float :=
  Py.fdiv (Py.float_of_int (memory_total t)) (Py.float_of_int (1024 ^ 3)).

Definition cpu_count (t : Telemetry) : Z :=
  Z.of_N (Py.or_default (cpu_count_logical t) 2).

Definition cpu_limit (t : Telemetry) : Z :=
  max_by_cpu_type (classify_cpu (cpu_count t)) (cpu_count t).

(** The body of the [try]; [None] when it raises. *)
Definition optimize_try (t : Telemetry) (total_files requested_threads : Z)
  : option Z :=
  let optimal_threads := requested_threads in
  let optimal_threads := rule_files total_files optimal_threads in
  let optimal_threads := rule_cpu_limit (cpu_limit t) optimal_threads in
  optimal_threads ←
    rule_load (cpu_percent t) (Py.float_of_int 70) Py.lit_0_6 optimal_threads;
  optimal_threads ←
    rule_load (memory_percent t) (Py.float_of_int 80) Py.lit_0_7 optimal_threads;
  let optimal_threads := rule_low_ram (memory_gb t) optimal_threads in
  (* KURAL 6 *)
  Some (Z.max 1 (Z.min optimal_threads 32)).

(** The environment of one call: the worker's flag, whether psutil was
    imported, and what psutil answers ([None]: one of its calls raises). *)
Record Env := {
  enable_optimization : bool;
  PSUTIL_AVAILABLE : bool;
  psutil : option Telemetry
}.

Definition _optimize_thread_count (env : Env) (total_files requested_threads : Z)
  : Z :=
  if negb (enable_optimization env) || negb (PSUTIL_AVAILABLE env) then
    Z.min requested_threads 32
  else
    match psutil env ≫= fun t => optimize_try t total_files requested_threads with
    | Some optimal_threads => optimal_threads
    | None => Z.min requested_threads 4
    end.


(** A host at 90% CPU: eight logical cores, half of 16 GiB in use. *)
Definition busy_host : Env := {|
  enable_optimization := true;
  PSUTIL_AVAILABLE := true;
  psutil := Some {| cpu_count_logical := Some 8%N;
                    cpu_percent := Py.float_of_int 90;
                    memory_percent := Py.float_of_int 50;
                    memory_total := 16 * 1024 ^ 3 |}
|}.

(** An idle host of the same size. *)
Definition idle_host : Env := {|
  enable_optimization := true;
  PSUTIL_AVAILABLE := true;
  psutil := Some {| cpu_count_logical := Some 8%N;
                    cpu_percent := Py.float_of_int 12;
                    memory_percent := Py.float_of_int 50;
                    memory_total := 16 * 1024 ^ 3 |}
|}.

End Governor.

(** ** Properties of the governor *)

Module GovernorFacts.
Import Governor.

Lemma small_cases (n : Z) :
  1 <= n <= 16 ->
  n = 1 \/ n = 2 \/ n = 3 \/ n = 4 \/ n = 5 \/ n = 6 \/ n = 7 \/ n = 8 \/
  n = 9 \/ n = 10 \/ n = 11 \/ n = 12 \/ n = 13 \/ n = 14 \/ n = 15 \/ n = 16.
Proof. lia. Qed.

Ltac each_small n H :=
  destruct (small_cases n H) as
    [-> | [-> | [-> | [-> | [-> | [-> | [-> | [-> |
    [-> | [-> | [-> | [-> | [-> | [-> | [-> | ->]]]]]]]]]]]]]]].

(** On the thread counts the earlier rules let through, the binary64
    product truncates to the floor of the exact one. *)
Lemma int_times_0_6 (n : Z) :
  1 <= n <= 16 ->
  Py.int_of_float (Py.fmul (Py.float_of_int n) Py.lit_0_6) = Some (3 * n / 5).
Proof. intros H. each_small n H; vm_compute; reflexivity. Qed.

Lemma int_times_0_7 (n : Z) :
  1 <= n <= 16 ->
  Py.int_of_float (Py.fmul (Py.float_of_int n) Py.lit_0_7) = Some (7 * n / 10).
Proof. intros H. each_small n H; vm_compute; reflexivity. Qed.

Lemma rule_files_range (total_files requested : Z) :
  0 < requested -> 0 <= total_files ->
  1 <= rule_files total_files requested <= requested.
Proof.
  intros Hr Hf. unfold rule_files.
  destruct (Z.ltb_spec total_files (requested * 2)) as [Hlt | Hge]; [| lia].
  assert (total_files / 2 < requested) by (apply Z.div_lt_upper_bound; lia).
  lia.
Qed.

Lemma cpu_count_pos (t : Telemetry) : 1 <= cpu_count t.
Proof.
  unfold cpu_count, Py.or_default.
  destruct (cpu_count_logical t) as [n |]; [| lia].
  destruct (N.eqb_spec n 0); lia.
Qed.

Lemma cpu_limit_range (t : Telemetry) : 2 <= cpu_limit t <= 16.
Proof.
  pose proof (cpu_count_pos t). unfold cpu_limit, classify_cpu.
  destruct (Z.leb_spec (cpu_count t) 4); [simpl; lia |].
  destruct (Z.leb_spec (cpu_count t) 8); simpl; lia.
Qed.

Lemma rule_cpu_limit_range (limit n : Z) :
  1 <= n -> 2 <= limit <= 16 ->
  1 <= rule_cpu_limit limit n <= 16 /\ rule_cpu_limit limit n <= n.
Proof. intros. unfold rule_cpu_limit. destruct (Z.ltb_spec limit n); lia. Qed.

(** A load rule never raises on these counts; it leaves a count between 1
    and [max 2 n], and the count itself when the load is below the bound. *)
Lemma rule_load_range (load bound factor : spec_float) (n : Z) :
  factor = Py.lit_0_6 \/ factor = Py.lit_0_7 ->
  1 <= n <= 16 ->
  exists n', rule_load load bound factor n = Some n' /\
             1 <= n' <= 16 /\ n' <= Z.max 2 n /\
             (Py.fgt load bound = false -> n' = n).
Proof.
  intros Hfac Hn. unfold rule_load.
  destruct (Py.fgt load bound).
  - destruct Hfac as [-> | ->].
    + rewrite int_times_0_6 by lia. simpl. eexists; split; [reflexivity |].
      assert (0 <= 3 * n / 5 <= n) by (split; [apply Z.div_pos; lia | apply Z.div_le_upper_bound; lia]).
      repeat split; try lia; discriminate.
    + rewrite int_times_0_7 by lia. simpl. eexists; split; [reflexivity |].
      assert (0 <= 7 * n / 10 <= n) by (split; [apply Z.div_pos; lia | apply Z.div_le_upper_bound; lia]).
      repeat split; try lia; discriminate.
  - exists n. repeat split; lia.
Qed.

(** What the [try] block computes from a request above zero. *)
Lemma optimize_try_range (t : Telemetry) (total_files requested : Z) :
  0 < requested -> 0 <= total_files ->
  exists r, optimize_try t total_files requested = Some r /\
            1 <= r <= 16 /\ r <= Z.max 2 requested /\
            (Py.fgt (cpu_percent t) (Py.float_of_int 70) = false ->
             Py.fgt (memory_percent t) (Py.float_of_int 80) = false ->
             r = rule_low_ram (memory_gb t)
                   (rule_cpu_limit (cpu_limit t) (rule_files total_files requested))).
Proof.
  intros Hr Hf. unfold optimize_try. cbv zeta.
  pose proof (rule_files_range total_files requested Hr Hf) as H1.
  pose proof (cpu_limit_range t) as HL.
  destruct (rule_cpu_limit_range (cpu_limit t) (rule_files total_files requested))
    as [H2 H2']; [lia | lia |].
  set (n2 := rule_cpu_limit _ _) in *.
  destruct (rule_load_range (cpu_percent t) (Py.float_of_int 70) Py.lit_0_6 n2)
    as (n3 & -> & H3 & H3' & E3); [auto | lia |].
  cbn [mbind option_bind].
  destruct (rule_load_range (memory_percent t) (Py.float_of_int 80) Py.lit_0_7 n3)
    as (n4 & -> & H4 & H4' & E4); [auto | lia |].
  cbn [mbind option_bind].
  eexists; split; [reflexivity |].
  assert (Hram : forall n, rule_low_ram (memory_gb t) n = n \/
                           rule_low_ram (memory_gb t) n = Z.min n 4).
  { intros n. unfold rule_low_ram. destruct (Py.flt _ _); auto. }
  repeat split.
  - lia.
  - destruct (Hram n4) as [-> | ->]; lia.
  - destruct (Hram n4) as [-> | ->]; lia.
  - intros Hc Hm. rewrite (E4 Hm), (E3 Hc).
    pose proof (Hram n2) as [-> | ->]; lia.
Qed.

(** The bounds of the answer, for a request above zero. *)
Lemma governor_at_least_one (env : Env) (total_files requested : Z) :
  0 < requested -> 0 <= total_files ->
  1 <= _optimize_thread_count env total_files requested <= 32.
Proof.
  intros Hr Hf. unfold _optimize_thread_count.
  destruct (negb (enable_optimization env) || negb (PSUTIL_AVAILABLE env));
    [lia |].
  destruct (psutil env) as [t |]; simpl; [| lia].
  destruct (optimize_try_range t total_files requested Hr Hf)
    as (r & -> & Hr1 & _). lia.
Qed.




End GovernorFacts.

(** ** Work scheduler: the partition in
    [OrganizerWorker._process_files_multithreaded] *)

Module Scheduler.
Local Open Scope nat_scope.

Section Chunks.
Context {A : Type}.

(** [l[start:stop]] for indices that are not negative. *)
Definition slice (l : list A) (start stop : nat) : list A :=
  take (stop - start) (drop start l).

(** One [executor.submit(self._process_file_chunk, file_chunk, total,
    start_idx)]. *)
Record Submitted := {
  file_chunk : list A;
  total_files : nat;
  start_index : nat
}.

Definition chunk_size (total thread_count : nat) : nat :=
  (total + thread_count - 1) / thread_count.

(** The body of the loop at [i]. *)
Definition submit_at (files : list A) (thread_count i : nat) : option Submitted :=
  let total := length files in
  let chunk_size := chunk_size total thread_count in
  let start_idx := i * chunk_size in
  let end_idx := min (start_idx + chunk_size) total in
  if start_idx <? end_idx then
    Some {| file_chunk := slice files start_idx end_idx;
            total_files := total;
            start_index := start_idx |}
  else None.

(** The chunks submitted to the pool, in the order of the loop; none when
    the list is empty (the early return). *)
Definition submitted_chunks (files : list A) (thread_count : nat) : list Submitted :=
  if length files =? 0 then []
  else omap (submit_at files thread_count) (seq 0 thread_count).

(** [Tiling off cs l]: the chunks [cs] cut [l] into non-empty consecutive
    pieces, the first one starting at index [off]. *)
Inductive Tiling : nat -> list Submitted -> list A -> Prop :=
  | Tiling_nil off : Tiling off [] []
  | Tiling_cons off c cs l :
      start_index c = off ->
      file_chunk c <> [] ->
      Tiling (off + length (file_chunk c)) cs l ->
      Tiling off (c :: cs) (file_chunk c ++ l).

End Chunks.
Arguments Submitted : clear implicits.

End Scheduler.

Module SchedulerFacts.
Import Scheduler.
Local Open Scope nat_scope.

Section Facts.
Context {A : Type}.
Implicit Types (l files : list A) (cs : list (Submitted A)).

Lemma slice_length l a b : b <= length l -> length (slice l a b) = b - a.
Proof. intros H. unfold slice. rewrite length_take, length_drop. lia. Qed.

Lemma slice_empty l a : slice l a a = [].
Proof. unfold slice. by rewrite Nat.sub_diag. Qed.

Lemma slice_all l : slice l 0 (length l) = l.
Proof. unfold slice. rewrite Nat.sub_0_r, drop_0. apply firstn_all. Qed.

Lemma take_add l n m : take (n + m) l = take n l ++ take m (drop n l).
Proof.
  revert l. induction n as [| n IH]; intros [| x l]; simpl;
    rewrite ?take_nil; try reflexivity.
  f_equal. apply IH.
Qed.

Lemma slice_app l a b c :
  a <= b -> b <= c -> slice l a c = slice l a b ++ slice l b c.
Proof.
  intros Hab Hbc. unfold slice.
  replace (c - a) with ((b - a) + (c - b)) by lia.
  replace (drop b l) with (drop (b - a) (drop a l))
    by (rewrite drop_drop; f_equal; lia).
  apply take_add.
Qed.

(** The loop starts at or before the end of the list only while chunks are
    left, and [thread_count] chunks reach the end. *)
Lemma chunk_size_pos total t : 1 <= total -> 1 <= t -> 1 <= chunk_size total t.
Proof.
  intros Ht Hn. unfold chunk_size.
  apply Nat.div_le_lower_bound; lia.
Qed.

Lemma chunk_size_covers total t : 1 <= t -> total <= t * chunk_size total t.
Proof.
  intros Hn. unfold chunk_size.
  pose proof (Nat.div_mod_eq (total + t - 1) t) as E.
  pose proof (Nat.mod_upper_bound (total + t - 1) t) as U.
  lia.
Qed.

Lemma submit_loop_tiling files t i n :
  1 <= chunk_size (length files) t ->
  let total := length files in
  let sz := chunk_size total t in
  Tiling (min (i * sz) total)
         (omap (submit_at files t) (seq i n))
         (slice files (min (i * sz) total) (min ((i + n) * sz) total)).
Proof.
  intros Hsz total sz. assert (Hsz' : 1 <= sz) by exact Hsz. revert i.
  induction n as [| n IH]; intros i.
  - rewrite Nat.add_0_r, slice_empty. constructor.
  - specialize (IH (S i)). simpl seq. simpl omap.
    unfold submit_at at 1. fold total. fold sz.
    replace (S i + n) with (i + S n) in IH by lia.
    destruct (Nat.ltb_spec (i * sz) (min (i * sz + sz) total)) as [Hlt | Hge].
    + assert (Hmin : min (i * sz) total = i * sz) by lia.
      assert (Hend : min (i * sz + sz) total = min (S i * sz) total) by lia.
      rewrite Hmin, Hend.
      rewrite (slice_app files (i * sz) (min (S i * sz) total)
                 (min ((i + S n) * sz) total)) by nia.
      set (c := {| file_chunk := slice files (i * sz) (min (S i * sz) total);
                   total_files := total; start_index := i * sz |}).
      change (slice files (i * sz) (min (S i * sz) total)) with (file_chunk c).
      constructor; [reflexivity | |].
      * intros E. apply (f_equal length) in E. simpl in E.
        rewrite slice_length in E by lia. simpl in E. lia.
      * simpl file_chunk at 1. rewrite slice_length by lia.
        match goal with
        | |- Tiling ?o _ _ => replace o with (min (S i * sz) total) by lia
        end.
        exact IH.
    + assert (Hi : min (i * sz) total = total) by lia.
      assert (HSi : min (S i * sz) total = total) by lia.
      rewrite Hi. rewrite HSi in IH. exact IH.
Qed.

Lemma submitted_chunks_tiling files t :
  1 <= t -> Tiling 0 (submitted_chunks files t) files.
Proof.
  intros Ht. unfold submitted_chunks.
  destruct (Nat.eqb_spec (length files) 0) as [E | E].
  - apply length_zero_iff_nil in E. subst. constructor.
  - pose proof (submit_loop_tiling files t 0 t) as H.
    cbv zeta in H. simpl in H.
    pose proof (chunk_size_covers (length files) t Ht).
    rewrite Nat.min_r in H by lia.
    rewrite slice_all in H. apply H. apply chunk_size_pos; lia.
Qed.

(** What a tiling says about its chunks. *)
Lemma tiling_concat off cs l :
  Tiling off cs l -> concat (file_chunk <$> cs) = l.
Proof.
  induction 1 as [| off c cs l _ _ _ IH]; simpl; [done | f_equal; exact IH].
Qed.

Lemma tiling_sum off cs l :
  Tiling off cs l ->
  sum_list ((fun c => length (file_chunk c)) <$> cs) = length l.
Proof.
  induction 1 as [| off c cs l _ _ _ IH]; simpl; [done |].
  rewrite length_app. f_equal. exact IH.
Qed.

Lemma tiling_lookup off cs l i c :
  Tiling off cs l -> cs !! i = Some c ->
  exists p, start_index c = off + p /\
            p + length (file_chunk c) <= length l /\
            file_chunk c <> [] /\
            forall m, m < length (file_chunk c) ->
                      file_chunk c !! m = l !! (p + m).
Proof.
  intros T. revert i. induction T as [| off d cs l Hs Hne T IH]; intros i Hi.
  - by rewrite lookup_nil in Hi.
  - destruct i as [| i]; simpl in Hi.
    + injection Hi as ->. exists 0. rewrite length_app.
      repeat split; [lia | lia | done |].
      intros m Hm. simpl. by rewrite lookup_app_l.
    + destruct (IH i Hi) as (p & Hp & Hlen & Hne' & Hm).
      exists (length (file_chunk d) + p). rewrite length_app.
      repeat split; [lia | lia | done |].
      intros m Hlt. rewrite (Hm m Hlt), lookup_app_r by lia.
      f_equal. lia.
Qed.

Lemma tiling_starts_after off cs l i c :
  Tiling off cs l -> cs !! i = Some c -> off <= start_index c.
Proof.
  intros T Hi. destruct (tiling_lookup off cs l i c T Hi) as (p & -> & _). lia.
Qed.

Lemma tiling_ordered off cs l i j c d :
  Tiling off cs l -> i < j -> cs !! i = Some c -> cs !! j = Some d ->
  start_index c + length (file_chunk c) <= start_index d.
Proof.
  intros T. revert i j. induction T as [| off e cs l Hs Hne T IH]; intros i j Hij Hi Hj.
  - by rewrite lookup_nil in Hi.
  - destruct j as [| j]; [lia |]. simpl in Hj.
    destruct i as [| i]; simpl in Hi.
    + injection Hi as ->. rewrite Hs.
      eapply tiling_starts_after; eauto.
    + eapply (IH i j); eauto. lia.
Qed.

Lemma tiling_covers off cs l k :
  Tiling off cs l -> k < length l ->
  exists i c, cs !! i = Some c /\
              start_index c <= off + k < start_index c + length (file_chunk c).
Proof.
  intros T. revert k. induction T as [| off e cs l Hs Hne T IH]; intros k Hk.
  - simpl in Hk. lia.
  - rewrite length_app in Hk.
    destruct (Nat.lt_ge_cases k (length (file_chunk e))) as [Hlt | Hge].
    + exists 0, e. simpl. split; [done | lia].
    + destruct (IH (k - length (file_chunk e))) as (i & c & Hi & Hc); [lia |].
      exists (S i), c. simpl. split; [done | lia].
Qed.

(** C3: for a worker count of one or more, the submitted chunks have
    lengths that add up to the length of the file list, laid end to end
    they are the file list, every chunk is a non-empty run of the list that
    keeps its order and starts at [start_index], two chunks cover disjoint
    index ranges, and every index of the list lies in exactly one chunk. *)
Theorem chunks_partition (files : list A) (thread_count : nat) :
  1 <= thread_count ->
  let cs := submitted_chunks files thread_count in
  sum_list ((fun c => length (file_chunk c)) <$> cs) = length files /\
  concat (file_chunk <$> cs) = files /\
  (forall i c, cs !! i = Some c ->
     file_chunk c <> [] /\
     start_index c + length (file_chunk c) <= length files /\
     forall m, m < length (file_chunk c) ->
               file_chunk c !! m = files !! (start_index c + m)) /\
  (forall i j c d, i < j -> cs !! i = Some c -> cs !! j = Some d ->
     start_index c + length (file_chunk c) <= start_index d) /\
  (forall k, k < length files ->
     exists i c, cs !! i = Some c /\
       start_index c <= k < start_index c + length (file_chunk c) /\
       forall j d, cs !! j = Some d ->
         start_index d <= k < start_index d + length (file_chunk d) -> j = i).
Proof.
  intros Ht cs. pose proof (submitted_chunks_tiling files thread_count Ht) as T.
  fold cs in T. repeat split.
  - eapply tiling_sum, T.
  - eapply tiling_concat, T.
  - destruct (tiling_lookup 0 cs files i c T H) as (p & Hp & Hlen & Hne & Hm). done.
  - destruct (tiling_lookup 0 cs files i c T H) as (p & Hp & Hlen & Hne & Hm).
    simpl in Hp. lia.
  - destruct (tiling_lookup 0 cs files i c T H) as (p & Hp & Hlen & Hne & Hm).
    simpl in Hp. subst p. exact Hm.
  - intros i j c d. apply (tiling_ordered 0 cs files i j c d T).
  - intros k Hk. destruct (tiling_covers 0 cs files k T Hk) as (i & c & Hi & Hc).
    simpl in Hc. exists i, c. repeat split; [done | lia | lia |].
    intros j d Hj Hd.
    destruct (Nat.lt_total j i) as [Hlt | [-> | Hgt]]; [| done |].
    + pose proof (tiling_ordered 0 cs files j i d c T Hlt Hj Hi). lia.
    + pose proof (tiling_ordered 0 cs files i j c d T Hgt Hi Hj). lia.
Qed.

End Facts.

(** The count the governor answers is one or more, so the chunks of a run
    tile its files. *)
Lemma governed_chunks_tile {A} (env : Governor.Env) (files : list A) (requested : Z) :
  (0 < requested)%Z ->
  Tiling 0
    (submitted_chunks files
       (Z.to_nat (Governor._optimize_thread_count env (Z.of_nat (length files))
                    requested)))
    files.
Proof.
  intros Hr. apply submitted_chunks_tiling.
  destruct (GovernorFacts.governor_at_least_one env (Z.of_nat (length files))
              requested Hr) as [H _]; lia.
Qed.

(** The theorem on five files and two workers: chunks of three and two. *)
Lemma chunks_partition_witness :
  file_chunk <$> submitted_chunks [10; 11; 12; 13; 14] 2
    = [[10; 11; 12]; [13; 14]] /\
  concat (file_chunk <$> submitted_chunks [10; 11; 12; 13; 14] 2)
    = [10; 11; 12; 13; 14].
Proof.
  split; [reflexivity |].
  exact (proj1 (proj2 (chunks_partition [10; 11; 12; 13; 14] 2 (le_S 1 1 (le_n 1))))).
Defined.

End SchedulerFacts.

(** ** Python strings *)

Module Str.
Local Open Scope nat_scope.

(** A [str] is its sequence of code points. *)
Definition pystr := list N.

Definition byte_codes (s : string) : list N :=
  Ascii.N_of_ascii <$> String.list_ascii_of_string s.

(** The code points of a UTF-8 byte sequence (a stray byte stands for
    itself). *)
Fixpoint utf8_decode (bs : list N) : pystr :=
  match bs with
  | [] => []
  | b :: r =>
      if (b <? 192)%N then b :: utf8_decode r
      else if (b <? 224)%N then
        match r with
        | c1 :: r1 => ((b - 192) * 64 + (c1 - 128))%N :: utf8_decode r1
        | [] => [b]
        end
      else if (b <? 240)%N then
        match r with
        | c1 :: c2 :: r2 =>
            ((b - 224) * 4096 + (c1 - 128) * 64 + (c2 - 128))%N :: utf8_decode r2
        | _ => b :: utf8_decode r
        end
      else
        match r with
        | c1 :: c2 :: c3 :: r3 =>
            ((b - 240) * 262144 + (c1 - 128) * 4096 + (c2 - 128) * 64
             + (c3 - 128))%N :: utf8_decode r3
        | _ => b :: utf8_decode r
        end
  end.

(** A literal of the source, written in UTF-8. *)
Definition u (s : string) : pystr := utf8_decode (byte_codes s).

(** [str(n)] for a counter. *)
Definition str_of_nat (n : nat) : pystr := byte_codes (pretty n).

(** The tables of the Unicode database that the code reads through [str]
    and [re]: they belong to the interpreter, and the properties below are
    stated for any tables. *)
Record Unicode := {
  lower : pystr -> pystr;        (* str.lower *)
  capitalize : pystr -> pystr;   (* str.capitalize *)
  is_word : N -> bool;           (* \w *)
  is_space : N -> bool           (* \s, and the whitespace of split and strip *)
}.

Section Ops.
Variable U : Unicode.

(** [s.split()] *)
Fixpoint split_from (cur : pystr) (s : pystr) : list pystr :=
  match s with
  | [] => match cur with [] => [] | _ => [rev cur] end
  | c :: s' =>
      if is_space U c then
        match cur with
        | [] => split_from [] s'
        | _ => rev cur :: split_from [] s'
        end
      else split_from (c :: cur) s'
  end.

Definition split (s : pystr) : list pystr := split_from [] s.

Fixpoint lstrip (s : pystr) : pystr :=
  match s with
  | c :: s' => if is_space U c then lstrip s' else s
  | [] => []
  end.

Definition rstrip (s : pystr) : pystr := rev (lstrip (rev s)).

(** [s.strip()] *)
Definition strip (s : pystr) : pystr := rstrip (lstrip s).

(** [re.sub(r'[^\w\s]', ' ', s)] *)
Definition sub_punctuation (s : pystr) : pystr :=
  (fun c => if is_word U c || is_space U c then c else 32%N) <$> s.

End Ops.

(** [re.split(r'[.!?]+', s)]: the pieces between the maximal runs of
    sentence marks, empty pieces at the ends included. *)
Definition is_sentence_mark (c : N) : bool :=
  (c =? 46)%N || (c =? 33)%N || (c =? 63)%N.

Fixpoint split_sentences_from (cur : pystr) (in_run : bool) (s : pystr)
  : list pystr :=
  match s with
  | [] => [rev cur]
  | c :: s' =>
      if is_sentence_mark c then
        if in_run then split_sentences_from cur true s'
        else rev cur :: split_sentences_from [] true s'
      else split_sentences_from (c :: cur) false s'
  end.

Definition split_sentences (s : pystr) : list pystr :=
  split_sentences_from [] false s.

(** [sep.join(parts)] *)
Fixpoint join (sep : pystr) (parts : list pystr) : pystr :=
  match parts with
  | [] => []
  | [p] => p
  | p :: rest => p ++ sep ++ join sep rest
  end.

(** ** [collections.Counter]: a dictionary of counts in first-seen order *)

Section Counter.
Context {K : Type} `{EqDecision K}.

Fixpoint counter_incr (k : K) (c : list (K * nat)) : list (K * nat) :=
  match c with
  | [] => [(k, 1)]
  | (k', n) :: c' =>
      if decide (k = k') then (k', S n) :: c' else (k', n) :: counter_incr k c'
  end.

(** [Counter(l)] *)
Definition Counter (l : list K) : list (K * nat) :=
  foldl (fun c k => counter_incr k c) [] l.

(** [c.get(k, 0)] *)
Fixpoint counter_get (c : list (K * nat)) (k : K) : nat :=
  match c with
  | [] => 0
  | (k', n) :: c' => if decide (k = k') then n else counter_get c' k
  end.

(** Sorting by count, largest first, equal counts in first-seen order. *)
Fixpoint insert_by_count (x : K * nat) (l : list (K * nat)) : list (K * nat) :=
  match l with
  | [] => [x]
  | y :: l' => if snd y <? snd x then x :: y :: l' else y :: insert_by_count x l'
  end.

(** [c.most_common(n)] *)
Definition most_common (n : nat) (c : list (K * nat)) : list (K * nat) :=
  take n (foldl (fun acc x => insert_by_count x acc) [] c).

End Counter.

(** ** The tables on the Latin letters of the examples *)

Definition latin_upper_letter (c : N) : bool :=
  ((65 <=? c) && (c <=? 90) || (192 <=? c) && (c <=? 222) && negb (c =? 215))%N.

Definition latin_lower_letter (c : N) : bool :=
  ((97 <=? c) && (c <=? 122) || (223 <=? c) && (c <=? 255) && negb (c =? 247))%N.

Definition latin_lower_char (c : N) : pystr :=
  if latin_upper_letter c then [(c + 32)%N]
  else if (c =? 286)%N then [287%N]          (* Ğ *)
  else if (c =? 350)%N then [351%N]          (* Ş *)
  else if (c =? 304)%N then [105%N; 775%N]   (* İ *)
  else [c].

Definition latin_upper_char (c : N) : pystr :=
  if (c =? 223)%N then [83%N; 115%N]         (* ß *)
  else if (c =? 255)%N then [376%N]          (* ÿ *)
  else if latin_lower_letter c then [(c - 32)%N]
  else if (c =? 287)%N then [286%N]
  else if (c =? 351)%N then [350%N]
  else if (c =? 305)%N then [73%N]           (* ı *)
  else [c].

Definition latin_is_word (c : N) : bool :=
  ((48 <=? c) && (c <=? 57) || (c =? 95)
   || latin_upper_letter c || latin_lower_letter c
   || (c =? 170) || (c =? 181) || (c =? 186)
   || (256 <=? c) && (c <=? 383))%N.

Definition latin_is_space (c : N) : bool :=
  ((9 <=? c) && (c <=? 13) || (28 <=? c) && (c <=? 32)
   || (c =? 133) || (c =? 160))%N.

Definition latin : Unicode := {|
  lower := fun s => s ≫= latin_lower_char;
  capitalize := fun s =>
    match s with
    | [] => []
    | c :: s' => latin_upper_char c ++ (s' ≫= latin_lower_char)
    end;
  is_word := latin_is_word;
  is_space := latin_is_space
|}.

End Str.

(** ** Document classifier: [DocumentAnalyzer] *)

Module Analyzer.
Import Str.
Local Open Scope nat_scope.

(** The zero-shot pipeline, an external model: from its own state, the text
    sample and the candidate labels to the labels paired with their scores
    ([None]: the call raises), and its next state. *)
Definition pipeline (S : Type) : Type :=
  S -> pystr -> list pystr -> option (list (pystr * spec_float)) * S.

Record DocumentAnalyzer (S : Type) := {
  categories : list (pystr * list pystr);
  turkish_stopwords : gset pystr;
  ai_pipeline : option (pipeline S);
  initialized : bool
}.
Arguments categories {S}.
Arguments turkish_stopwords {S}.
Arguments ai_pipeline {S}.
Arguments initialized {S}.

(** The literal [0.3] *)
Definition lit_0_3 : spec_float := S754_finite false 5404319552844595 (-54).

Section Methods.
Variable U : Unicode.
Context {S : Type}.
Implicit Types (self : DocumentAnalyzer S) (text : pystr).

(** [words] of [_keyword_analysis] *)
Definition words text : list pystr :=
  split U (sub_punctuation U (lower U text)).

(** [words_filtered] of [_keyword_analysis] *)
Definition words_filtered self text : list pystr :=
  filter (fun w => (w ∉ turkish_stopwords self) /\ (2 < length w)) (words text).

(** The inner loop: the score of one keyword list. *)
Definition score (word_counter : list (pystr * nat)) (keywords : list pystr) : nat :=
  foldl (fun score keyword => score + counter_get word_counter keyword) 0 keywords.

Definition _keyword_analysis self text : list pystr :=
  let word_counter := Counter (words_filtered self text) in
  foldl (fun detected '(category, keywords) =>
           if 2 <=? score word_counter keywords then detected ++ [category]
           else detected)
        [] (categories self).

(** [_ai_analysis]: every failure is caught and gives no category. *)
Definition _ai_analysis self (σ : S) text : list pystr * S :=
  match ai_pipeline self with
  | None => ([], σ)
  | Some call =>
      let candidate_labels := fst <$> categories self in
      let text_sample := take 500 text in
      match call σ text_sample candidate_labels with
      | (Some result, σ') =>
          (fst <$> filter (fun r => Py.fgt (snd r) lit_0_3 = true) result, σ')
      | (None, σ') => ([], σ')
      end
  end.

(** The loop of [_create_summary], with its [break]. *)
Fixpoint summary_loop (max_length : nat) (sentences : list pystr) (summary : pystr)
  : pystr :=
  match sentences with
  | [] => summary
  | sentence :: rest =>
      if length summary + length sentence <? max_length then
        summary_loop max_length rest (summary ++ sentence ++ u ". ")
      else summary
  end.

Definition _create_summary text : pystr :=
  let max_length := 150 in
  match text with
  | [] => []
  | _ =>
      let sentences := split_sentences text in
      let valid_sentences :=
        strip U <$> filter (fun s => 10 < length (strip U s)) sentences in
      match valid_sentences with
      | [] =>
          if max_length <? length text then take max_length text ++ u "..."
          else text
      | _ =>
          let summary := summary_loop max_length (take 3 valid_sentences) [] in
          let summary := strip U summary in
          if max_length <? length summary then take max_length summary ++ u "..."
          else summary
      end
  end.

(** [analyze_content]: the main category, the related categories and the
    summary, and the state the pipeline is left in. *)
Definition analyze_content self (σ : S) text
  : (pystr * list pystr * pystr) * S :=
  if (bool_decide (text = []) || (length (strip U text) <? 20))%bool then
    ((u "Diğer_Belgeler", [], u "İçerik yetersiz"), σ)
  else
    let keyword_categories := _keyword_analysis self text in
    let '(ai_categories, σ') :=
      if (initialized self && (100 <? length text))%bool then
        _ai_analysis self σ text
      else ([], σ) in
    let all_categories := keyword_categories ++ ai_categories in
    match all_categories with
    | [] => ((u "Diğer_Belgeler", [], _create_summary text), σ')
    | _ =>
        let category_counter := Counter all_categories in
        match most_common 1 category_counter with
        | (main_category, _) :: _ =>
            let related :=
              filter (fun cat => cat <> main_category)
                     (fst <$> most_common 3 category_counter) in
            ((main_category, related, _create_summary text), σ')
        | [] => ((u "Diğer_Belgeler", [], u "Analiz hatası"), σ')
        end
    end.

End Methods.

(** The tables of [__init__]. *)
Definition default_categories : list (pystr * list pystr) :=
  [ (u "Finans",
     u <$> ["bütçe"; "fatura"; "ödeme"; "bank"; "para"; "hesap"; "mali"; "finans";
            "kredi"; "borç"; "yatırım"; "borsa"; "döviz"; "vergi"; "maaş"]);
    (u "Eğitim",
     u <$> ["ders"; "ödev"; "proje"; "sınav"; "okul"; "üniversite"; "eğitim";
            "öğrenci"; "not"; "sınıf"; "kurs"; "seminer"; "akademik"; "tez";
            "ders notu"]);
    (u "İş",
     u <$> ["rapor"; "toplantı"; "proje"; "sunum"; "iş"; "şirket"; "yönetim";
            "strateji"; "plan"; "çalışan"; "müdür"; "müşteri"; "satış";
            "pazarlama"; "insan kaynakları"]);
    (u "Teknik",
     u <$> ["kod"; "yazılım"; "donanım"; "teknik"; "sistem"; "network"; "server";
            "database"; "program"; "algoritma"; "yapay zeka"; "machine learning";
            "veri"; "analiz"]);
    (u "Sağlık",
     u <$> ["sağlık"; "hasta"; "tedavi"; "rapor"; "ilaç"; "doktor"; "hastane";
            "muayene"; "tahlil"; "reçete"; "ameliyat"; "tedavi"; "psikoloji";
            "terapi"]);
    (u "Hukuk",
     u <$> ["sözleşme"; "kanun"; "yasa"; "hukuk"; "dava"; "avukat"; "mahkeme";
            "anlaşma"; "taraflar"; "madde"; "yargı"; "ceza"; "hüküm"; "temyiz"]);
    (u "Kişisel",
     u <$> ["cv"; "özgeçmiş"; "mektup"; "kişisel"; "iletişim"; "aile"; "arkadaş";
            "ev"; "tatil"; "gezi"; "günlük"; "anı"; "fotoğraf"; "video"]);
    (u "Araştırma",
     u <$> ["araştırma"; "makale"; "tez"; "bilim"; "akademik"; "yayın"; "doktora";
            "literatür"; "deney"; "sonuç"; "hipotez"; "bulgu"; "analiz"]);
    (u "Tasarım",
     u <$> ["tasarım"; "çizim"; "grafik"; "resim"; "şekil"; "layout"; "ui"; "ux";
            "renk"; "font"; "illustrasyon"; "mockup"; "prototip"]);
    (u "Yönetim",
     u <$> ["plan"; "strateji"; "hedef"; "performans"; "kalite"; "süreç";
            "proje yönetimi"; "risk"; "bütçe"; "kpi"; "rapor"; "analiz"; "karar"])
  ]%string.

Definition default_stopwords : gset pystr :=
  list_to_set (u <$>
    ["acaba"; "ama"; "aslında"; "az"; "bazı"; "belki"; "biri"; "birkaç";
     "birşey"; "biz"; "bu"; "çok"; "çünkü"; "da"; "daha"; "de"; "defa"; "diye";
     "eğer"; "en"; "gibi"; "hem"; "hep"; "hepsi"; "her"; "hiç"; "için"; "ile";
     "ise"; "kez"; "ki"; "kim"; "mı"; "mu"; "mü"; "nasıl"; "ne"; "neden";
     "nerde"; "nerede"; "nereye"; "niçin"; "niye"; "o"; "sanki"; "şey"; "siz";
     "şu"; "tüm"; "ve"; "veya"; "ya"; "yani"]%string).

(** The analyzer as [__init__] leaves it when no model is loaded. *)
Definition keyword_only : DocumentAnalyzer unit := {|
  categories := default_categories;
  turkish_stopwords := default_stopwords;
  ai_pipeline := None;
  initialized := false
|}.

End Analyzer.

(** ** Properties of the keyword analysis *)

Module AnalyzerFacts.
Import Str Analyzer.
Local Open Scope nat_scope.

(** *** Counters *)

Section CounterFacts.
Context {K : Type} `{EqDecision K}.
Implicit Types (c : list (K * nat)) (l : list K) (k : K).

(** The number of times [k] stands in [l]. *)
Definition occurrences k l : nat := length (filter (fun x => x = k) l).

Lemma counter_get_incr c k k' :
  counter_get (counter_incr k' c) k
  = counter_get c k + (if decide (k = k') then 1 else 0).
Proof.
  induction c as [| [k'' n] c IH]; simpl.
  - destruct (decide (k = k')); reflexivity.
  - destruct (decide (k' = k'')) as [-> | Hne]; simpl.
    + destruct (decide (k = k'')); lia.
    + destruct (decide (k = k'')) as [-> | Hne'].
      * destruct (decide (k'' = k')); [congruence | lia].
      * exact IH.
Qed.

Lemma counter_get_foldl l c k :
  counter_get (foldl (fun c k => counter_incr k c) c l) k
  = counter_get c k + occurrences k l.
Proof.
  revert c. induction l as [| x l IH]; intros c; simpl.
  - unfold occurrences. simpl. lia.
  - rewrite IH, counter_get_incr. unfold occurrences.
    rewrite filter_cons. destruct (decide (k = x)) as [-> | Hne].
    + rewrite decide_True by done. simpl. lia.
    + rewrite decide_False by congruence. lia.
Qed.

(** [Counter(l).get(k, 0)] counts [k] in [l]. *)
Lemma counter_get_Counter l k : counter_get (Counter l) k = occurrences k l.
Proof. unfold Counter. rewrite counter_get_foldl. reflexivity. Qed.

Lemma occurrences_zero k l : k ∉ l -> occurrences k l = 0.
Proof.
  intros Hk. unfold occurrences. induction l as [| x l IH]; [done |].
  rewrite filter_cons. rewrite not_elem_of_cons in Hk. destruct Hk as [Hne Hk].
  rewrite decide_False by congruence. auto.
Qed.

(** Over a list of keys without repetition, the counts add up to the
    number of elements that are keys. *)
Lemma occurrences_sum_NoDup (keys : list K) l :
  NoDup keys ->
  sum_list ((fun k => occurrences k l) <$> keys)
  = length (filter (fun x => x ∈ keys) l).
Proof.
  intros Hnd. induction l as [| x l IH].
  - clear Hnd. induction keys as [| k keys IHk]; [done | exact IHk].
  - rewrite filter_cons.
    assert (E : sum_list ((fun k => occurrences k (x :: l)) <$> keys)
                = (if decide (x ∈ keys) then 1 else 0)
                  + sum_list ((fun k => occurrences k l) <$> keys)).
    { clear IH. induction Hnd as [| k keys Hk Hnd IHk].
      - destruct (decide (x ∈ [])) as [Hin |]; [| done].
        by apply elem_of_nil in Hin.
      - rewrite fmap_cons.
        change (sum_list (?a :: ?r)) with (a + sum_list r).
        rewrite IHk. rewrite fmap_cons.
        change (sum_list (?a :: ?r)) with (a + sum_list r).
        unfold occurrences at 1. rewrite filter_cons.
        fold (occurrences k l).
        destruct (decide (x = k)) as [-> | Hne].
        + rewrite (decide_False (P := k ∈ keys)) by done.
          rewrite (decide_True (P := k ∈ k :: keys)) by left. reflexivity.
        + destruct (decide (x ∈ keys)) as [Hin | Hout].
          * rewrite (decide_True (P := x ∈ k :: keys)) by (by right).
            unfold occurrences. lia.
          * rewrite (decide_False (P := x ∈ k :: keys));
              [unfold occurrences; lia |].
            rewrite not_elem_of_cons. done. }
    rewrite E, IH. destruct (decide (x ∈ keys)); simpl; lia.
Qed.

End CounterFacts.

Lemma filter_filter_length {A} (P Q : A -> Prop)
    `{forall x, Decision (P x)} `{forall x, Decision (Q x)} (l : list A) :
  length (filter Q (filter P l)) <= length (filter Q l).
Proof.
  induction l as [| a l IH]; [done |].
  rewrite !filter_cons. destruct (decide (P a)).
  - rewrite filter_cons. destruct (decide (Q a)); simpl; lia.
  - destruct (decide (Q a)); simpl; lia.
Qed.

(** *** Tokens *)

Section Tokens.
Variable U : Unicode.

Lemma split_from_no_space cur s w :
  Forall (fun c => is_space U c = false) cur ->
  w ∈ split_from U cur s ->
  Forall (fun c => is_space U c = false) w.
Proof.
  revert cur. induction s as [| c s IH]; intros cur Hcur Hw; simpl in Hw.
  - destruct cur; [by apply elem_of_nil in Hw |].
    apply list_elem_of_singleton in Hw as ->. by apply Forall_rev.
  - destruct (is_space U c) eqn:Ec.
    + destruct cur as [| c' cur'].
      * by apply (IH []).
      * apply elem_of_cons in Hw as [-> | Hw]; [by apply Forall_rev |].
        by apply (IH []).
    + apply (IH (c :: cur)); [by constructor | done].
Qed.

(** A token of [split] holds no whitespace. *)
Lemma split_no_space s w c :
  w ∈ split U s -> c ∈ w -> is_space U c = false.
Proof.
  intros Hw Hc.
  assert (F : Forall (fun c => is_space U c = false) w)
    by (apply (split_from_no_space [] s w); [constructor | exact Hw]).
  rewrite Forall_forall in F. by apply F.
Qed.

End Tokens.

(** *** Scores and detected categories *)

(** What one keyword adds to the score of its category. *)
Definition credit (U : Unicode) {S} (self : DocumentAnalyzer S) (text keyword : pystr)
  : nat :=
  counter_get (Counter (words_filtered U self text)) keyword.

(** How many tokens of the text are keywords of the list. *)
Definition keyword_occurrences (U : Unicode) (text : pystr) (keywords : list pystr)
  : nat :=
  length (filter (fun w => w ∈ keywords) (words U text)).

(** A keyword that can be credited: no space in it, three characters or
    more. *)
Definition creditable (keyword : pystr) : Prop :=
  (32%N ∉ keyword) /\ (3 <= length keyword).

Global Instance creditable_dec keyword : Decision (creditable keyword).
Proof. unfold creditable. apply _. Defined.

(** The category table without the keywords that cannot be credited. *)
Definition prune (cats : list (pystr * list pystr)) : list (pystr * list pystr) :=
  (fun e => (fst e, filter creditable (snd e))) <$> cats.

Definition without_uncreditable {S} (self : DocumentAnalyzer S) : DocumentAnalyzer S :=
  {| categories := prune (categories self);
     turkish_stopwords := turkish_stopwords self;
     ai_pipeline := ai_pipeline self;
     initialized := initialized self |}.

Section Keywords.
Variable U : Unicode.
Context {S : Type}.
Implicit Types (self : DocumentAnalyzer S) (text keyword : pystr).

Lemma score_sum (wc : list (pystr * nat)) (keywords : list pystr) :
  score wc keywords = sum_list (counter_get wc <$> keywords).
Proof.
  unfold score.
  assert (G : forall a, foldl (fun score keyword => score + counter_get wc keyword)
                              a keywords
                        = a + sum_list (counter_get wc <$> keywords)).
  { induction keywords as [| k ks IH]; intros a; [simpl; lia |].
    cbn [foldl]. rewrite IH, fmap_cons.
    change (sum_list (?x :: ?r)) with (x + sum_list r). lia. }
  apply G.
Qed.

(** The outer loop keeps, in the order of the table, the categories whose
    score reaches two. *)
Lemma keyword_analysis_filter self text :
  _keyword_analysis U self text
  = fst <$> filter (fun e => 2 <= score (Counter (words_filtered U self text)) (snd e))
                   (categories self).
Proof.
  unfold _keyword_analysis. cbv zeta.
  set (wc := Counter (words_filtered U self text)).
  assert (G : forall acc,
    foldl (fun detected '(category, keywords) =>
             if 2 <=? score wc keywords then detected ++ [category] else detected)
          acc (categories self)
    = acc ++ (fst <$> filter (fun e => 2 <= score wc (snd e)) (categories self))).
  { induction (categories self) as [| [c ks] cats IH]; intros acc.
    - simpl. by rewrite app_nil_r.
    - cbn [foldl]. rewrite IH, filter_cons. cbn [snd].
      destruct (Nat.leb_spec 2 (score wc ks)).
      + rewrite decide_True by done. rewrite fmap_cons, <- app_assoc. done.
      + rewrite decide_False by lia. done. }
  apply G.
Qed.

Lemma credit_occurrences self text keyword :
  credit U self text keyword = occurrences keyword (words_filtered U self text).
Proof. apply counter_get_Counter. Qed.

(** Only a token that passed the filter is credited. *)
Lemma credit_pos self text keyword :
  0 < credit U self text keyword ->
  (keyword ∈ words U text) /\ (keyword ∉ turkish_stopwords self) /\
  (2 < length keyword) /\ (forall c, c ∈ keyword -> is_space U c = false).
Proof.
  intros Hpos. rewrite credit_occurrences in Hpos.
  destruct (decide (keyword ∈ words_filtered U self text)) as [Hin | Hout].
  - unfold words_filtered in Hin. apply list_elem_of_filter in Hin as [[Hsw Hlen] Hw].
    repeat split; try done.
    intros c Hc. by apply (split_no_space U _ keyword c Hw).
  - rewrite occurrences_zero in Hpos by done. lia.
Qed.

Lemma credit_uncreditable self text keyword :
  is_space U 32 = true -> ~ creditable keyword -> credit U self text keyword = 0.
Proof.
  intros Hsp Hno.
  destruct (Nat.eq_0_gt_0_cases (credit U self text keyword)) as [E | Hpos]; [done |].
  destruct (credit_pos self text keyword Hpos) as (_ & _ & Hlen & Hws).
  exfalso. apply Hno. split; [| lia].
  intros Hin. specialize (Hws _ Hin). congruence.
Qed.

Lemma score_prune (wc : list (pystr * nat)) (keywords : list pystr) :
  (forall keyword, ~ creditable keyword -> counter_get wc keyword = 0) ->
  score wc (filter creditable keywords) = score wc keywords.
Proof.
  intros H0. rewrite !score_sum.
  induction keywords as [| k ks IH]; [done |].
  rewrite filter_cons. destruct (decide (creditable k)) as [Hk | Hk].
  - rewrite !fmap_cons.
    change (sum_list (?a :: ?r)) with (a + sum_list r). by rewrite IH.
  - rewrite fmap_cons.
    change (sum_list (?a :: ?r)) with (a + sum_list r).
    rewrite (H0 k Hk). exact IH.
Qed.

Lemma keyword_analysis_prune self text :
  is_space U 32 = true ->
  _keyword_analysis U (without_uncreditable self) text
  = _keyword_analysis U self text.
Proof.
  intros Hsp. rewrite !keyword_analysis_filter.
  change (words_filtered U (without_uncreditable self) text)
    with (words_filtered U self text).
  set (wc := Counter (words_filtered U self text)).
  assert (H0 : forall keyword, ~ creditable keyword -> counter_get wc keyword = 0)
    by (intros k Hk; apply (credit_uncreditable self text k Hsp Hk)).
  simpl categories. unfold prune.
  induction (categories self) as [| [c ks] cats IH]; [done |].
  rewrite fmap_cons, !filter_cons. simpl fst. simpl snd.
  rewrite (score_prune wc ks H0).
  destruct (decide (2 <= score wc ks)); rewrite ?fmap_cons; simpl; by rewrite IH.
Qed.

(** With no keyword listed twice, the score of a category is the number of
    filtered tokens that are keywords of it, which is at most the number
    of such tokens in the text. *)
Lemma score_NoDup self text (keywords : list pystr) :
  NoDup keywords ->
  score (Counter (words_filtered U self text)) keywords
  <= keyword_occurrences U text keywords.
Proof.
  intros Hnd. rewrite score_sum.
  rewrite (list_fmap_ext _ (fun k => occurrences k (words_filtered U self text))
             keywords)
    by (intros; apply counter_get_Counter).
  rewrite occurrences_sum_NoDup by done.
  unfold keyword_occurrences, words_filtered.
  apply filter_filter_length.
Qed.

Lemma keyword_threshold_NoDup self text category :
  (forall keywords, (category, keywords) ∈ categories self ->
     NoDup keywords /\ keyword_occurrences U text keywords < 2) ->
  category ∉ _keyword_analysis U self text.
Proof.
  intros H Hin. rewrite keyword_analysis_filter in Hin.
  apply list_elem_of_fmap in Hin as ([c ks] & -> & He).
  apply list_elem_of_filter in He as [Hscore He]. simpl in *.
  destruct (H ks He) as [Hnd Hocc].
  pose proof (score_NoDup self text ks Hnd). lia.
Qed.

End Keywords.

(** The keyword list of a category in a table ([KeyError] as the empty
    list). *)
Fixpoint keywords_of (cats : list (pystr * list pystr)) (category : pystr)
  : list pystr :=
  match cats with
  | [] => []
  | (c, ks) :: cats' => if decide (c = category) then ks else keywords_of cats' category
  end.

(** A note with the word "tedavi" in it once. *)
Definition one_treatment : pystr := u "Bugün tedavi için randevu alındı".

(** C5 fails on the table of the source: "tedavi" stands twice in the
    keyword list of "Sağlık", so a text with one occurrence of one keyword
    of the category, and no other, scores two and is given the category by
    the keyword analysis alone. *)
Lemma keyword_threshold_duplicate_entry :
  keyword_occurrences latin one_treatment
    (keywords_of default_categories (u "Sağlık")) = 1 /\
  occurrences (u "tedavi") (keywords_of default_categories (u "Sağlık")) = 2 /\
  _keyword_analysis latin keyword_only one_treatment = [u "Sağlık"] /\
  fst (analyze_content latin keyword_only tt one_treatment)
  = (u "Sağlık", [], u "Bugün tedavi için randevu alındı.").
Proof. vm_compute. repeat split; reflexivity. Qed.

(** A text that names keywords with a space in them and keywords of two
    characters. *)
Definition short_and_spaced : pystr :=
  u "machine learning cv cv iş iş ders notu ders notu kod yazılım".

(** C10: a keyword with a space in it, or of two characters or fewer, adds
    nothing to the score of its category; a keyword that adds something has
    three characters or more and no whitespace; and the category table
    without the keywords of the first kind detects the same categories in
    every text. *)
Theorem uncreditable_keywords_ignored (U : Unicode) {S} (self : DocumentAnalyzer S)
    (text : pystr) :
  is_space U 32 = true ->
  (forall keyword, 32%N ∈ keyword \/ length keyword <= 2 ->
                   credit U self text keyword = 0) /\
  (forall keyword, 0 < credit U self text keyword ->
                   3 <= length keyword /\
                   forall c, c ∈ keyword -> is_space U c = false) /\
  _keyword_analysis U (without_uncreditable self) text
  = _keyword_analysis U self text.
Proof.
  intros Hsp. repeat split.
  - intros keyword Hk. apply credit_uncreditable; [done |].
    intros [H32 Hlen]. destruct Hk; [done | lia].
  - destruct (credit_pos U self text keyword H) as (_ & _ & Hlen & _). lia.
  - destruct (credit_pos U self text keyword H) as (_ & _ & _ & Hws). done.
  - by apply keyword_analysis_prune.
Qed.

(** The theorem on the table of the source. *)
Lemma uncreditable_keywords_ignored_witness :
  credit latin keyword_only short_and_spaced (u "machine learning") = 0 /\
  credit latin keyword_only short_and_spaced (u "cv") = 0 /\
  _keyword_analysis latin (without_uncreditable keyword_only) short_and_spaced
  = _keyword_analysis latin keyword_only short_and_spaced.
Proof.
  destruct (uncreditable_keywords_ignored latin keyword_only short_and_spaced
              eq_refl) as (H0 & _ & Hsame).
  split; [| split]; [apply H0 | apply H0 | exact Hsame].
  - left. vm_compute. apply list_elem_of_In. vm_compute. tauto.
  - right. vm_compute. lia.
Defined.

(** *** Determinism of [analyze_content] *)

(** A fixed pipeline: what it answers does not depend on the state it is
    called in. *)
Definition fixed_pipeline {S} (call : pipeline S) : Prop :=
  forall σ σ' text labels, fst (call σ text labels) = fst (call σ' text labels).

Section Determinism.
Variable U : Unicode.
Context {S : Type}.
Implicit Types (self : DocumentAnalyzer S) (text : pystr) (σ : S).

Lemma ai_analysis_fixed self σ σ' text :
  (forall call, ai_pipeline self = Some call -> fixed_pipeline call) ->
  fst (_ai_analysis self σ text) = fst (_ai_analysis self σ' text).
Proof.
  intros Hfix. unfold _ai_analysis.
  destruct (ai_pipeline self) as [call |]; [| done].
  specialize (Hfix call eq_refl (σ) (σ') (take 500 text) (fst <$> categories self)).
  destruct (call σ _ _) as [[r |] σ1], (call σ' _ _) as [[r' |] σ1'];
    simpl in *; congruence.
Qed.

(** The categories the pipeline contributes to one call. *)
Definition ai_categories_of self σ text : list pystr :=
  if (initialized self && (100 <? length text))%bool then
    fst (_ai_analysis self σ text)
  else [].

Lemma analyze_content_result self σ σ' text :
  ai_categories_of self σ text = ai_categories_of self σ' text ->
  fst (analyze_content U self σ text) = fst (analyze_content U self σ' text).
Proof.
  unfold ai_categories_of, analyze_content.
  destruct (bool_decide (text = []) || (length (strip U text) <? 20))%bool; [done |].
  destruct (initialized self && (100 <? length text))%bool.
  - destruct (_ai_analysis self σ text) as [a σ1],
             (_ai_analysis self σ' text) as [a' σ1']. simpl.
    intros ->.
    destruct (_keyword_analysis U self text ++ a'); [done |].
    destruct (most_common 1 _) as [| [m n] ?]; done.
  - intros _.
    destruct (_keyword_analysis U self text ++ []); [done |].
    destruct (most_common 1 _) as [| [m n] ?]; done.
Qed.

End Determinism.

(** C8: with the category table and the stop words of the analyzer
    unchanged, and the pipeline absent or fixed, a second call of
    [analyze_content] on the same text, made in the state the first call
    left, gives the same main category, related categories and summary. *)
Theorem analyze_content_deterministic (U : Unicode) {S} (self : DocumentAnalyzer S)
    (σ : S) (text : pystr) :
  (initialized self = true ->
   forall call, ai_pipeline self = Some call -> fixed_pipeline call) ->
  fst (analyze_content U self (snd (analyze_content U self σ text)) text)
  = fst (analyze_content U self σ text).
Proof.
  intros Hfix. apply analyze_content_result. unfold ai_categories_of.
  destruct (initialized self); [| done]. simpl.
  destruct (100 <? length text); [| done].
  apply ai_analysis_fixed. auto.
Qed.

(** A loaded model that counts its calls and always answers the same
    scores: 0.9 for "Finans" and 0.2 for "Hukuk". *)
Definition counting_pipeline : pipeline nat :=
  fun σ _ _ =>
    (Some [(u "Finans", Py.fdiv (Py.float_of_int 9) (Py.float_of_int 10));
           (u "Hukuk", Py.fdiv (Py.float_of_int 2) (Py.float_of_int 10))],
     Datatypes.S σ).

Definition with_model : DocumentAnalyzer nat := {|
  categories := default_categories;
  turkish_stopwords := default_stopwords;
  ai_pipeline := Some counting_pipeline;
  initialized := true
|}.

Definition invoice_text : pystr :=
  u ("Bu belge fatura ve ödeme bilgilerini içerir. "
     +:+ "Fatura tutarı banka hesabına yatırılacaktır! "
     +:+ "Sözleşme gereği ödeme tarihi ay sonudur.").

(** The theorem on a loaded model: both calls answer "Finans". *)
Lemma analyze_content_deterministic_witness :
  fst (analyze_content latin with_model
         (snd (analyze_content latin with_model 0 invoice_text)) invoice_text)
  = fst (analyze_content latin with_model 0 invoice_text) /\
  fst (fst (fst (analyze_content latin with_model 0 invoice_text))) = u "Finans".
Proof.
  split; [| vm_compute; reflexivity].
  apply (analyze_content_deterministic latin with_model 0 invoice_text).
  intros _ call [= <-] σ σ' text labels. reflexivity.
Defined.

(** A model whose answer depends on its state: "Finans" on even calls,
    "Hukuk" on odd ones. *)
Definition alternating_pipeline : pipeline nat :=
  fun σ _ _ =>
    (Some [(if Nat.even σ then u "Finans" else u "Hukuk",
            Py.fdiv (Py.float_of_int 9) (Py.float_of_int 10))],
     Datatypes.S σ).

Definition with_alternating_model : DocumentAnalyzer nat := {|
  categories := default_categories;
  turkish_stopwords := default_stopwords;
  ai_pipeline := Some alternating_pipeline;
  initialized := true
|}.

(** Without a fixed pipeline the second call can differ: here in the
    related categories. *)
Lemma analyze_content_follows_pipeline :
  fst (analyze_content latin with_alternating_model 0 invoice_text)
  = (u "Finans", [], snd (fst (analyze_content latin with_model 0 invoice_text))) /\
  fst (analyze_content latin with_alternating_model 1 invoice_text)
  = (u "Finans", [u "Hukuk"],
     snd (fst (analyze_content latin with_model 0 invoice_text))).
Proof. vm_compute. split; reflexivity. Qed.

End AnalyzerFacts.

(** ** Image classification: [_detect_objects] and [_determine_ai_category] *)

Module Vision.
Import Str.
Local Open Scope nat_scope.

(** The two settings of the configuration that the detection reads. *)
Record Config := {
  object_threshold : Z;   (* percent *)
  max_objects : nat
}.

Definition default_config : Config :=
  {| object_threshold := 30; max_objects := 3 |}.

Definition object_keywords : list pystr :=
  u <$> [
    "car"; "truck"; "vehicle"; "automobile"; "bus"; "motorcycle"; "bicycle"; "bike";
    "chair"; "table"; "desk"; "furniture"; "sofa"; "couch"; "bed";
    "computer"; "laptop"; "phone"; "smartphone"; "tablet"; "monitor"; "screen";
    "building"; "house"; "home"; "apartment"; "skyscraper"; "office";
    "tree"; "plant"; "flower"; "forest"; "wood"; "nature";
    "mountain"; "hill"; "valley"; "landscape"; "scenery";
    "food"; "fruit"; "vegetable"; "meal"; "dish"; "drink"; "water"; "coffee"; "tea";
    "clothing"; "shirt"; "pants"; "dress"; "shoe"; "jacket"; "hat";
    "sport"; "football"; "soccer"; "basketball"; "tennis"; "golf"; "swimming";
    "music"; "guitar"; "piano"; "violin"; "drum"; "instrument"; "song";
    "book"; "document"; "paper"; "text"; "writing"; "letter";
    "tool"; "hammer"; "screwdriver"; "wrench"; "drill"; "saw";
    "art"; "painting"; "drawing"; "sculpture"; "statue"; "picture"; "photo";
    "person"; "man"; "woman"; "child"; "baby"; "people"; "human";
    "animal"; "dog"; "cat"; "bird"; "fish"; "horse"; "elephant"; "lion";
    "sky"; "cloud"; "sun"; "moon"; "star"; "weather"; "rain";
    "water"; "sea"; "ocean"; "river"; "lake"; "beach"; "wave";
    "city"; "street"; "road"; "highway"; "bridge"; "park"; "garden"
  ]%string.

(** [a in b] for two strings: [a] is a run of [b]. *)
Fixpoint starts_with (a b : pystr) : bool :=
  match a, b with
  | [], _ => true
  | x :: a', y :: b' => (x =? y)%N && starts_with a' b'
  | _ :: _, [] => false
  end.

Fixpoint contains (a b : pystr) : bool :=
  starts_with a b || match b with [] => false | _ :: b' => contains a b' end.

Section Methods.
Variable U : Unicode.

Definition fadd : spec_float -> spec_float -> spec_float := SFadd Py.prec Py.emax.

(** The literals [1.0] and [0.5] *)
Definition lit_1_0 : spec_float := Py.float_of_int 1.
Definition lit_0_5 : spec_float := Py.fdiv (Py.float_of_int 1) (Py.float_of_int 2).

(** The inner loop over the words of one keyword. *)
Definition match_score (caption_words keyword_words : list pystr) : spec_float :=
  foldl (fun match_score kw_word =>
           if 3 <? length kw_word then
             if bool_decide (kw_word ∈ caption_words) then fadd match_score lit_1_0
             else if existsb (contains kw_word)
                       (filter (fun word => 3 < length word) caption_words)
                  then fadd match_score lit_0_5
             else match_score
           else match_score)
        (Py.float_of_int 0) keyword_words.

Definition _detect_objects (config : Config) (caption : pystr) : list pystr :=
  let threshold :=
    Py.fdiv (Py.float_of_int (object_threshold config)) (Py.float_of_int 100) in
  let caption_lower := lower U caption in
  let caption_words := split U caption_lower in
  let objects :=
    foldl (fun objects keyword =>
             let keyword_words := split U keyword in
             match keyword_words with
             | [] => objects
             | _ =>
                 let match_ratio :=
                   Py.fdiv (match_score caption_words keyword_words)
                           (Py.float_of_int (Z.of_nat (length keyword_words))) in
                 if SFleb threshold match_ratio then objects ++ [keyword]
                 else objects
             end)
          [] object_keywords in
  take (max_objects config) objects.

Definition _determine_ai_category (objects : list pystr) (caption : pystr) : pystr :=
  match objects with
  | [] =>
      let words := filter (fun word => 3 < length word) (split U caption) in
      match words with
      | [] => u "Genel"
      | _ => take 20 (capitalize U (join (u "_") (take 2 words)))
      end
  | [object] => capitalize U object
  | first :: second :: _ => capitalize U (first ++ u "_" ++ second)
  end.

(** The captioning model, an external collaborator: the generated text of
    an image, or [None] when the call raises. *)
Definition captioner : Type := pystr -> option pystr.

Definition _ai_analyze (config : Config) (ai_pipeline : option captioner)
    (filepath : pystr) : pystr * list pystr :=
  match ai_pipeline with
  | Some call =>
      match call filepath with
      | Some generated_text =>
          let caption := lower U generated_text in
          let detected_objects := _detect_objects config caption in
          (_determine_ai_category detected_objects caption, detected_objects)
      | None => (u "Bilinmeyen", [])
      end
  | None => (u "Bilinmeyen", [])
  end.

End Methods.

(** The two longest words of a caption, the longer first (the spec's
    words for the fallback). *)
Fixpoint insert_by_length (w : pystr) (l : list pystr) : list pystr :=
  match l with
  | [] => [w]
  | v :: l' => if length v <? length w then w :: v :: l' else v :: insert_by_length w l'
  end.

Definition two_longest_words (U : Unicode) (caption : pystr) : list pystr :=
  take 2 (foldl (fun acc w => insert_by_length w acc) [] (split U caption)).

End Vision.

(** ** Properties of the image category *)

Module VisionFacts.
Import Str Vision.
Local Open Scope nat_scope.

(** The first element a filter keeps, and what stands before it. *)
Lemma filter_head {A} (P : A -> Prop) `{forall x, Decision (P x)} (l : list A) x r :
  filter P l = x :: r ->
  exists pre post, l = pre ++ x :: post /\ Forall (fun y => ~ P y) pre /\
                   P x /\ filter P post = r.
Proof.
  induction l as [| a l IH]; [done |].
  rewrite filter_cons. destruct (decide (P a)) as [Ha | Ha].
  - intros [= -> <-]. exists [], l. repeat split; [constructor | done].
  - intros E. destruct (IH E) as (pre & post & -> & Hpre & Hx & Hpost).
    exists (a :: pre), post. repeat split; [by constructor | done | done].
Qed.

Lemma filter_nil_Forall {A} (P : A -> Prop) `{forall x, Decision (P x)} (l : list A) :
  filter P l = [] -> Forall (fun y => ~ P y) l.
Proof.
  induction l as [| a l IH]; [constructor |].
  rewrite filter_cons. destruct (decide (P a)); [done |].
  intros E. constructor; auto.
Qed.

Definition blurry_some : pystr := u "some blurry thing somewhere".
Definition blurry_that : pystr := u "that blurry thing somewhere".

(** C9, as stated, fails: two captions in which no object is detected and
    whose two longest words are the same ("somewhere" and "blurry") are
    given different categories, and neither category holds the longest
    word. *)
Lemma fallback_not_from_longest_words :
  _detect_objects latin default_config blurry_some = [] /\
  _detect_objects latin default_config blurry_that = [] /\
  two_longest_words latin blurry_some = [u "somewhere"; u "blurry"] /\
  two_longest_words latin blurry_that = [u "somewhere"; u "blurry"] /\
  _determine_ai_category latin [] blurry_some = u "Some_blurry" /\
  _determine_ai_category latin [] blurry_that = u "That_blurry" /\
  _determine_ai_category latin [] blurry_some
  <> _determine_ai_category latin [] blurry_that.
Proof. vm_compute. repeat split; try reflexivity. discriminate. Qed.

(** C9 (amended): when no object is detected, the category is made of the
    first two words of the caption that are longer than three characters,
    in the order of the caption: joined by an underscore, capitalized and
    cut to 20 characters (of the only such word when there is one, and
    "Genel" when there is none); when objects are detected it is the first
    object capitalized, or the first two joined by an underscore and
    capitalized. *)
Theorem ai_category_composition (U : Unicode) (config : Config) (caption : pystr) :
  let objects := _detect_objects U config caption in
  let category := _determine_ai_category U objects caption in
  let long := fun w : pystr => 3 < length w in
  (objects = [] ->
     (Forall (fun w => ~ long w) (split U caption) /\ category = u "Genel")
     \/ (exists pre w post,
           split U caption = pre ++ w :: post /\
           Forall (fun v => ~ long v) pre /\ long w /\
           Forall (fun v => ~ long v) post /\
           category = take 20 (capitalize U w))
     \/ (exists pre w1 mid w2 post,
           split U caption = pre ++ w1 :: mid ++ w2 :: post /\
           Forall (fun v => ~ long v) pre /\ long w1 /\
           Forall (fun v => ~ long v) mid /\ long w2 /\
           category = take 20 (capitalize U (w1 ++ u "_" ++ w2)))) /\
  (forall o, objects = [o] -> category = capitalize U o) /\
  (forall o1 o2 rest, objects = o1 :: o2 :: rest ->
     category = capitalize U (o1 ++ u "_" ++ o2)).
Proof.
  intros objects category long. subst category. repeat split.
  - intros ->.
    change (_determine_ai_category U [] caption)
      with (match filter long (split U caption) with
            | [] => u "Genel"
            | _ => take 20 (capitalize U (join (u "_")
                                           (take 2 (filter long (split U caption)))))
            end).
    destruct (filter long (split U caption)) as [| w1 [| w2 r]] eqn:E.
    + left. split; [| done]. by apply (filter_nil_Forall long).
    + right. left.
      destruct (filter_head long _ _ _ E) as (pre & post & Hs & Hpre & Hw & Hpost).
      exists pre, w1, post. repeat split; try done.
      by apply (filter_nil_Forall long).
    + right. right.
      destruct (filter_head long _ _ _ E) as (pre & post & Hs & Hpre & Hw & Hpost).
      destruct (filter_head long _ _ _ Hpost) as (mid & post' & -> & Hmid & Hw2 & _).
      exists pre, w1, mid, w2, post'. repeat split; done.
  - intros o ->. reflexivity.
  - intros o1 o2 rest ->. reflexivity.
Qed.

End VisionFacts.

(** ** Paths and the file system *)

Module Fs.
Import Str.
Local Open Scope nat_scope.

(** *** [os.path] (the POSIX flavour) *)

Definition sep : N := 47.      (* '/' *)
Definition extsep : N := 46.   (* '.' *)

(** The part before and the part after the last [c0] of [p]. *)
Fixpoint rsplit (c0 : N) (p : pystr) : option (pystr * pystr) :=
  match p with
  | [] => None
  | c :: p' =>
      match rsplit c0 p' with
      | Some (a, b) => Some (c :: a, b)
      | None => if (c =? c0)%N then Some ([], p') else None
      end
  end.

Definition basename (p : pystr) : pystr :=
  match rsplit sep p with
  | Some (_, tail) => tail
  | None => p
  end.

Fixpoint lstrip_sep (p : pystr) : pystr :=
  match p with
  | c :: p' => if (c =? sep)%N then lstrip_sep p' else p
  | [] => []
  end.

Definition rstrip_sep (p : pystr) : pystr := rev (lstrip_sep (rev p)).

Definition all_sep (p : pystr) : bool := forallb (N.eqb sep) p.

Definition dirname (p : pystr) : pystr :=
  match rsplit sep p with
  | Some (a, _) =>
      let head := a ++ [sep] in
      if all_sep head then head else rstrip_sep head
  | None => []
  end.

(** [os.path.splitext]: the extension starts at the last dot of the last
    component, unless only dots stand before it there. *)
Definition splitext (p : pystr) : pystr * pystr :=
  match rsplit extsep p with
  | Some (root, after) =>
      if existsb (N.eqb sep) after then (p, [])
      else if forallb (N.eqb extsep) (basename root) then (p, [])
      else (root, extsep :: after)
  | None => (p, [])
  end.

Definition ends_with_sep (p : pystr) : bool :=
  match last p with
  | Some c => (c =? sep)%N
  | None => false
  end.

(** [os.path.join(a, b)] *)
Definition join (a b : pystr) : pystr :=
  match b with
  | c :: _ =>
      if (c =? sep)%N then b
      else if bool_decide (a = []) || ends_with_sep a then a ++ b
      else a ++ [sep] ++ b
  | [] => if bool_decide (a = []) || ends_with_sep a then a else a ++ [sep]
  end.

(** *** Files and folders *)

(** One move of a run, as it is logged. *)
Record LogEntry := {
  old_path : pystr;
  new_path : pystr;
  category : pystr;
  objects : list pystr;
  timestamp : nat
}.

(** One run of the history file. *)
Record RunRecord := {
  run_timestamp : nat;
  ai_mode : bool;
  document_ai_mode : bool;
  requested_threads : Z;
  actual_threads : Z;
  optimization_enabled : bool;
  run_total_files : nat;
  run_processed_files : nat;
  run_document_categories : list (pystr * nat);
  run_processing_time : nat;
  movements : list LogEntry
}.

(** An element of a history list: a run record (a JSON object, read with
    [get]), or any other JSON value. *)
Inductive Run :=
  | Record_ (r : RunRecord)
  | Other (text : pystr).

(** What a file holds: the text of a JSON list, or anything else. (The
    byte length of a serialized list is not modelled.) *)
Inductive content :=
  | Raw (data : pystr)
  | History (runs : list Run).

(** The file name of the history, [log_file]. *)
Definition log_file : pystr := u ".dosya_sirala_duzenle_gecmis.json".

Inductive node :=
  | File (c : content)
  | Folder.

(** The paths that exist, each a regular file or a folder. *)
Abbreviation FS := (gmap pystr node).

Implicit Types (fs : FS) (p src dst : pystr).

(** An exception, by its message. *)
Definition exn := pystr.

Definition is_folder fs p : bool :=
  match fs !! p with
  | Some Folder => true
  | _ => false
  end.

Definition is_root (p : pystr) : bool :=
  match p with
  | [] => false
  | _ => all_sep p
  end.

(** [os.path.isdir]; the root always is a folder. *)
Definition isdir fs p : bool := is_root p || is_folder fs p.

(** [os.path.exists] *)
Definition path_exists fs p : bool :=
  is_root p || bool_decide (is_Some (fs !! p)).

(** The folder that [p] would be created in is there (the working
    directory when [p] names none). *)
Definition parent_exists fs p : bool :=
  match dirname p with
  | [] => true
  | d => isdir fs d
  end.

Definition getsize (c : content) : nat :=
  match c with
  | Raw data => length data
  | History _ => 0
  end.

(** The prefixes of [p] that name it and its ancestors, shortest first. *)
Fixpoint ancestors_from (seen : pystr) (p : pystr) : list pystr :=
  match p with
  | [] => if ends_with_sep seen || bool_decide (seen = []) then [] else [seen]
  | c :: p' =>
      (if (c =? sep)%N && negb (ends_with_sep seen) && negb (bool_decide (seen = []))
       then [seen] else [])
      ++ ancestors_from (seen ++ [c]) p'
  end.

(** [os.makedirs(p, exist_ok=True)] *)
Definition makedirs fs p : exn + FS :=
  match p with
  | [] => inl (u "[Errno 2] No such file or directory: ''")
  | _ =>
      foldl (fun acc q =>
               match acc with
               | inl e => inl e
               | inr fs' =>
                   match fs' !! q with
                   | Some (File _) =>
                       inl (u "[Errno 17] File exists: '" ++ q ++ u "'")
                   | Some Folder => inr fs'
                   | None => inr (<[q := Folder]> fs')
                   end
               end)
            (inr fs) (ancestors_from [] p)
  end.

(** Moving a folder takes what is under it too. *)
Definition rekey (src dst : pystr) (k : pystr) : pystr :=
  if bool_decide (k = src) || Vision.starts_with (src ++ [sep]) k
  then dst ++ drop (length src) k
  else k.

Definition rename_tree fs src dst : FS :=
  list_to_map ((fun kv => (rekey src dst (fst kv), snd kv)) <$> map_to_list fs).

(** [shutil.move(src, dst)]: into [dst] when it is a folder; a file at the
    destination is replaced. *)
Definition move fs src dst : exn + FS :=
  match fs !! src with
  | None => inl (u "[Errno 2] No such file or directory: '" ++ src ++ u "'")
  | Some n =>
      let real_dst :=
        if isdir fs dst then join dst (basename (rstrip_sep src)) else dst in
      if isdir fs dst && path_exists fs real_dst then
        inl (u "Destination path '" ++ real_dst ++ u "' already exists")
      else if negb (parent_exists fs real_dst) then
        inl (u "[Errno 2] No such file or directory: '" ++ real_dst ++ u "'")
      else
        match n with
        | File c => inr (<[real_dst := File c]> (delete src fs))
        | Folder =>
            if path_exists fs real_dst then
              inl (u "[Errno 17] File exists: '" ++ real_dst ++ u "'")
            else inr (rename_tree fs src real_dst)
        end
  end.

(** [open(p, 'w')] and a write of [c] *)
Definition write_file fs p (c : content) : exn + FS :=
  if is_folder fs p then
    inl (u "[Errno 21] Is a directory: '" ++ p ++ u "'")
  else if negb (parent_exists fs p) then
    inl (u "[Errno 2] No such file or directory: '" ++ p ++ u "'")
  else inr (<[p := File c]> fs).

(** [json.load(open(p))] for a history: a list, or an exception. *)
Definition load_history fs p : exn + list Run :=
  match fs !! p with
  | Some (File (History runs)) => inr runs
  | Some (File (Raw _)) => inl (u "not a JSON list")
  | Some Folder => inl (u "[Errno 21] Is a directory: '" ++ p ++ u "'")
  | None =>
      if is_root p then inl (u "[Errno 21] Is a directory: '" ++ p ++ u "'")
      else inl (u "[Errno 2] No such file or directory: '" ++ p ++ u "'")
  end.

(** [os.remove(p)] *)
Definition remove fs p : exn + FS :=
  match fs !! p with
  | Some (File _) => inr (delete p fs)
  | Some Folder => inl (u "[Errno 21] Is a directory: '" ++ p ++ u "'")
  | None => inl (u "[Errno 2] No such file or directory: '" ++ p ++ u "'")
  end.

End Fs.

(** ** The worker: [OrganizerWorker] *)

Module Worker.
Import Str Fs.
Local Open Scope nat_scope.

(** *** The move engine: [_move_file] *)

(** The name tried at [counter]: [f"{name}_{counter}{ext}"] in the target
    folder. *)
Definition candidate (target_dir name ext : pystr) (counter : nat) : pystr :=
  join target_dir (name ++ u "_" ++ str_of_nat counter ++ ext).

(** The [while] loop, run for [fuel] rounds at most ([None]: the fuel ran
    out while every name tried existed). *)
Fixpoint free_name (fs : FS) (target_dir name ext : pystr)
    (fuel counter : nat) (new_path : pystr) {struct fuel} : option pystr :=
  if path_exists fs new_path then
    match fuel with
    | 0 => None
    | S fuel' =>
        free_name fs target_dir name ext fuel' (S counter)
                  (candidate target_dir name ext counter)
    end
  else Some new_path.

(** [_move_file]: the destination and the file system after the move, or
    the exception it raises. More rounds than the file system has paths
    are never needed (see [move_file_terminates]). *)
Definition _move_file (fs : FS) (old_path target_dir filename : pystr)
  : option (exn + pystr * FS) :=
  let new_path := join target_dir filename in
  let counter := 1 in
  let '(name, ext) := splitext filename in
  match free_name fs target_dir name ext (S (size fs)) counter new_path with
  | None => None
  | Some new_path =>
      Some match move fs old_path new_path with
           | inr fs' => inr (new_path, fs')
           | inl e => inl (u "Taşıma hatası: " ++ e)
           end
  end.

(** *** Configuration and shared state *)

Record Worker := {
  kategoriler : list (pystr * list pystr);    (* config["kategoriler"] *)
  vision_config : Vision.Config;
  ai_modu : bool;
  document_ai_modu : bool;
  source_folder : pystr;
  thread_count : Z;
  enable_optimization : bool;
  ai_pipeline : option Vision.captioner;
  document_analyzer : option (Analyzer.DocumentAnalyzer unit);
  (* the extraction gateway: the text of the file at a path *)
  extract_text : FS -> pystr -> pystr
}.

Record Stats := {
  total_files : nat;
  processed_files : nat;
  skipped_files : nat;
  total_size : nat;
  category_distribution : list (pystr * nat);
  detected_objects : list (pystr * nat);
  document_categories : list (pystr * nat);
  errors : list pystr;
  thread_count_used : option Z;
  processing_time : option nat
}.

(** The signals sent to the window. *)
Inductive Signal :=
  | progress (percent : Z)
  | status (message : pystr)
  | file_processed (filename category : pystr)
  | ai_analysis_result (filename category : pystr) (objects : list pystr)
  | document_analyzed (filename category summary : pystr)
  | error (message : pystr)
  | stats_update
  | finished (ok : bool).

(** The fields shared by the workers of one run. *)
Inductive Field :=
  | f_processed_counter | f_processed_files | f_skipped_files | f_total_size
  | f_category_distribution | f_detected_objects | f_document_categories
  | f_errors | f_log_entries.

(** What a worker does that the others can see, in order. *)
Inductive Event :=
  | acquire
  | release
  | write (field : Field)
  | emit (signal : Signal).

Record World := {
  fs : FS;
  stats : Stats;
  log_entries : list LogEntry;
  processed_counter : nat;
  clock : nat;            (* datetime.now() *)
  trace : list Event
}.

Definition initial_stats : Stats := {|
  total_files := 0; processed_files := 0; skipped_files := 0; total_size := 0;
  category_distribution := []; detected_objects := [];
  document_categories := []; errors := [];
  thread_count_used := None; processing_time := None
|}.

(** The state [setup] leaves, over a file system. *)
Definition initial_world (fs0 : FS) : World := {|
  fs := fs0; stats := initial_stats; log_entries := [];
  processed_counter := 0; clock := 0; trace := []
|}.

Definition set_fs (f : FS) (w : World) : World :=
  {| fs := f; stats := stats w; log_entries := log_entries w;
     processed_counter := processed_counter w; clock := clock w;
     trace := trace w |}.

Definition set_stats (f : Stats -> Stats) (w : World) : World :=
  {| fs := fs w; stats := f (stats w); log_entries := log_entries w;
     processed_counter := processed_counter w; clock := clock w;
     trace := trace w |}.

Definition set_log_entries (l : list LogEntry) (w : World) : World :=
  {| fs := fs w; stats := stats w; log_entries := l;
     processed_counter := processed_counter w; clock := clock w;
     trace := trace w |}.

Definition set_processed_counter (n : nat) (w : World) : World :=
  {| fs := fs w; stats := stats w; log_entries := log_entries w;
     processed_counter := n; clock := clock w; trace := trace w |}.

Definition tick (w : World) : World :=
  {| fs := fs w; stats := stats w; log_entries := log_entries w;
     processed_counter := processed_counter w; clock := S (clock w);
     trace := trace w |}.

Definition record (e : Event) (w : World) : World :=
  {| fs := fs w; stats := stats w; log_entries := log_entries w;
     processed_counter := processed_counter w; clock := clock w;
     trace := trace w ++ [e] |}.

Definition with_processed_files (n : nat) (s : Stats) : Stats :=
  {| total_files := total_files s; processed_files := n;
     skipped_files := skipped_files s; total_size := total_size s;
     category_distribution := category_distribution s;
     detected_objects := detected_objects s;
     document_categories := document_categories s; errors := errors s;
     thread_count_used := thread_count_used s;
     processing_time := processing_time s |}.

Definition with_skipped_files (n : nat) (s : Stats) : Stats :=
  {| total_files := total_files s; processed_files := processed_files s;
     skipped_files := n; total_size := total_size s;
     category_distribution := category_distribution s;
     detected_objects := detected_objects s;
     document_categories := document_categories s; errors := errors s;
     thread_count_used := thread_count_used s;
     processing_time := processing_time s |}.

Definition with_total_size (n : nat) (s : Stats) : Stats :=
  {| total_files := total_files s; processed_files := processed_files s;
     skipped_files := skipped_files s; total_size := n;
     category_distribution := category_distribution s;
     detected_objects := detected_objects s;
     document_categories := document_categories s; errors := errors s;
     thread_count_used := thread_count_used s;
     processing_time := processing_time s |}.

Definition with_category_distribution (d : list (pystr * nat)) (s : Stats) : Stats :=
  {| total_files := total_files s; processed_files := processed_files s;
     skipped_files := skipped_files s; total_size := total_size s;
     category_distribution := d;
     detected_objects := detected_objects s;
     document_categories := document_categories s; errors := errors s;
     thread_count_used := thread_count_used s;
     processing_time := processing_time s |}.

Definition with_detected_objects (d : list (pystr * nat)) (s : Stats) : Stats :=
  {| total_files := total_files s; processed_files := processed_files s;
     skipped_files := skipped_files s; total_size := total_size s;
     category_distribution := category_distribution s;
     detected_objects := d;
     document_categories := document_categories s; errors := errors s;
     thread_count_used := thread_count_used s;
     processing_time := processing_time s |}.

Definition with_document_categories (d : list (pystr * nat)) (s : Stats) : Stats :=
  {| total_files := total_files s; processed_files := processed_files s;
     skipped_files := skipped_files s; total_size := total_size s;
     category_distribution := category_distribution s;
     detected_objects := detected_objects s;
     document_categories := d; errors := errors s;
     thread_count_used := thread_count_used s;
     processing_time := processing_time s |}.

Definition with_errors (l : list pystr) (s : Stats) : Stats :=
  {| total_files := total_files s; processed_files := processed_files s;
     skipped_files := skipped_files s; total_size := total_size s;
     category_distribution := category_distribution s;
     detected_objects := detected_objects s;
     document_categories := document_categories s; errors := l;
     thread_count_used := thread_count_used s;
     processing_time := processing_time s |}.

Definition with_total_files (n : nat) (s : Stats) : Stats :=
  {| total_files := n; processed_files := processed_files s;
     skipped_files := skipped_files s; total_size := total_size s;
     category_distribution := category_distribution s;
     detected_objects := detected_objects s;
     document_categories := document_categories s; errors := errors s;
     thread_count_used := thread_count_used s;
     processing_time := processing_time s |}.

(** *** Computations that may raise *)

Inductive outcome (A : Type) :=
  | Returned (a : A)
  | Raised (e : exn)
  | OutOfFuel.            (* a loop of the model ran out of rounds *)
Arguments Returned {A}.
Arguments Raised {A}.
Arguments OutOfFuel {A}.

Definition M (A : Type) : Type := World -> World * outcome A.

Definition ret {A} (a : A) : M A := fun w => (w, Returned a).

Definition raise {A} (e : exn) : M A := fun w => (w, Raised e).

Definition bind {A B} (m : M A) (k : A -> M B) : M B :=
  fun w =>
    match m w with
    | (w', Returned a) => k a w'
    | (w', Raised e) => (w', Raised e)
    | (w', OutOfFuel) => (w', OutOfFuel)
    end.

(** [try: m except Exception as e: handler(e)] *)
Definition try_except {A} (m : M A) (handler : exn -> M A) : M A :=
  fun w =>
    match m w with
    | (w', Raised e) => handler e w'
    | r => r
    end.

Definition get : M World := fun w => (w, Returned w).

Definition update (f : World -> World) : M unit := fun w => (f w, Returned tt).

(** A write to a shared field. *)
Definition assign (field : Field) (f : World -> World) : M unit :=
  update (fun w => f (record (write field) w)).

Definition send (s : Signal) : M unit := update (record (emit s)).

(** [with self.lock: m]; the lock is released when [m] raises too. *)
Definition with_lock {A} (m : M A) : M A :=
  fun w =>
    let '(w', r) := m (record acquire w) in
    (record release w', r).

(** A file system call, lifted. *)
Definition fs_call (f : FS -> exn + FS) : M unit :=
  fun w =>
    match f (fs w) with
    | inr fs' => (set_fs fs' w, Returned tt)
    | inl e => (w, Raised e)
    end.

(** [os.path.getsize(p)] *)
Definition os_getsize (p : pystr) : M nat :=
  fun w =>
    match fs w !! p with
    | Some (File c) => (w, Returned (getsize c))
    | Some Folder => (w, Returned 0)
    | None =>
        (w, Raised (u "[Errno 2] No such file or directory: '" ++ p ++ u "'"))
    end.

(** [datetime.now()] *)
Definition now : M nat := fun w => (tick w, Returned (clock w)).

Definition move_file (old_path target_dir filename : pystr) : M pystr :=
  fun w =>
    match _move_file (fs w) old_path target_dir filename with
    | None => (w, OutOfFuel)
    | Some (inl e) => (w, Raised e)
    | Some (inr (new_path, fs')) => (set_fs fs' w, Returned new_path)
    end.

(** [d[k] = d.get(k, 0) + 1] *)
Definition incr (k : pystr) (d : list (pystr * nat)) : list (pystr * nat) :=
  counter_incr k d.

(** The table [kategoriler] of the default configuration. *)
Definition default_kategoriler : list (pystr * list pystr) :=
  [ (u "Görseller",
     u <$> [".jpg"; ".jpeg"; ".png"; ".gif"; ".bmp"; ".svg"; ".webp"; ".tiff"; ".ico"]);
    (u "Belgeler",
     u <$> [".pdf"; ".docx"; ".doc"; ".txt"; ".rtf"; ".odt"; ".md"; ".tex"]);
    (u "Ofis_Dosyaları",
     u <$> [".xlsx"; ".xls"; ".pptx"; ".ppt"; ".csv"; ".ods"; ".odp"]);
    (u "Videolar",
     u <$> [".mp4"; ".mkv"; ".mov"; ".avi"; ".wmv"; ".flv"; ".webm"; ".m4v"; ".3gp"]);
    (u "Müzik",
     u <$> [".mp3"; ".wav"; ".flac"; ".m4a"; ".aac"; ".ogg"; ".wma"; ".midi"]);
    (u "Arşivler",
     u <$> [".zip"; ".rar"; ".7z"; ".tar"; ".gz"; ".bz2"; ".xz"; ".iso"]);
    (u "Uygulamalar",
     u <$> [".exe"; ".msi"; ".dmg"; ".apk"; ".deb"; ".rpm"; ".appimage"]);
    (u "Yazılım_Kod",
     u <$> [".py"; ".html"; ".css"; ".js"; ".cpp"; ".c"; ".java"; ".php"; ".rb";
            ".go"; ".rs"; ".swift"]);
    (u "Veritabanı", u <$> [".db"; ".sql"; ".sqlite"; ".mdb"; ".accdb"]);
    (u "E-Kitaplar", u <$> [".epub"; ".mobi"; ".azw"; ".azw3"]);
    (u "Fontlar", u <$> [".ttf"; ".otf"; ".woff"; ".woff2"]);
    (u "3D_Modeller", u <$> [".stl"; ".obj"; ".fbx"; ".blend"; ".3ds"; ".dae"]);
    (u "CAD_Dosyaları", u <$> [".dwg"; ".dxf"; ".skp"]);
    (u "Tasarım", u <$> [".psd"; ".ai"; ".indd"; ".xd"; ".fig"; ".sketch"]);
    (u "Sistem", u <$> [".dll"; ".sys"; ".ini"; ".cfg"; ".bat"; ".sh"; ".reg"])
  ]%string.

Definition image_extensions : list pystr :=
  u <$> [".jpg"; ".jpeg"; ".png"; ".webp"; ".bmp"]%string.

Definition document_extensions : list pystr :=
  u <$> [".pdf"; ".docx"; ".pptx"; ".xlsx"; ".xls"; ".txt"; ".md"]%string.

Section Methods.
Variable U : Unicode.
Implicit Types (self : Worker) (w : World).

(** *** Classification of one file *)

Definition _determine_category self (filepath : pystr)
  : pystr * pystr * list pystr :=
  let filename := basename filepath in
  let ext := lower U (snd (splitext filename)) in
  match find (fun e => bool_decide (ext ∈ snd e)) (kategoriler self) with
  | Some (category, _) =>
      if ai_modu self && bool_decide (ext ∈ image_extensions) then
        let '(ai_category, detected_objects) :=
          Vision._ai_analyze U (vision_config self) (ai_pipeline self) filepath in
        (category, ai_category, detected_objects)
      else (category, [], [])
  | None =>
      if ai_modu self && bool_decide (is_Some (ai_pipeline self))
         && bool_decide (ext ∈ image_extensions) then
        let '(ai_category, detected_objects) :=
          Vision._ai_analyze U (vision_config self) (ai_pipeline self) filepath in
        (u "AI_Sınıflandırma", ai_category, detected_objects)
      else (u "Diğerleri", [], [])
  end.

(** The window is told of the analysis (the metadata it is shown are not
    part of the state). *)
Definition _determine_document_category self (filepath : pystr)
  : M (pystr * pystr * list pystr) :=
  match document_analyzer self with
  | None => ret (u "Belgeler", [], [])
  | Some analyzer =>
      fun w =>
        let text := extract_text self (fs w) filepath in
        match text with
        | [] => (w, Returned (u "Belgeler", [], []))
        | _ =>
            let '(category, related_categories, summary) :=
              fst (Analyzer.analyze_content U analyzer tt text) in
            let w' :=
              record (emit (document_analyzed (basename filepath) category summary))
                     w in
            let subcategory :=
              match related_categories with
              | [] => []
              | _ => Str.join (u "_") (take 2 related_categories)
              end in
            (w', Returned (category, subcategory, []))
        end
  end.

(** *** One chunk: [_process_file_chunk] *)

(** [int((processed_counter / total_files) * 100)] *)
Definition progress_of (processed_counter total_files : nat) : M Z :=
  if total_files =? 0 then raise (u "division by zero")
  else
    match Py.int_of_float
            (Py.fmul (Py.fdiv (Py.float_of_int (Z.of_nat processed_counter))
                              (Py.float_of_int (Z.of_nat total_files)))
                     (Py.float_of_int 100)) with
    | Some percent => ret percent
    | None => raise (u "cannot convert float to integer")
    end.

Notation "x <- m ;; k" := (bind m (fun x => k))
  (at level 100, m at next level, right associativity).
Notation "m ;;; k" := (bind m (fun _ => k))
  (at level 100, right associativity).

(** [for obj in detected_objects: ...] *)
Fixpoint count_objects (objects : list pystr) : M unit :=
  match objects with
  | [] => ret tt
  | obj :: rest =>
      assign f_detected_objects
        (set_stats (fun s => with_detected_objects
                               (incr obj (detected_objects s)) s)) ;;;
      count_objects rest
  end.

(** The body of the [try] for one file. *)
Definition process_file self (total_files : nat) (filepath : pystr) : M unit :=
  let filename := basename filepath in
  let ext := lower U (snd (splitext filename)) in
  with_lock (
    w <- get ;;
    assign f_processed_counter (set_processed_counter (processed_counter w + 1)) ;;;
    w <- get ;;
    percent <- progress_of (processed_counter w) total_files ;;
    send (progress percent) ;;;
    if processed_counter w mod 10 =? 0 then
      send (status (u "İşleniyor: " ++ str_of_nat (processed_counter w) ++ u "/"
                    ++ str_of_nat total_files ++ u " dosya"))
    else ret tt) ;;;
  classified <-
    (if document_ai_modu self && bool_decide (ext ∈ document_extensions) then
       r <- _determine_document_category self filepath ;;
       let '(category, subcategory, detected) := r in
       match category with
       | [] => ret (u "Diğer_Belgeler", subcategory, detected)
       | _ =>
           with_lock (
             assign f_document_categories
               (set_stats (fun s => with_document_categories
                                      (incr category (document_categories s)) s))) ;;;
           ret (category, subcategory, detected)
       end
     else ret (_determine_category self filepath)) ;;
  let '(target_category, subcategory, detected) := classified in
  let target_dir :=
    match subcategory with
    | [] => join (source_folder self) target_category
    | _ => join (join (source_folder self) target_category) subcategory
    end in
  fs_call (fun fs => makedirs fs target_dir) ;;;
  new_path <- move_file filepath target_dir filename ;;
  match new_path with
  | [] => ret tt
  | _ =>
      let full_category :=
        match subcategory with
        | [] => target_category
        | _ => target_category ++ u "/" ++ subcategory
        end in
      with_lock (
        assign f_processed_files
          (set_stats (fun s => with_processed_files (processed_files s + 1) s)) ;;;
        file_size <- os_getsize new_path ;;
        assign f_total_size
          (set_stats (fun s => with_total_size (total_size s + file_size) s)) ;;;
        assign f_category_distribution
          (set_stats (fun s => with_category_distribution
                                 (incr full_category (category_distribution s)) s)) ;;;
        count_objects detected ;;;
        timestamp <- now ;;
        w <- get ;;
        assign f_log_entries
          (set_log_entries
             (log_entries w ++ [ {| old_path := filepath;
                                    new_path := new_path;
                                    category := full_category;
                                    objects := detected;
                                    timestamp := timestamp |} ]))) ;;;
      send (file_processed filename full_category) ;;;
      match detected with
      | [] => ret tt
      | _ => send (ai_analysis_result filename full_category detected)
      end
  end.

(** The [except] clause of the loop. *)
Definition record_error (filename : pystr) (e : exn) : M unit :=
  let error_msg := filename ++ u ": " ++ e in
  with_lock (
    assign f_errors (set_stats (fun s => with_errors (errors s ++ [error_msg]) s)) ;;;
    assign f_skipped_files
      (set_stats (fun s => with_skipped_files (skipped_files s + 1) s))).

(** One round of the loop. *)
Definition process_file_guarded self (total_files : nat) (filepath : pystr)
  : M unit :=
  try_except (process_file self total_files filepath)
             (record_error (basename filepath)).

Fixpoint _process_file_chunk self (file_chunk : list pystr)
    (total_files start_index : nat) : M unit :=
  match file_chunk with
  | [] => ret tt
  | filepath :: rest =>
      process_file_guarded self total_files filepath ;;;
      _process_file_chunk self rest total_files start_index
  end.

(** *** The history: [_save_log] *)

(** The record of the run that [_save_log] appends. *)
Definition new_log_entry self w : RunRecord := {|
  run_timestamp := clock w;
  ai_mode := ai_modu self;
  document_ai_mode := document_ai_modu self;
  requested_threads := thread_count self;
  actual_threads := default 1%Z (thread_count_used (stats w));
  optimization_enabled := enable_optimization self;
  run_total_files := total_files (stats w);
  run_processed_files := processed_files (stats w);
  run_document_categories := document_categories (stats w);
  run_processing_time := default 0 (processing_time (stats w));
  movements := log_entries w
|}.

Definition _save_log self w : World :=
  match log_entries w with
  | [] => w
  | _ =>
      let log_path := join (source_folder self) log_file in
      let loaded :=
        if path_exists (fs w) log_path then load_history (fs w) log_path
        else inr [] in
      match loaded with
      | inl _ => w
      | inr existing_logs =>
          let new_log_entry := new_log_entry self w in
          let w := tick w in
          let existing_logs := existing_logs ++ [Record_ new_log_entry] in
          let existing_logs :=
            if 5 <? length existing_logs
            then drop (length existing_logs - 5) existing_logs
            else existing_logs in
          match write_file (fs w) log_path (History existing_logs) with
          | inr fs' => set_fs fs' w
          | inl _ => w
          end
      end
  end.

(** *** One run *)

(** The futures, one after the other, each with the [try] around its
    result. *)
Fixpoint run_chunks self (chunks : list (Scheduler.Submitted pystr)) : M unit :=
  match chunks with
  | [] => ret tt
  | c :: rest =>
      try_except
        (_process_file_chunk self (Scheduler.file_chunk c)
           (Scheduler.total_files c) (Scheduler.start_index c))
        (fun e => send (error (u "Thread hatası: " ++ e))) ;;;
      run_chunks self rest
  end.

(** [_process_files_multithreaded], with the chunks run one after the
    other in the order they are submitted: the schedule of a pool of one
    thread (with more threads the steps of the chunks interleave). The
    warning shown when the count was reduced is left out. *)
Definition _process_files_multithreaded self (PSUTIL_AVAILABLE : bool)
    (psutil : option Governor.Telemetry) (files : list pystr) : M unit :=
  let total := length files in
  if total =? 0 then ret tt
  else
    let optimal_threads :=
      Governor._optimize_thread_count
        {| Governor.enable_optimization := enable_optimization self;
           Governor.PSUTIL_AVAILABLE := PSUTIL_AVAILABLE;
           Governor.psutil := psutil |}
        (Z.of_nat total) (thread_count self) in
    let thread_count := optimal_threads in
    send (status (u "Dosyalar işleniyor (" ++ str_of_nat (Z.to_nat thread_count)
                  ++ u " thread kullanılıyor)...")) ;;;
    (if (thread_count <=? 0)%Z
     then raise (u "max_workers must be greater than 0")
     else ret tt) ;;;
    run_chunks self (Scheduler.submitted_chunks files (Z.to_nat thread_count)) ;;;
    send stats_update.

(** [run] over the files that [_collect_files] found, for a worker that
    does not delete empty folders; the statistics computed after the
    history is saved are left out. *)
Definition run self (PSUTIL_AVAILABLE : bool) (psutil : option Governor.Telemetry)
    (files : list pystr) : M unit :=
  try_except
    (update (set_stats (with_total_files (length files))) ;;;
     match files with
     | [] =>
         send (status (u "Düzenlenecek dosya bulunamadı!")) ;;;
         send (finished false)
     | _ =>
         _process_files_multithreaded self PSUTIL_AVAILABLE psutil files ;;;
         update (_save_log self) ;;;
         send (finished true)
     end)
    (fun e => send (error (u "Kritik hata: " ++ e)) ;;; send (finished false)).

End Methods.

End Worker.

(** ** The window: [DosyaDuzenleyici.undo_action] *)

Module Window.
Import Str Fs.
Local Open Scope nat_scope.

(** What the window shows after an undo. *)
Inductive UndoResult :=
  | NothingToUndo                  (* the early returns *)
  | Restored (success_count : nat) (* the status line *)
  | UndoError (e : exn).           (* the message box *)

(** One round of the loop over the movements, with its own [try]. *)
Definition undo_move (state : FS * nat) (move : LogEntry) : FS * nat :=
  let '(fs, success_count) := state in
  if path_exists fs (new_path move) then
    let old_dir := dirname (old_path move) in
    match makedirs fs old_dir with
    | inl _ => (fs, success_count)
    | inr fs1 =>
        match Fs.move fs1 (new_path move) (old_path move) with
        | inl _ => (fs1, success_count)
        | inr fs2 => (fs2, success_count + 1)
        end
    end
  else (fs, success_count).

Definition undo_action (selected_folder : pystr) (fs : FS) : FS * UndoResult :=
  let log_path := join selected_folder log_file in
  if negb (path_exists fs log_path) then (fs, NothingToUndo)
  else
    match load_history fs log_path with
    | inl e => (fs, UndoError e)
    | inr history =>
        (* history.pop() *)
        match rev history with
        | [] => (fs, NothingToUndo)
        | last_operation :: earlier =>
            let history := rev earlier in
            match last_operation with
            | Other _ =>
                (fs, UndoError (u "object has no attribute 'get'"))
            | Record_ r =>
                let '(fs1, success_count) :=
                  foldl undo_move (fs, 0) (movements r) in
                let written :=
                  match history with
                  | [] => remove fs1 log_path
                  | _ => write_file fs1 log_path (History history)
                  end in
                match written with
                | inr fs2 => (fs2, Restored success_count)
                | inl e => (fs1, UndoError e)
                end
            end
        end
    end.

End Window.

(** ** Properties of paths *)

Module FsFacts.
Import Str Fs.
Local Open Scope nat_scope.

Lemma rsplit_None (c0 : N) (p : pystr) : c0 ∉ p -> rsplit c0 p = None.
Proof.
  induction p as [| c p IH]; [done |].
  rewrite not_elem_of_cons. intros [Hne Hp]. simpl. rewrite (IH Hp).
  destruct (N.eqb_spec c c0); congruence.
Qed.

Lemma rsplit_Some (c0 : N) (p a b : pystr) :
  rsplit c0 p = Some (a, b) -> p = a ++ c0 :: b.
Proof.
  revert a. induction p as [| c p IH]; intros a; [done |]. simpl.
  destruct (rsplit c0 p) as [[a' b'] |].
  - intros [= <- <-]. simpl. f_equal. by apply IH.
  - destruct (N.eqb_spec c c0) as [-> |]; [| done]. by intros [= <- <-].
Qed.

Lemma rsplit_app (c0 : N) (a b : pystr) :
  c0 ∉ b -> rsplit c0 (a ++ c0 :: b) = Some (a, b).
Proof.
  intros Hb. induction a as [| x a IH]; simpl.
  - rewrite (rsplit_None c0 b Hb), N.eqb_refl. done.
  - by rewrite IH.
Qed.

Lemma splitext_app (p name ext : pystr) :
  splitext p = (name, ext) -> p = name ++ ext.
Proof.
  unfold splitext. destruct (rsplit extsep p) as [[root after] |] eqn:E.
  - apply rsplit_Some in E.
    destruct (existsb _ after); [intros [= <- <-]; by rewrite app_nil_r |].
    destruct (forallb _ (basename root)); intros [= <- <-];
      [by rewrite app_nil_r | done].
  - intros [= <- <-]. by rewrite app_nil_r.
Qed.

Lemma ends_with_sep_snoc (a : pystr) (x : N) :
  ends_with_sep (a ++ [x]) = (x =? sep)%N.
Proof. unfold ends_with_sep. by rewrite last_snoc. Qed.

Lemma rstrip_sep_snoc (a : pystr) :
  a <> [] -> ends_with_sep a = false -> rstrip_sep (a ++ [sep]) = a.
Proof.
  intros Hne He. unfold rstrip_sep. rewrite rev_unit. simpl.
  destruct a as [| x a] using rev_ind; [done |].
  rewrite ends_with_sep_snoc in He. rewrite rev_unit. simpl. rewrite He.
  by rewrite <- rev_unit, rev_involutive.
Qed.

Lemma all_sep_snoc_false (a : pystr) :
  a <> [] -> ends_with_sep a = false -> all_sep (a ++ [sep]) = false.
Proof.
  intros Hne He. destruct a as [| x a _] using rev_ind; [done |].
  rewrite ends_with_sep_snoc in He. unfold all_sep.
  rewrite !forallb_app. cbn [forallb]. rewrite (N.eqb_sym sep x), He.
  by rewrite !andb_false_r.
Qed.

(** The folder of a name joined to a folder is that folder. *)
Lemma dirname_join (a b : pystr) :
  a <> [] -> ends_with_sep a = false -> b <> [] -> sep ∉ b ->
  join a b = a ++ sep :: b /\ dirname (join a b) = a.
Proof.
  intros Ha He Hb Hs. destruct b as [| c b']; [done |].
  assert (Hc : (c =? sep)%N = false).
  { apply N.eqb_neq. intros ->. apply Hs. left. }
  assert (Hj : join a (c :: b') = a ++ sep :: c :: b').
  { unfold join. rewrite Hc, He, orb_false_r.
    rewrite bool_decide_eq_false_2 by done. done. }
  split; [done |]. rewrite Hj. unfold dirname.
  rewrite rsplit_app by done. cbv zeta.
  rewrite all_sep_snoc_false by done. by apply rstrip_sep_snoc.
Qed.

Lemma is_root_all_sep (p : pystr) (x : N) : is_root p = true -> x ∈ p -> x = sep.
Proof.
  intros Hr Hx. assert (Ha : all_sep p = true) by (by destruct p).
  unfold all_sep in Ha. rewrite forallb_forall in Ha.
  apply list_elem_of_In in Hx. specialize (Ha x Hx).
  symmetry. by apply N.eqb_eq.
Qed.

(** Decimal digits *)
Definition is_digit (c : N) : Prop := (48 <= c <= 57)%N.

Lemma pretty_N_char_digit (x : N) : is_digit (Ascii.N_of_ascii (pretty_N_char x)).
Proof.
  unfold pretty_N_char, is_digit. repeat case_match; vm_compute; split; discriminate.
Qed.

Lemma pretty_N_go_digits (x : N) (s : string) :
  Forall is_digit (byte_codes s) -> Forall is_digit (byte_codes (pretty_N_go x s)).
Proof.
  revert s. induction (N.lt_wf_0 x) as [x _ IH]; intros s Hs.
  assert (x = 0 \/ 0 < x)%N as [-> | Hpos] by lia.
  - by rewrite pretty_N_go_0.
  - rewrite pretty_N_go_step by done. apply IH.
    + by apply N.div_lt.
    + unfold byte_codes. simpl. constructor; [apply pretty_N_char_digit | exact Hs].
Qed.

Lemma str_of_nat_digits (n : nat) : Forall is_digit (str_of_nat n).
Proof.
  unfold str_of_nat, pretty, pretty_nat, pretty, pretty_N.
  destruct (decide (N.of_nat n = 0%N)).
  - repeat constructor; vm_compute; discriminate.
  - apply pretty_N_go_digits. constructor.
Qed.

Lemma str_of_nat_no_sep (n : nat) : sep ∉ str_of_nat n.
Proof.
  intros Hin. pose proof (str_of_nat_digits n) as F.
  rewrite Forall_forall in F. specialize (F _ Hin).
  unfold is_digit, sep in F. lia.
Qed.

Lemma N_of_ascii_inj : Inj (=) (=) Ascii.N_of_ascii.
Proof.
  intros a b Hab. apply (f_equal Ascii.ascii_of_N) in Hab.
  by rewrite !Ascii.ascii_N_embedding in Hab.
Qed.

Lemma str_of_nat_inj : Inj (=) (=) str_of_nat.
Proof.
  intros n m E. unfold str_of_nat, byte_codes in E.
  apply (list_fmap_eq_inj _ N_of_ascii_inj) in E.
  apply (f_equal String.string_of_list_ascii) in E.
  rewrite !String.string_of_list_ascii_of_string in E.
  by apply (inj pretty).
Qed.

End FsFacts.

(** ** Properties of the move engine *)

Module MoveFacts.
Import Str Fs Worker FsFacts.
Local Open Scope nat_scope.

Lemma join_prefix_inj (a pre s1 s2 : pystr) :
  pre <> [] -> join a (pre ++ s1) = join a (pre ++ s2) -> s1 = s2.
Proof.
  intros Hpre. destruct pre as [| c pre]; [done |]. simpl app. unfold join.
  destruct (c =? sep)%N.
  - intros [= E]. by apply app_inv_head in E.
  - destruct (bool_decide (a = []) || ends_with_sep a).
    + intros E. apply app_inv_head in E. injection E as E.
      by apply app_inv_head in E.
    + intros E. apply app_inv_head in E. injection E as E.
      by apply app_inv_head in E.
Qed.

Lemma join_elem (a b : pystr) (x : N) : x ∈ b -> x ∈ join a b.
Proof.
  intros Hx. destruct b as [| c b]; [by apply elem_of_nil in Hx |]. unfold join.
  destruct (c =? sep)%N; [done |].
  destruct (bool_decide (a = []) || ends_with_sep a);
    rewrite !elem_of_app; auto.
Qed.

Section Candidates.
Variables (fs : FS) (target_dir name ext : pystr).

Lemma candidate_inj (k1 k2 : nat) :
  candidate target_dir name ext k1 = candidate target_dir name ext k2 -> k1 = k2.
Proof.
  unfold candidate. rewrite !(app_assoc name (u "_")).
  intros E. apply join_prefix_inj in E.
  - apply app_inv_tail in E. by apply str_of_nat_inj.
  - intros Hnil. apply app_eq_nil in Hnil as [_ Hnil]. discriminate.
Qed.

Lemma candidate_not_root (k : nat) :
  is_root (candidate target_dir name ext k) = false.
Proof.
  destruct (is_root _) eqn:E; [| done].
  assert (H95 : 95%N ∈ candidate target_dir name ext k).
  { apply join_elem. rewrite !elem_of_app. right. left.
    change (u "_") with [95%N]. left. }
  apply (is_root_all_sep _ _ E) in H95. discriminate.
Qed.

Lemma candidate_exists (k : nat) :
  path_exists fs (candidate target_dir name ext k) = true ->
  candidate target_dir name ext k ∈ dom fs.
Proof.
  unfold path_exists. rewrite candidate_not_root. simpl.
  intros H. apply bool_decide_eq_true in H. by apply elem_of_dom.
Qed.

(** What the loop answers is a name that does not exist: the first one, or
    the candidate of the first counter whose name is free. *)
Lemma free_name_Some (fuel counter : nat) (new_path p : pystr) :
  free_name fs target_dir name ext fuel counter new_path = Some p ->
  path_exists fs p = false /\
  (p = new_path \/
   (path_exists fs new_path = true /\
    exists k, counter <= k /\ p = candidate target_dir name ext k /\
      forall j, counter <= j < k ->
                path_exists fs (candidate target_dir name ext j) = true)).
Proof.
  revert counter new_path.
  induction fuel as [| fuel IH]; intros counter new_path; simpl;
    destruct (path_exists fs new_path) eqn:E; try done.
  - intros [= <-]. auto.
  - intros H. destruct (IH _ _ H) as [Hfree [-> | (Hex & k & Hk & -> & Hj)]].
    + split; [done |]. right. split; [done |].
      exists counter. split; [lia |]. split; [done |]. intros j Hj. lia.
    + split; [done |]. right. split; [done |].
      exists k. split; [lia |]. split; [done |]. intros j Hj'.
      destruct (decide (j = counter)) as [-> | Hne]; [done |].
      apply Hj. lia.
  - intros [= <-]. auto.
Qed.

(** When the fuel runs out, every name tried exists. *)
Lemma free_name_None (fuel counter : nat) (new_path : pystr) :
  free_name fs target_dir name ext fuel counter new_path = None ->
  forall j, counter <= j < counter + fuel ->
            path_exists fs (candidate target_dir name ext j) = true.
Proof.
  revert counter new_path.
  induction fuel as [| fuel IH]; intros counter new_path; simpl;
    destruct (path_exists fs new_path) eqn:E; try done.
  - intros _ j Hj. lia.
  - intros H j Hj. destruct (decide (j = counter)) as [-> | Hne].
    + destruct fuel; simpl in H;
        destruct (path_exists fs (candidate target_dir name ext counter)); done.
    + apply (IH _ _ H). lia.
Qed.

(** More candidates than the file system has paths cannot all exist. *)
Lemma free_name_enough_fuel (counter : nat) (new_path : pystr) :
  free_name fs target_dir name ext (S (size fs)) counter new_path <> None.
Proof.
  intros H. pose proof (free_name_None _ _ _ H) as Hall.
  set (l := candidate target_dir name ext <$> seq counter (S (size fs))).
  assert (Hnd : NoDup l).
  { apply NoDup_fmap_2_strong; [| apply NoDup_seq].
    intros k1 k2 _ _. apply candidate_inj. }
  assert (Hsub : forall x, x ∈ l -> x ∈ elements (dom fs)).
  { intros x Hx. apply list_elem_of_fmap in Hx as (k & -> & Hk).
    apply elem_of_seq in Hk. apply elem_of_elements, candidate_exists, Hall. lia. }
  pose proof (submseteq_length _ _ (NoDup_submseteq _ _ Hnd Hsub)) as Hlen.
  unfold l in Hlen. rewrite length_fmap, length_seq in Hlen.
  change (length (elements (dom fs))) with (size (dom fs)) in Hlen.
  rewrite size_dom in Hlen. lia.
Qed.

End Candidates.

(** The loop of [_move_file] ends within the rounds it is given: the model
    never answers [None]. *)
Lemma move_file_terminates (fs : FS) (old_path target_dir filename : pystr) :
  _move_file fs old_path target_dir filename <> None.
Proof.
  unfold _move_file. cbv zeta. destruct (splitext filename) as [name ext].
  destruct (free_name _ _ _ _ _ _ _) eqn:E; [done |].
  by apply free_name_enough_fuel in E.
Qed.

Lemma not_exists_lookup (fs : FS) (p : pystr) :
  path_exists fs p = false -> fs !! p = None /\ isdir fs p = false.
Proof.
  unfold path_exists, isdir, is_folder. intros H.
  apply orb_false_iff in H as [Hr Hd]. rewrite Hr.
  apply bool_decide_eq_false in Hd. rewrite <- eq_None_not_Some in Hd.
  by rewrite Hd.
Qed.

(** One move of a file into a folder that exists. *)
Lemma move_file_spec (fs : FS) (old_path target_dir filename : pystr) (c : content) :
  fs !! old_path = Some (File c) ->
  is_folder fs target_dir = true ->
  target_dir <> [] -> ends_with_sep target_dir = false ->
  filename <> [] -> sep ∉ filename ->
  exists new_path,
    _move_file fs old_path target_dir filename
    = Some (inr (new_path, <[new_path := File c]> (delete old_path fs))) /\
    path_exists fs new_path = false /\
    (new_path = join target_dir filename \/
     (path_exists fs (join target_dir filename) = true /\
      exists k, 1 <= k /\
        new_path = candidate target_dir (fst (splitext filename))
                             (snd (splitext filename)) k /\
        forall j, 1 <= j < k ->
          path_exists fs (candidate target_dir (fst (splitext filename))
                                    (snd (splitext filename)) j) = true)).
Proof.
  intros Hold Hdir Hne Hend Hf Hsep.
  unfold _move_file. cbv zeta.
  destruct (splitext filename) as [name ext] eqn:Es. simpl fst. simpl snd.
  pose proof (splitext_app _ _ _ Es) as Happ.
  assert (Hname : sep ∉ name) by (intros H; apply Hsep; rewrite Happ, elem_of_app; auto).
  assert (Hext : sep ∉ ext) by (intros H; apply Hsep; rewrite Happ, elem_of_app; auto).
  destruct (free_name fs target_dir name ext (S (size fs)) 1
              (join target_dir filename)) as [new_path |] eqn:E;
    [| by apply free_name_enough_fuel in E].
  destruct (free_name_Some _ _ _ _ _ _ _ _ E) as [Hfree Hwhich].
  destruct (not_exists_lookup _ _ Hfree) as [Hnone Hnodir].
  assert (Hparent : dirname new_path = target_dir).
  { destruct Hwhich as [-> | (_ & k & _ & -> & _)].
    - by apply dirname_join.
    - apply dirname_join; try done.
      + intros Hnil. apply app_eq_nil in Hnil as [_ Hnil].
        apply app_eq_nil in Hnil as [Hnil _]. discriminate.
      + rewrite !elem_of_app. intros [H | [H | [H | H]]]; try done.
        * change (u "_") with [95%N] in H. apply list_elem_of_singleton in H.
          discriminate.
        * by apply (str_of_nat_no_sep k). }
  exists new_path. split; [| split; [done | exact Hwhich]].
  unfold move. rewrite Hold. cbv zeta. rewrite Hnodir. simpl andb.
  unfold parent_exists. rewrite Hparent.
  destruct target_dir as [| x d]; [done |].
  unfold isdir. rewrite Hdir, orb_true_r. reflexivity.
Qed.


(** A folder in which the requested name and its first suffix are taken. *)
Definition crowded : FS :=
  list_to_map [ (u "/t", Folder);
                (u "/t/a.txt", File (Raw (u "zero")));
                (u "/t/a_1.txt", File (Raw (u "one")));
                (u "/s/a.txt", File (Raw (u "first")));
                (u "/u/a.txt", File (Raw (u "second"))) ].


End MoveFacts.

(** ** Properties of the history *)

Module HistoryFacts.
Import Str Fs Worker.
Local Open Scope nat_scope.









End HistoryFacts.

(** ** Properties of the chunk loop *)

Module ChunkFacts.
Import Str Fs Worker.
Local Open Scope nat_scope.

(** A computation that never runs out of fuel. *)
Definition terminates {A} (m : M A) : Prop := forall w, snd (m w) <> OutOfFuel.

Lemma terminates_ret {A} (a : A) : terminates (ret a).
Proof. by intros w. Qed.

Lemma terminates_raise {A} (e : exn) : terminates (@raise A e).
Proof. by intros w. Qed.

Lemma terminates_get : terminates get.
Proof. by intros w. Qed.

Lemma terminates_update f : terminates (update f).
Proof. by intros w. Qed.

Lemma terminates_assign field f : terminates (assign field f).
Proof. by intros w. Qed.

Lemma terminates_send s : terminates (send s).
Proof. by intros w. Qed.

Lemma terminates_now : terminates now.
Proof. by intros w. Qed.

Lemma terminates_getsize p : terminates (os_getsize p).
Proof. intros w. unfold os_getsize. by destruct (fs w !! p) as [[] |]. Qed.

Lemma terminates_fs_call f : terminates (fs_call f).
Proof. intros w. unfold fs_call. by destruct (f (fs w)). Qed.

Lemma terminates_progress_of n total : terminates (progress_of n total).
Proof.
  intros w. unfold progress_of. destruct (total =? 0); [done |].
  by destruct (Py.int_of_float _).
Qed.

Lemma terminates_bind {A B} (m : M A) (k : A -> M B) :
  terminates m -> (forall a, terminates (k a)) -> terminates (bind m k).
Proof.
  intros Hm Hk w. unfold bind. specialize (Hm w).
  destruct (m w) as [w' [a | e |]]; [apply Hk | done | done].
Qed.

Lemma terminates_with_lock {A} (m : M A) : terminates m -> terminates (with_lock m).
Proof.
  intros Hm w. unfold with_lock. specialize (Hm (record acquire w)).
  by destruct (m (record acquire w)).
Qed.

Lemma terminates_try_except {A} (m : M A) (h : exn -> M A) :
  terminates m -> (forall e, terminates (h e)) -> terminates (try_except m h).
Proof.
  intros Hm Hh w. unfold try_except. specialize (Hm w).
  destruct (m w) as [w' [a | e |]]; [done | apply Hh | done].
Qed.

Lemma terminates_move_file old_path target_dir filename :
  terminates (move_file old_path target_dir filename).
Proof.
  intros w. unfold move_file.
  pose proof (MoveFacts.move_file_terminates (fs w) old_path target_dir filename).
  by destruct (_move_file _ _ _ _) as [[e | [p f]] |].
Qed.

Lemma terminates_count_objects objects : terminates (count_objects objects).
Proof.
  induction objects as [| obj rest IH]; simpl; [apply terminates_ret |].
  apply terminates_bind; [apply terminates_assign | by intros _].
Qed.

Lemma terminates_record_error filename e : terminates (record_error filename e).
Proof. by intros w. Qed.

Section Loop.
Variable U : Unicode.
Implicit Types (self : Worker) (w : World).

Lemma terminates_determine_document self filepath :
  terminates (_determine_document_category U self filepath).
Proof.
  intros w. unfold _determine_document_category.
  destruct (document_analyzer self) as [analyzer |]; [| done].
  destruct (extract_text self (fs w) filepath); [done |].
  by destruct (fst (Analyzer.analyze_content U analyzer () _)) as [[? ?] ?].
Qed.

Ltac step :=
  first
    [ apply terminates_ret | apply terminates_raise | apply terminates_get
    | apply terminates_update | apply terminates_assign | apply terminates_send
    | apply terminates_now | apply terminates_getsize | apply terminates_fs_call
    | apply terminates_progress_of | apply terminates_move_file
    | apply terminates_count_objects | apply terminates_determine_document
    | apply terminates_with_lock
    | apply terminates_bind; [| intros ?] ].

(** The body of the [try] always answers: it returns or it raises. *)
Lemma terminates_process_file self total_files filepath :
  terminates (process_file U self total_files filepath).
Proof.
  unfold process_file. cbv zeta.
  apply terminates_bind; [repeat step; destruct (_ =? 0); step | intros _].
  apply terminates_bind.
  - destruct (_ && _).
    + apply terminates_bind; [step | intros [[category subcategory] detected]].
      destruct category; repeat step.
    + step.
  - intros [[target_category subcategory] detected].
    apply terminates_bind; [step | intros _].
    apply terminates_bind; [step | intros new_path].
    destruct new_path; [step |].
    apply terminates_bind; [repeat step | intros _].
    apply terminates_bind; [step | intros _].
    destruct detected; step.
Qed.

(** What the [except] clause does to the state. *)
Lemma record_error_effect filename e w :
  exists w',
    record_error filename e w = (w', Returned tt) /\
    errors (stats w') = errors (stats w) ++ [filename ++ u ": " ++ e] /\
    skipped_files (stats w') = skipped_files (stats w) + 1 /\
    trace w' = trace w ++ [acquire; write f_errors; write f_skipped_files; release] /\
    fs w' = fs w /\ log_entries w' = log_entries w /\
    processed_files (stats w') = processed_files (stats w) /\
    processed_counter w' = processed_counter w.
Proof.
  eexists. split; [reflexivity |]. simpl.
  repeat split; try reflexivity. by rewrite <- !app_assoc.
Qed.

(** One round of the loop returns, whatever the body does. *)
Lemma process_file_guarded_returns self total_files filepath w :
  snd (process_file_guarded U self total_files filepath w) = Returned tt.
Proof.
  unfold process_file_guarded, try_except.
  pose proof (terminates_process_file self total_files filepath w) as Ht.
  destruct (process_file U self total_files filepath w) as [w' [[] | e |]];
    [done | | done].
  by destruct (record_error_effect (basename filepath) e w') as (w2 & -> & _).
Qed.

Lemma process_file_chunk_returns self file_chunk total_files start_index w :
  snd (_process_file_chunk U self file_chunk total_files start_index w)
  = Returned tt.
Proof.
  revert w. induction file_chunk as [| filepath rest IH]; intros w; [done |].
  simpl. unfold bind.
  pose proof (process_file_guarded_returns self total_files filepath w) as Hg.
  destruct (process_file_guarded U self total_files filepath w) as [w' r].
  simpl in Hg. subst r. apply IH.
Qed.

Lemma process_file_chunk_cons self filepath rest total_files start_index w :
  _process_file_chunk U self (filepath :: rest) total_files start_index w
  = _process_file_chunk U self rest total_files start_index
      (fst (process_file_guarded U self total_files filepath w)).
Proof.
  simpl. unfold bind.
  pose proof (process_file_guarded_returns self total_files filepath w) as Hg.
  destruct (process_file_guarded U self total_files filepath w) as [w' r].
  simpl in Hg. by subst r.
Qed.

Lemma process_file_chunk_app self pre rest total_files start_index w :
  _process_file_chunk U self (pre ++ rest) total_files start_index w
  = _process_file_chunk U self rest total_files start_index
      (fst (_process_file_chunk U self pre total_files start_index w)).
Proof.
  revert w. induction pre as [| filepath pre IH]; intros w; [done |].
  rewrite <- app_comm_cons, !process_file_chunk_cons. apply IH.
Qed.

End Loop.

(** C7: the chunk function returns for every chunk and never raises; and
    for every file of the chunk whose processing raises, the message
    "name: error" is appended to the error list and the skipped counter
    goes up by one, both between taking and releasing the lock, nothing
    else of the statistics, the log or the file system changes in the
    handler, and the loop goes on with the files after it. *)
Theorem chunk_error_isolation (U : Unicode) (self : Worker)
    (file_chunk : list pystr) (total_files start_index : nat) (w : World) :
  snd (_process_file_chunk U self file_chunk total_files start_index w)
  = Returned tt /\
  forall pre filepath rest e w1,
    file_chunk = pre ++ filepath :: rest ->
    process_file U self total_files filepath
      (fst (_process_file_chunk U self pre total_files start_index w))
    = (w1, Raised e) ->
    exists w2,
      errors (stats w2) = errors (stats w1) ++ [basename filepath ++ u ": " ++ e] /\
      skipped_files (stats w2) = skipped_files (stats w1) + 1 /\
      trace w2
      = trace w1 ++ [acquire; write f_errors; write f_skipped_files; release] /\
      fs w2 = fs w1 /\ log_entries w2 = log_entries w1 /\
      processed_files (stats w2) = processed_files (stats w1) /\
      _process_file_chunk U self file_chunk total_files start_index w
      = _process_file_chunk U self rest total_files start_index w2.
Proof.
  split; [apply process_file_chunk_returns |].
  intros pre filepath rest e w1 -> Hraise.
  destruct (record_error_effect (basename filepath) e w1)
    as (w2 & Hrec & He & Hs & Ht & Hfs & Hlog & Hp & _).
  exists w2. repeat split; try done.
  rewrite process_file_chunk_app, process_file_chunk_cons.
  unfold process_file_guarded, try_except. rewrite Hraise, Hrec. reflexivity.
Qed.

End ChunkFacts.

(** ** The pipeline on concrete folders *)

Module Scenarios.
Import Str Fs Worker Window.
Local Open Scope nat_scope.

(** An organizer with the default table, sorting by extension only. *)
Definition organizer : Worker := {|
  kategoriler := default_kategoriler;
  vision_config := Vision.default_config;
  ai_modu := false;
  document_ai_modu := false;
  source_folder := u "/src";
  thread_count := 8;
  enable_optimization := true;
  ai_pipeline := None;
  document_analyzer := None;
  extract_text := fun _ _ => []
|}.

(** *** A file that disappeared before its turn *)

Definition two_notes : FS :=
  list_to_map [ (u "/src", Folder);
                (u "/src/a.txt", File (Raw (u "first")));
                (u "/src/b.txt", File (Raw (u "second"))) ].

Definition chunk_with_gap : list pystr :=
  [u "/src/a.txt"; u "/src/gone.txt"; u "/src/b.txt"].

(** The chunk returns; the missing file is counted as skipped with its
    message, and the files around it are moved. *)
Lemma chunk_error_isolation_witness :
  let r := _process_file_chunk latin organizer chunk_with_gap 3 0
             (initial_world two_notes) in
  snd r = Returned tt /\
  errors (stats (fst r))
  = [u "gone.txt: Taşıma hatası: [Errno 2] No such file or directory: '/src/gone.txt'"] /\
  skipped_files (stats (fst r)) = 1 /\
  processed_files (stats (fst r)) = 2 /\
  fs (fst r) !! u "/src/Belgeler/a.txt" = Some (File (Raw (u "first"))) /\
  fs (fst r) !! u "/src/Belgeler/b.txt" = Some (File (Raw (u "second"))).
Proof.
  split.
  - exact (proj1 (ChunkFacts.chunk_error_isolation latin organizer chunk_with_gap
                    3 0 (initial_world two_notes))).
  - vm_compute. repeat split; reflexivity.
Defined.

(** *** A sixth run *)





(** *** Undo after a run that refilled a path it had emptied *)

(** A folder with a note under [Belgeler] already, and a second folder
    with a note of the same name. *)
Definition two_folders : FS :=
  list_to_map [ (u "/src", Folder);
                (u "/src/Belgeler", Folder);
                (u "/src/Belgeler/notlar.txt", File (Raw (u "old note")));
                (u "/src/yeni", Folder);
                (u "/src/yeni/notlar.txt", File (Raw (u "new note"))) ].

(** What [_collect_files] finds there with subfolders included. *)
Definition collected : list pystr :=
  [u "/src/Belgeler/notlar.txt"; u "/src/yeni/notlar.txt"].

Definition after_run : World * outcome unit :=
  run latin organizer true (Governor.psutil Governor.idle_host) collected
      (initial_world two_folders).

(** The same records replayed last to first put both notes back. *)
Lemma reverse_replay_restores :
  let moved := fs (fst after_run) in
  let replayed := foldl undo_move (moved, 0) (rev (log_entries (fst after_run))) in
  snd replayed = 2 /\
  fst replayed !! u "/src/Belgeler/notlar.txt" = Some (File (Raw (u "old note"))) /\
  fst replayed !! u "/src/yeni/notlar.txt" = Some (File (Raw (u "new note"))).
Proof. vm_compute. repeat split; reflexivity. Qed.

(** C1 fails here. The run makes two moves: the old note goes to
    [notlar_1.txt], and the new note takes the path the old one left. Undo,
    called next, replays the two records in the order of the run: the
    first puts the old note back over the new one, the second moves what
    is now at that path away. It reports two files restored; the old note
    ends at the path of the new one, its own path is empty, and the new
    note is lost. *)
Lemma undo_after_chained_moves :
  snd after_run = Returned tt /\
  processed_files (stats (fst after_run)) = 2 /\
  (fun e => (old_path e, new_path e)) <$> log_entries (fst after_run)
  = [ (u "/src/Belgeler/notlar.txt", u "/src/Belgeler/notlar_1.txt");
      (u "/src/yeni/notlar.txt", u "/src/Belgeler/notlar.txt") ] /\
  fs (fst after_run) !! u "/src/Belgeler/notlar_1.txt"
  = Some (File (Raw (u "old note"))) /\
  fs (fst after_run) !! u "/src/Belgeler/notlar.txt"
  = Some (File (Raw (u "new note"))) /\
  let undone := undo_action (u "/src") (fs (fst after_run)) in
  snd undone = Restored 2 /\
  fst undone !! u "/src/Belgeler/notlar.txt" = None /\
  fst undone !! u "/src/yeni/notlar.txt" = Some (File (Raw (u "old note"))) /\
  fst undone !! join (u "/src") log_file = None /\
  (forall p, fst undone !! p <> Some (File (Raw (u "new note")))).
Proof.
  assert (E : map_to_list (fst (undo_action (u "/src") (fs (fst after_run))))
              = [ (u "/src/yeni/notlar.txt", File (Raw (u "old note")));
                  (u "/src/Belgeler", Folder);
                  (u "/src/yeni", Folder);
                  (u "/src", Folder) ])
    by (vm_compute; reflexivity).
  split; [vm_compute; reflexivity |].
  split; [vm_compute; reflexivity |].
  split; [vm_compute; reflexivity |].
  split; [vm_compute; reflexivity |].
  split; [vm_compute; reflexivity |].
  cbv zeta.
  split; [vm_compute; reflexivity |].
  split; [vm_compute; reflexivity |].
  split; [vm_compute; reflexivity |].
  split; [vm_compute; reflexivity |].
  intros p Hp. apply elem_of_map_to_list in Hp. rewrite E in Hp.
  repeat (apply elem_of_cons in Hp as [Hp | Hp]; [discriminate Hp |]).
  by apply elem_of_nil in Hp.
Qed.

End Scenarios.

(** ** More on the governor *)

Module GovernorCeilings.
Import Governor GovernorFacts.

Lemma rule_files_share (total_files requested : Z) :
  0 < requested -> 0 <= total_files ->
  rule_files total_files requested <= Z.max 1 (total_files / 2).
Proof.
  intros Hr Hf. unfold rule_files.
  destruct (Z.ltb_spec total_files (requested * 2)) as [Hlt | Hge]; [lia |].
  assert (requested <= total_files / 2) by (apply Z.div_le_lower_bound; lia).
  lia.
Qed.

Lemma rule_low_ram_cap (gb : spec_float) (n : Z) :
  rule_low_ram gb n <= n /\
  (Py.flt gb (Py.float_of_int 4) = true -> rule_low_ram gb n <= 4).
Proof. unfold rule_low_ram. destruct (Py.flt _ _); split; intros; lia. Qed.

(** X1: with the optimisation on and psutil answering, the count for a
    request above zero is never above the ceiling of the processor class
    (itself at most 16 and at most twice the logical processors), never
    above [max(2, files / 2)], and at most 4 on a host with less than
    4 GiB of memory. *)
Theorem optimize_thread_count_ceilings (env : Env) (t : Telemetry)
    (total_files requested : Z) :
  0 < requested -> 0 <= total_files ->
  enable_optimization env = true -> PSUTIL_AVAILABLE env = true ->
  psutil env = Some t ->
  let r := _optimize_thread_count env total_files requested in
  r <= cpu_limit t /\
  cpu_limit t <= Z.min 16 (2 * cpu_count t) /\
  r <= Z.max 2 (total_files / 2) /\
  (Py.flt (memory_gb t) (Py.float_of_int 4) = true -> r <= 4).
Proof.
  intros Hr Hf Hen Hav Hps r. subst r.
  unfold _optimize_thread_count. rewrite Hen, Hav, Hps. simpl.
  unfold optimize_try. cbv zeta.
  pose proof (rule_files_range total_files requested Hr Hf) as H1.
  pose proof (rule_files_share total_files requested Hr Hf) as H1'.
  pose proof (cpu_limit_range t) as HL.
  destruct (rule_cpu_limit_range (cpu_limit t) (rule_files total_files requested))
    as [H2 H2']; [lia | lia |].
  assert (H2l : rule_cpu_limit (cpu_limit t) (rule_files total_files requested)
                <= cpu_limit t)
    by (unfold rule_cpu_limit; destruct (Z.ltb_spec (cpu_limit t)
          (rule_files total_files requested)); lia).
  set (n2 := rule_cpu_limit _ _) in *.
  destruct (rule_load_range (cpu_percent t) (Py.float_of_int 70) Py.lit_0_6 n2)
    as (n3 & -> & H3 & H3' & _); [auto | lia |].
  cbn [mbind option_bind].
  destruct (rule_load_range (memory_percent t) (Py.float_of_int 80) Py.lit_0_7 n3)
    as (n4 & -> & H4 & H4' & _); [auto | lia |].
  cbn [mbind option_bind].
  destruct (rule_low_ram_cap (memory_gb t) n4) as [Hram Hram4].
  repeat split; try lia.
  - pose proof (cpu_count_pos t). unfold cpu_limit, classify_cpu.
    destruct (Z.leb_spec (cpu_count t) 4); [simpl; lia |].
    destruct (Z.leb_spec (cpu_count t) 8); simpl; lia.
  - intros Hlow. specialize (Hram4 Hlow). lia.
Qed.

(** The theorem on a host of two processors and 2 GiB at 90% CPU: a
    request of 32 threads for 1000 files is answered with 2. *)
Definition small_busy_host : Env := {|
  enable_optimization := true;
  PSUTIL_AVAILABLE := true;
  psutil := Some {| cpu_count_logical := Some 2%N;
                    cpu_percent := Py.float_of_int 90;
                    memory_percent := Py.float_of_int 50;
                    memory_total := 2 * 1024 ^ 3 |}
|}.

Lemma optimize_thread_count_ceilings_witness :
  _optimize_thread_count small_busy_host 1000 32 <= 4.
Proof.
  destruct (optimize_thread_count_ceilings small_busy_host
              {| cpu_count_logical := Some 2%N;
                 cpu_percent := Py.float_of_int 90;
                 memory_percent := Py.float_of_int 50;
                 memory_total := 2 * 1024 ^ 3 |} 1000 32)
    as (_ & _ & _ & H); [lia | lia | reflexivity | reflexivity | reflexivity |].
  apply H. vm_compute. reflexivity.
Defined.

(** *** The answer in integer arithmetic *)

(** A load rule with the product computed on integers: three fifths, or
    seven tenths, rounded down. *)
Definition load_cut (over : bool) (num den n : Z) : Z :=
  if over then Z.max 2 (num * n / den) else n.

(** The body of the [try] with both products computed on integers. *)
Definition integer_rules (t : Telemetry) (total_files requested_threads : Z) : Z :=
  let n := rule_files total_files requested_threads in
  let n := rule_cpu_limit (cpu_limit t) n in
  let n := load_cut (Py.fgt (cpu_percent t) (Py.float_of_int 70)) 3 5 n in
  let n := load_cut (Py.fgt (memory_percent t) (Py.float_of_int 80)) 7 10 n in
  let n := rule_low_ram (memory_gb t) n in
  Z.max 1 (Z.min n 32).

Lemma load_cut_range (over : bool) (num den n : Z) :
  0 < num <= den -> 1 <= n <= 16 -> 1 <= load_cut over num den n <= 16.
Proof.
  intros Hf Hn. unfold load_cut. destruct over; [| lia].
  assert (num * n / den <= n) by (apply Z.div_le_upper_bound; nia). lia.
Qed.

Lemma load_cut_mono (over : bool) (num den n n' : Z) :
  0 < den -> 0 <= num -> n <= n' -> load_cut over num den n <= load_cut over num den n'.
Proof.
  intros Hd Hnum Hn. unfold load_cut. destruct over; [| lia].
  assert (num * n / den <= num * n' / den) by (apply Z.div_le_mono; nia). lia.
Qed.

Lemma rule_load_cut (load bound : spec_float) (n : Z) :
  1 <= n <= 16 ->
  rule_load load bound Py.lit_0_6 n = Some (load_cut (Py.fgt load bound) 3 5 n) /\
  rule_load load bound Py.lit_0_7 n = Some (load_cut (Py.fgt load bound) 7 10 n).
Proof.
  intros Hn. unfold rule_load, load_cut.
  rewrite int_times_0_6, int_times_0_7 by done.
  by destruct (Py.fgt load bound).
Qed.

Lemma optimize_try_integer (t : Telemetry) (total_files requested : Z) :
  0 < requested -> 0 <= total_files ->
  optimize_try t total_files requested = Some (integer_rules t total_files requested).
Proof.
  intros Hr Hf. unfold optimize_try, integer_rules. cbv zeta.
  pose proof (rule_files_range total_files requested Hr Hf) as H1.
  pose proof (cpu_limit_range t) as HL.
  destruct (rule_cpu_limit_range (cpu_limit t) (rule_files total_files requested))
    as [H2 _]; [lia | lia |].
  set (n2 := rule_cpu_limit _ _) in *.
  destruct (rule_load_cut (cpu_percent t) (Py.float_of_int 70) n2) as [-> _];
    [lia |].
  cbn [mbind option_bind].
  pose proof (load_cut_range (Py.fgt (cpu_percent t) (Py.float_of_int 70)) 3 5 n2)
    as H3.
  destruct (rule_load_cut (memory_percent t) (Py.float_of_int 80)
              (load_cut (Py.fgt (cpu_percent t) (Py.float_of_int 70)) 3 5 n2))
    as [_ ->]; [lia |].
  reflexivity.
Qed.

Lemma rule_files_mono (total_files total_files' requested requested' : Z) :
  0 < requested -> 0 <= total_files ->
  total_files <= total_files' -> requested <= requested' ->
  rule_files total_files requested <= rule_files total_files' requested'.
Proof.
  intros Hr Hf Ht Hq. unfold rule_files.
  assert (total_files / 2 <= total_files' / 2) by (apply Z.div_le_mono; lia).
  destruct (Z.ltb_spec total_files (requested * 2)),
           (Z.ltb_spec total_files' (requested' * 2)); try lia.
  - assert (total_files / 2 < requested) by (apply Z.div_lt_upper_bound; lia). lia.
  - assert (requested <= total_files / 2) by (apply Z.div_le_lower_bound; lia). lia.
Qed.

Lemma integer_rules_mono (t : Telemetry)
    (total_files total_files' requested requested' : Z) :
  0 < requested -> 0 <= total_files ->
  total_files <= total_files' -> requested <= requested' ->
  integer_rules t total_files requested <= integer_rules t total_files' requested'.
Proof.
  intros Hr Hf Ht Hq. unfold integer_rules. cbv zeta.
  pose proof (rule_files_mono _ _ _ _ Hr Hf Ht Hq) as H1.
  set (a := rule_files total_files requested) in *.
  set (a' := rule_files total_files' requested') in *.
  assert (H2 : rule_cpu_limit (cpu_limit t) a <= rule_cpu_limit (cpu_limit t) a').
  { unfold rule_cpu_limit.
    destruct (Z.ltb_spec (cpu_limit t) a), (Z.ltb_spec (cpu_limit t) a'); lia. }
  set (b := rule_cpu_limit (cpu_limit t) a) in *.
  set (b' := rule_cpu_limit (cpu_limit t) a') in *.
  pose proof (load_cut_mono (Py.fgt (cpu_percent t) (Py.float_of_int 70)) 3 5 b b')
    as H3.
  set (c := load_cut _ 3 5 b) in *. set (c' := load_cut _ 3 5 b') in *.
  pose proof (load_cut_mono (Py.fgt (memory_percent t) (Py.float_of_int 80)) 7 10 c c')
    as H4.
  set (d := load_cut _ 7 10 c) in *. set (d' := load_cut _ 7 10 c') in *.
  assert (H5 : rule_low_ram (memory_gb t) d <= rule_low_ram (memory_gb t) d').
  { unfold rule_low_ram. destruct (Py.flt _ _); lia. }
  lia.
Qed.

(** X2: with the optimisation on and psutil answering, the binary64
    products of the load rules never differ from integer arithmetic: the
    answer for a request above zero is the rules applied with
    [3 * n / 5] and [7 * n / 10] rounded down; and under the same
    telemetry, more files or a larger request never give a smaller
    count. *)
Theorem optimize_thread_count_integer (env : Env) (t : Telemetry)
    (total_files total_files' requested requested' : Z) :
  enable_optimization env = true -> PSUTIL_AVAILABLE env = true ->
  psutil env = Some t ->
  0 < requested -> 0 <= total_files ->
  _optimize_thread_count env total_files requested
  = integer_rules t total_files requested /\
  (total_files <= total_files' -> requested <= requested' ->
   _optimize_thread_count env total_files requested
   <= _optimize_thread_count env total_files' requested').
Proof.
  intros Hen Hav Hps Hr Hf.
  assert (E : forall f r, 0 < r -> 0 <= f ->
            _optimize_thread_count env f r = integer_rules t f r).
  { intros f r Hr' Hf'. unfold _optimize_thread_count. rewrite Hen, Hav, Hps.
    cbn [negb orb mbind option_bind]. by rewrite optimize_try_integer. }
  split; [by apply E |].
  intros Ht Hq. rewrite !E by lia. by apply integer_rules_mono.
Qed.

(** The theorem on the busy host: eight threads asked for 100 files are
    cut to [max(2, 3 * 8 / 5) = 4]. *)
Lemma optimize_thread_count_integer_witness :
  _optimize_thread_count busy_host 100 8 = 4.
Proof.
  destruct (optimize_thread_count_integer busy_host
              {| cpu_count_logical := Some 8%N;
                 cpu_percent := Py.float_of_int 90;
                 memory_percent := Py.float_of_int 50;
                 memory_total := 16 * 1024 ^ 3 |} 100 100 8 8)
    as [E _]; [reflexivity | reflexivity | reflexivity | lia | lia |].
  rewrite E. vm_compute. reflexivity.
Defined.

End GovernorCeilings.

(** ** More on the scheduler *)

Module ChunkSizes.
Import Scheduler SchedulerFacts.
Local Open Scope nat_scope.

Section Sizes.
Context {A : Type}.
Implicit Types (files : list A).

Lemma submit_at_None files t i :
  length files <= i * chunk_size (length files) t -> submit_at files t i = None.
Proof.
  intros H. unfold submit_at. cbv zeta.
  destruct (Nat.ltb_spec (i * chunk_size (length files) t)
              (min (i * chunk_size (length files) t + chunk_size (length files) t)
                   (length files))); [lia | done].
Qed.

Lemma submit_loop_done files t i n :
  length files <= i * chunk_size (length files) t ->
  omap (submit_at files t) (seq i n) = [].
Proof.
  revert i. induction n as [| n IH]; intros i H; [done |].
  cbn [seq omap list_omap]. rewrite submit_at_None by done. apply IH. lia.
Qed.

(** The chunk at place [k] of the loop started at [i] is the one of round
    [i + k]: no round is skipped before the list is used up. *)
Lemma submit_loop_lookup files t i n k c :
  1 <= chunk_size (length files) t ->
  omap (submit_at files t) (seq i n) !! k = Some c ->
  submit_at files t (i + k) = Some c.
Proof.
  intros Hsz. revert i k. induction n as [| n IH]; intros i k; [done |].
  cbn [seq omap list_omap]. destruct (submit_at files t i) as [d |] eqn:E.
  - destruct k as [| k]; simpl.
    + intros [= <-]. by rewrite Nat.add_0_r.
    + intros H. apply IH in H. by replace (i + S k) with (S i + k) by lia.
  - assert (Hdone : length files <= i * chunk_size (length files) t).
    { unfold submit_at in E. cbv zeta in E.
      destruct (Nat.ltb_spec (i * chunk_size (length files) t)
                  (min (i * chunk_size (length files) t
                        + chunk_size (length files) t) (length files)));
        [done | lia]. }
    rewrite (submit_loop_done files t (S i) n) by lia.
    by rewrite lookup_nil.
Qed.

Lemma submitted_chunks_lookup files t k c :
  1 <= t -> submitted_chunks files t !! k = Some c -> submit_at files t k = Some c.
Proof.
  intros Ht. unfold submitted_chunks.
  destruct (Nat.eqb_spec (length files) 0) as [E0 | E0]; [by rewrite lookup_nil |].
  intros Hk. apply (submit_loop_lookup files t 0 t k c); [| done].
  apply chunk_size_pos; lia.
Qed.

Lemma submitted_chunks_total files t c :
  1 <= t -> c ∈ submitted_chunks files t -> total_files c = length files.
Proof.
  intros Ht Hc. apply list_elem_of_lookup in Hc as [k Hk].
  apply submitted_chunks_lookup in Hk; [| done].
  unfold submit_at in Hk. cbv zeta in Hk.
  destruct (_ <? _); [| done]. by injection Hk as <-.
Qed.

Lemma omap_length_le {B C} (f : B -> option C) (l : list B) :
  length (omap f l) <= length l.
Proof.
  induction l as [| x l IH]; [done |].
  cbn [omap list_omap]. destruct (f x); cbn [length]; lia.
Qed.

End Sizes.

(** X3: at most [thread_count] chunks are submitted; the chunk at place
    [k] starts at index [k * chunk_size] with
    [chunk_size = ceil(total / thread_count)], is the slice of the list
    from there, carries the total, has [chunk_size] files at most, and
    every chunk but the last has exactly [chunk_size] files. *)
Theorem chunks_even {A} (files : list A) (thread_count : nat) :
  1 <= thread_count ->
  let cs := submitted_chunks files thread_count in
  let size := chunk_size (length files) thread_count in
  length cs <= thread_count /\
  forall k c, cs !! k = Some c ->
    start_index c = k * size /\
    total_files c = length files /\
    file_chunk c = slice files (k * size) (min (k * size + size) (length files)) /\
    1 <= length (file_chunk c) <= size /\
    (S k < length cs -> length (file_chunk c) = size).
Proof.
  intros Ht cs size. subst cs. unfold submitted_chunks.
  destruct (Nat.eqb_spec (length files) 0) as [E0 | E0].
  - split; [simpl; lia |]. intros k c H. by rewrite lookup_nil in H.
  - split.
    + etransitivity; [apply omap_length_le |]. by rewrite length_seq.
    + assert (Hsz : 1 <= size) by (apply chunk_size_pos; lia).
      intros k c Hk.
      assert (Hat := submit_loop_lookup files thread_count 0 thread_count k c Hsz Hk).
      change (0 + k) with k in Hat.
      unfold submit_at in Hat. cbv zeta in Hat. fold size in Hat.
      destruct (Nat.ltb_spec (k * size) (min (k * size + size) (length files)))
        as [Hlt |]; [| done].
      injection Hat as <-. simpl.
      rewrite slice_length by lia.
      repeat split; try lia.
      intros Hnext.
      destruct (lookup_lt_is_Some_2 _ _ Hnext) as [d Hd].
      assert (Hatd := submit_loop_lookup files thread_count 0 thread_count (S k) d Hsz Hd).
      change (0 + S k) with (S k) in Hatd.
      unfold submit_at in Hatd. cbv zeta in Hatd. fold size in Hatd.
      destruct (Nat.ltb_spec (S k * size)
                  (min (S k * size + size) (length files))); [| done].
      lia.
Qed.

(** The theorem on seven files and three workers: chunks of 3, 3 and 1. *)
Lemma chunks_even_witness :
  length (submitted_chunks [1; 2; 3; 4; 5; 6; 7] 3) <= 3 /\
  (fun c => (start_index c, length (file_chunk c)))
    <$> submitted_chunks [1; 2; 3; 4; 5; 6; 7] 3 = [(0, 3); (3, 3); (6, 1)].
Proof.
  split; [| reflexivity].
  exact (proj1 (chunks_even [1; 2; 3; 4; 5; 6; 7] 3 (le_S 1 2 (le_S 1 1 (le_n 1))))).
Defined.

End ChunkSizes.

(** ** More on the document classifier *)

Module AnalyzerOrder.
Import Str Analyzer AnalyzerFacts.
Local Open Scope nat_scope.

(** *** Counters, continued *)

Section CounterOrder.
Context {K : Type} `{EqDecision K}.
Implicit Types (c : list (K * nat)) (l : list K) (k : K).

Lemma counter_incr_keys k c :
  fst <$> counter_incr k c
  = if decide (k ∈ fst <$> c) then fst <$> c else (fst <$> c) ++ [k].
Proof.
  induction c as [| [k' n] c IH].
  - case_decide as Hin; [by apply elem_of_nil in Hin | done].
  - cbn [counter_incr]. destruct (decide (k = k')) as [-> | Hne].
    + rewrite decide_True; [done | rewrite fmap_cons; left].
    + rewrite !fmap_cons, IH. cbn [fst].
      destruct (decide (k ∈ fst <$> c)) as [Hin | Hout].
      * rewrite decide_True; [done | by right].
      * rewrite decide_False; [done |].
        rewrite not_elem_of_cons. done.
Qed.

Lemma counter_foldl_keys l c :
  NoDup (fst <$> c) ->
  NoDup (fst <$> foldl (fun c k => counter_incr k c) c l) /\
  forall x, x ∈ fst <$> foldl (fun c k => counter_incr k c) c l
            <-> x ∈ fst <$> c \/ x ∈ l.
Proof.
  revert c. induction l as [| k l IH]; intros c Hnd; cbn [foldl].
  - split; [done |]. intros x. rewrite elem_of_nil. tauto.
  - assert (Hnd' : NoDup (fst <$> counter_incr k c)).
    { rewrite counter_incr_keys. destruct (decide (k ∈ fst <$> c)); [done |].
      apply NoDup_app. repeat split; [done | | apply NoDup_singleton].
      intros x Hx Hk. apply list_elem_of_singleton in Hk. by subst. }
    destruct (IH _ Hnd') as [H1 H2]. split; [done |].
    intros x. rewrite H2, counter_incr_keys, elem_of_cons.
    destruct (decide (k ∈ fst <$> c)) as [Hin | Hout].
    + split; [tauto |]. intros [? | [-> | ?]]; auto.
    + rewrite elem_of_app, list_elem_of_singleton. tauto.
Qed.

(** The keys of [Counter(l)] are the elements of [l], each once. *)
Lemma Counter_keys l :
  NoDup (fst <$> Counter l) /\ forall x, x ∈ fst <$> Counter l <-> x ∈ l.
Proof.
  destruct (counter_foldl_keys l []) as [H1 H2]; [constructor |].
  split; [exact H1 |]. intros x. unfold Counter. rewrite H2. simpl.
  rewrite elem_of_nil. tauto.
Qed.

Lemma counter_get_elem c k n :
  NoDup (fst <$> c) -> (k, n) ∈ c -> counter_get c k = n.
Proof.
  induction c as [| [k' n'] c IH]; intros Hnd Hin; [by apply elem_of_nil in Hin |].
  rewrite fmap_cons in Hnd. apply NoDup_cons in Hnd as [Hk' Hnd].
  cbn [counter_get]. apply elem_of_cons in Hin as [[= -> ->] | Hin].
  - by rewrite decide_True.
  - destruct (decide (k = k')) as [-> | Hne]; [| by apply IH].
    exfalso. apply Hk'. apply list_elem_of_fmap. by exists (k', n).
Qed.

(** An entry of [Counter(l)] holds the number of times its key stands in
    [l]. *)
Lemma Counter_entry l k n : (k, n) ∈ Counter l -> n = occurrences k l.
Proof.
  intros Hin. destruct (Counter_keys l) as [Hnd _].
  rewrite <- (counter_get_Counter l k). symmetry. by apply counter_get_elem.
Qed.

Lemma insert_by_count_perm (x : K * nat) c : insert_by_count x c ≡ₚ x :: c.
Proof.
  induction c as [| y c IH]; [done |]. cbn [insert_by_count].
  destruct (snd y <? snd x); [done |]. rewrite IH. apply Permutation_swap.
Qed.

Lemma sorted_perm c acc :
  foldl (fun acc x => insert_by_count x acc) acc c ≡ₚ acc ++ c.
Proof.
  revert acc. induction c as [| x c IH]; intros acc; cbn [foldl].
  - by rewrite app_nil_r.
  - rewrite IH, insert_by_count_perm. cbn [app]. apply Permutation_middle.
Qed.

Lemma filter_all {A} (P : A -> Prop) `{forall x, Decision (P x)} (l : list A) :
  Forall P l -> filter P l = l.
Proof.
  induction 1 as [| x l Hx _ IH]; [done |].
  by rewrite filter_cons, decide_True, IH.
Qed.

(** The first entry holds a largest count. *)
Definition head_max c : Prop :=
  match c with
  | [] => True
  | x :: r => Forall (fun y => snd y <= snd x) r
  end.

Lemma insert_head_max (x : K * nat) c : head_max c -> head_max (insert_by_count x c).
Proof.
  destruct c as [| y c]; [constructor |]. cbn [insert_by_count head_max].
  intros H. destruct (Nat.ltb_spec (snd y) (snd x)) as [Hlt | Hge].
  - constructor; [lia |]. eapply Forall_impl; [exact H |]. simpl. lia.
  - cbn [head_max]. rewrite insert_by_count_perm. by constructor.
Qed.

Lemma sorted_head_max c acc :
  head_max acc -> head_max (foldl (fun acc x => insert_by_count x acc) acc c).
Proof.
  revert acc. induction c as [| x c IH]; intros acc H; cbn [foldl]; [done |].
  by apply IH, insert_head_max.
Qed.

(** An entry that is no larger than the ones before it goes to the end. *)
Lemma insert_by_count_snoc (x : K * nat) c :
  Forall (fun y => snd x <= snd y) c -> insert_by_count x c = c ++ [x].
Proof.
  induction 1 as [| y c Hy _ IH]; [done |]. cbn [insert_by_count].
  destruct (Nat.ltb_spec (snd y) (snd x)); [lia |]. by rewrite IH.
Qed.

Lemma counter_incr_new k c : k ∉ fst <$> c -> counter_incr k c = c ++ [(k, 1)].
Proof.
  induction c as [| [k' n] c IH]; [done |]. rewrite fmap_cons, not_elem_of_cons.
  intros [Hne Hk]. cbn [counter_incr]. rewrite decide_False by done.
  by rewrite IH.
Qed.

(** [Counter] of a list without repetition: every element once, in the
    order of the list; and sorting it by count changes nothing. *)
Lemma Counter_NoDup l : NoDup l -> Counter l = (fun k => (k, 1)) <$> l.
Proof.
  intros Hnd. unfold Counter.
  assert (G : forall pre, NoDup (pre ++ l) ->
    foldl (fun c k => counter_incr k c) ((fun k => (k, 1)) <$> pre) l
    = (fun k => (k, 1)) <$> (pre ++ l)).
  { clear Hnd. induction l as [| k l IH]; intros pre Hnd; cbn [foldl].
    - by rewrite app_nil_r.
    - rewrite counter_incr_new.
      + change [(k, 1)] with ((fun k => (k, 1)) <$> [k]).
        rewrite <- fmap_app. rewrite (IH (pre ++ [k])); rewrite <- app_assoc; done.
      + rewrite <- list_fmap_compose.
        rewrite (list_fmap_ext _ id pre) by done. rewrite list_fmap_id.
        apply NoDup_app in Hnd as (_ & Hd & _). intros Hin.
        apply (Hd k Hin). left. }
  apply (G []). done.
Qed.

Lemma sorted_ones l :
  foldl (fun acc x => insert_by_count x acc) [] ((fun k : K => (k, 1)) <$> l)
  = (fun k => (k, 1)) <$> l.
Proof.
  assert (G : forall pre,
    foldl (fun acc x => insert_by_count x acc) ((fun k : K => (k, 1)) <$> pre)
          ((fun k : K => (k, 1)) <$> l)
    = (fun k => (k, 1)) <$> (pre ++ l)).
  { induction l as [| k l IH]; intros pre.
    - by rewrite app_nil_r.
    - rewrite fmap_cons. cbn [foldl]. rewrite insert_by_count_snoc.
      + change [(k, 1)] with ((fun k => (k, 1)) <$> [k]).
        rewrite <- fmap_app, (IH (pre ++ [k])), <- app_assoc. done.
      + apply Forall_fmap, Forall_forall. intros; simpl. lia. }
  apply (G []).
Qed.

(** What [analyze_content] makes of the categories that were named: the
    main category and the related ones. *)
Definition ranking (all_categories : list K) : option (K * list K) :=
  let category_counter := Counter all_categories in
  match most_common 1 category_counter with
  | (main_category, _) :: _ =>
      Some (main_category,
            filter (fun cat => cat <> main_category)
                   (fst <$> (most_common 3 category_counter)))
  | [] => None
  end.

Lemma ranking_spec (all_categories : list K) :
  all_categories <> [] ->
  exists main related,
    ranking all_categories = Some (main, related) /\
    (main ∈ all_categories) /\
    (forall cat, occurrences cat all_categories <= occurrences main all_categories) /\
    length related <= 2 /\ NoDup related /\ (main ∉ related) /\
    (forall cat, cat ∈ related -> cat ∈ all_categories).
Proof.
  intros Hne. unfold ranking, most_common. cbv zeta.
  set (c := Counter all_categories).
  set (sorted := foldl (fun acc x => insert_by_count x acc) [] c).
  assert (Hperm : sorted ≡ₚ c) by apply (sorted_perm c []).
  assert (Hmax : head_max sorted) by (by apply sorted_head_max).
  destruct (Counter_keys all_categories) as [Hnd Hkeys]. fold c in Hnd, Hkeys.
  assert (Hnd' : NoDup (fst <$> sorted)) by (by rewrite Hperm).
  assert (Hin : forall k n, (k, n) ∈ sorted ->
                  k ∈ all_categories /\ n = occurrences k all_categories).
  { intros k n Hk. rewrite Hperm in Hk. split.
    - apply Hkeys. apply list_elem_of_fmap. by exists (k, n).
    - by apply Counter_entry. }
  destruct sorted as [| [main n] rest] eqn:Es.
  { exfalso. destruct all_categories as [| a l]; [done |].
    assert (Ha : a ∈ fst <$> c) by (apply Hkeys; left).
    rewrite <- Hperm in Ha. by apply elem_of_nil in Ha. }
  destruct (Hin main n) as [Hmain Hn]; [left |].
  rewrite fmap_cons in Hnd'. apply NoDup_cons in Hnd' as [Hfresh Hnd'].
  cbn [take fmap list_fmap fst]. rewrite filter_cons, decide_False by tauto.
  assert (Hsub : forall cat, cat ∈ fst <$> take 2 rest -> cat ∈ fst <$> rest).
  { intros cat Hc. apply list_elem_of_fmap in Hc as (e & -> & He).
    apply list_elem_of_fmap. exists e. split; [done |].
    by apply (subseteq_take 2 rest). }
  rewrite filter_all.
  2:{ apply Forall_forall. intros cat Hc -> . by apply Hfresh, Hsub. }
  exists main, (fst <$> take 2 rest). split; [done |]. split; [done |].
  split; [| split; [| split; [| split]]].
  - intros cat. destruct (decide (cat ∈ all_categories)) as [Hcat | Hcat];
      [| rewrite (occurrences_zero cat) by done; lia].
    apply Hkeys in Hcat. rewrite <- Hperm in Hcat.
    apply list_elem_of_fmap in Hcat as ([cat' m] & -> & Hcat). cbn [fst].
    destruct (Hin _ _ Hcat) as [_ <-]. rewrite <- Hn.
    apply elem_of_cons in Hcat as [[= -> ->] | Hcat]; [done |].
    cbn [head_max] in Hmax. rewrite Forall_forall in Hmax.
    apply (Hmax _ Hcat).
  - rewrite length_fmap, length_take. lia.
  - rewrite fmap_take. rewrite <- (take_drop 2 (fst <$> rest)) in Hnd'.
    by apply NoDup_app in Hnd' as [H _].
  - intros Hc. by apply Hfresh, Hsub.
  - intros cat Hc. apply Hsub in Hc.
    apply list_elem_of_fmap in Hc as ([cat' m] & -> & Hc).
    apply (Hin cat' m). by right.
Qed.

Lemma ranking_nil : ranking [] = None.
Proof. reflexivity. Qed.

(** Over distinct categories every count is one and the ranking keeps the
    order of the list. *)
Lemma ranking_NoDup (main : K) (rest : list K) :
  NoDup (main :: rest) -> ranking (main :: rest) = Some (main, take 2 rest).
Proof.
  intros Hnd. unfold ranking, most_common. cbv zeta.
  rewrite (Counter_NoDup _ Hnd), sorted_ones.
  apply NoDup_cons in Hnd as [Hfresh Hnd].
  rewrite fmap_cons. cbn [take fmap list_fmap fst].
  rewrite filter_cons, decide_False by tauto.
  rewrite <- fmap_take, <- list_fmap_compose.
  rewrite (list_fmap_ext _ id (take 2 rest)) by done. rewrite list_fmap_id.
  rewrite filter_all; [done |].
  apply Forall_forall. intros cat Hc ->. apply Hfresh.
  by apply (subseteq_take 2 rest).
Qed.

End CounterOrder.

Section Ranks.
Variable U : Unicode.
Context {S : Type}.
Implicit Types (self : DocumentAnalyzer S) (text : pystr) (σ : S).

(** The text is too short to be analysed. *)
Definition insufficient text : bool :=
  bool_decide (text = []) || (length (strip U text) <? 20).

(** [analyze_content] in terms of the categories that were named. *)
Lemma analyze_content_ranking self σ text :
  fst (analyze_content U self σ text)
  = if insufficient text then (u "Diğer_Belgeler", [], u "İçerik yetersiz")
    else
      match ranking (_keyword_analysis U self text ++ ai_categories_of self σ text) with
      | Some (main, related) => (main, related, _create_summary U text)
      | None =>
          match _keyword_analysis U self text ++ ai_categories_of self σ text with
          | [] => (u "Diğer_Belgeler", [], _create_summary U text)
          | _ => (u "Diğer_Belgeler", [], u "Analiz hatası")
          end
      end.
Proof.
  unfold analyze_content, insufficient, ai_categories_of, ranking.
  destruct (bool_decide (text = []) || (length (strip U text) <? 20))%bool; [done |].
  assert (G : forall (a : list pystr) (σ' : S),
    fst (match _keyword_analysis U self text ++ a with
         | [] => (u "Diğer_Belgeler", [], _create_summary U text, σ')
         | _ :: _ =>
             match most_common 1 (Counter (_keyword_analysis U self text ++ a)) with
             | [] => (u "Diğer_Belgeler", [], u "Analiz hatası", σ')
             | (main_category, _) :: _ =>
                 (main_category,
                  filter (fun cat => cat <> main_category)
                    (fst <$> most_common 3
                               (Counter (_keyword_analysis U self text ++ a))),
                  _create_summary U text, σ')
             end
         end)
    = match
        (let category_counter := Counter (_keyword_analysis U self text ++ a) in
         match most_common 1 category_counter with
         | [] => None
         | (main_category, _) :: _ =>
             Some (main_category,
                   filter (fun cat => cat <> main_category)
                     (fst <$> most_common 3 category_counter))
         end)
      with
      | Some (main, related) => (main, related, _create_summary U text)
      | None =>
          match _keyword_analysis U self text ++ a with
          | [] => (u "Diğer_Belgeler", [], _create_summary U text)
          | _ :: _ => (u "Diğer_Belgeler", [], u "Analiz hatası")
          end
      end).
  { intros a σ'. cbv zeta.
    destruct (_keyword_analysis U self text ++ a) as [| x l] eqn:E; [done |].
    destruct (most_common 1 (Counter (x :: l))) as [| [m n] r]; done. }
  destruct (initialized self && (100 <? length text))%bool.
  - destruct (_ai_analysis self σ text) as [a σ']. apply G.
  - apply G.
Qed.

End Ranks.

(** X4: in the answer of [analyze_content] there are two related
    categories at most, they are distinct and never the main category, and
    each of them was named by the keyword analysis or by the model; and
    when the text is long enough and a category was named, the main
    category is one that was named, and none was named more often. *)
Theorem analyze_content_ranks (U : Unicode) {S} (self : DocumentAnalyzer S)
    (σ : S) (text : pystr) :
  let named := _keyword_analysis U self text ++ ai_categories_of self σ text in
  let main := fst (fst (fst (analyze_content U self σ text))) in
  let related := snd (fst (fst (analyze_content U self σ text))) in
  length related <= 2 /\ NoDup related /\ (main ∉ related) /\
  (forall cat, cat ∈ related -> cat ∈ named) /\
  (insufficient U text = false -> named <> [] ->
   (main ∈ named) /\
   forall cat, occurrences cat named <= occurrences main named) /\
  (insufficient U text = true \/ named = [] ->
   main = u "Diğer_Belgeler" /\ related = []).
Proof.
  intros named main related. subst main related.
  rewrite analyze_content_ranking. fold named.
  destruct (insufficient U text).
  { cbn [fst snd length].
    repeat split; try done; try lia; try constructor;
      try apply not_elem_of_nil; try (intros cat Hc; by apply elem_of_nil in Hc). }
  destruct (decide (named = [])) as [E | Hne].
  { rewrite E, ranking_nil. cbn [fst snd length].
    repeat split; try done; try lia; try constructor;
      try apply not_elem_of_nil; try (intros cat Hc; by apply elem_of_nil in Hc). }
  destruct (ranking_spec named Hne)
    as (main & related & -> & Hmain & Hmax & Hlen & Hnd & Hfresh & Hsub).
  cbn [fst snd].
  split; [done |]. split; [done |]. split; [done |]. split; [done |].
  split; [done |]. by intros [? | ?].
Qed.

(** X5: when no model is loaded, or the text has 100 characters or fewer,
    the model is not called (its state is left as it is); and when the
    table names each category once, the main category of a text that is
    long enough is then the first category of the table whose keywords
    score two or more, and the related categories are the next two such
    categories, in the order of the table. *)
Theorem analyze_content_table_order (U : Unicode) {S} (self : DocumentAnalyzer S)
    (σ : S) (text : pystr) :
  NoDup (fst <$> categories self) ->
  initialized self = false \/ length text <= 100 ->
  insufficient U text = false ->
  fst (analyze_content U self σ text)
  = match _keyword_analysis U self text with
    | [] => (u "Diğer_Belgeler", [], _create_summary U text)
    | main :: rest => (main, take 2 rest, _create_summary U text)
    end /\
  snd (analyze_content U self σ text) = σ.
Proof.
  intros Hnd Hno Hlong. split.
  2:{ unfold analyze_content. unfold insufficient in Hlong. rewrite Hlong.
      assert (Hcond : (initialized self && (100 <? length text))%bool = false).
      { destruct Hno as [-> | Hlen]; [done |].
        destruct (Nat.ltb_spec 100 (length text)); [lia |]. by rewrite andb_false_r. }
      rewrite Hcond.
      destruct (_keyword_analysis U self text ++ []); [done |].
      by destruct (most_common 1 _) as [| [m n] ?]. }
  rewrite analyze_content_ranking, Hlong.
  assert (Hai : ai_categories_of self σ text = []).
  { unfold ai_categories_of.
    destruct Hno as [-> | Hlen]; [done |].
    destruct (Nat.ltb_spec 100 (length text)); [lia |]. by rewrite andb_false_r. }
  rewrite Hai, app_nil_r.
  assert (Hk : NoDup (_keyword_analysis U self text)).
  { rewrite keyword_analysis_filter. eapply sublist_NoDup; [exact Hnd |].
    apply fmap_sublist, sublist_filter. }
  destruct (_keyword_analysis U self text) as [| main rest]; [done |].
  by rewrite ranking_NoDup.
Qed.

(** The theorem on the table of the source, which has no model: a note
    about an invoice and a contract. *)
Definition invoice_and_contract : pystr :=
  u "Fatura ve ödeme: sözleşme, dava, avukat; rapor ve toplantı raporu.".

Lemma analyze_content_table_order_witness :
  fst (analyze_content latin keyword_only tt invoice_and_contract)
  = match _keyword_analysis latin keyword_only invoice_and_contract with
    | [] => (u "Diğer_Belgeler", [], _create_summary latin invoice_and_contract)
    | main :: rest => (main, take 2 rest, _create_summary latin invoice_and_contract)
    end /\
  snd (analyze_content latin keyword_only tt invoice_and_contract) = tt.
Proof.
  apply (analyze_content_table_order latin keyword_only tt invoice_and_contract).
  - apply (bool_decide_unpack (NoDup (fst <$> categories keyword_only))).
    vm_compute. exact I.
  - by left.
  - vm_compute. reflexivity.
Defined.

(** X6: the keyword analysis names categories of the table only, in the
    order of the table and each entry of the table once at most; a keyword
    that is a stop word adds nothing to the score of its category. *)
Theorem keyword_analysis_table_order (U : Unicode) {S} (self : DocumentAnalyzer S)
    (text : pystr) :
  _keyword_analysis U self text `sublist_of` (fst <$> categories self) /\
  length (_keyword_analysis U self text) <= length (categories self) /\
  (forall keyword, keyword ∈ turkish_stopwords self ->
                   credit U self text keyword = 0).
Proof.
  assert (Hsub : _keyword_analysis U self text `sublist_of` (fst <$> categories self)).
  { rewrite keyword_analysis_filter. apply fmap_sublist, sublist_filter. }
  split; [done |]. split.
  - apply sublist_length in Hsub. by rewrite length_fmap in Hsub.
  - intros keyword Hstop.
    destruct (Nat.eq_0_gt_0_cases (credit U self text keyword)) as [E | Hpos]; [done |].
    by destruct (credit_pos U self text keyword Hpos) as (_ & Hns & _).
Qed.

End AnalyzerOrder.

(** ** More on the summary *)

Module SummaryFacts.
Import Str Analyzer.
Local Open Scope nat_scope.

Section Summary.
Variable U : Unicode.

Lemma lstrip_length (s : pystr) : length (lstrip U s) <= length s.
Proof.
  induction s as [| c s IH]; [done |]. cbn [lstrip].
  destruct (is_space U c); cbn [length]; lia.
Qed.

Lemma rstrip_length (s : pystr) : length (rstrip U s) <= length s.
Proof.
  unfold rstrip. rewrite length_rev.
  etransitivity; [apply lstrip_length |]. by rewrite length_rev.
Qed.

Lemma strip_length (s : pystr) : length (strip U s) <= length s.
Proof.
  unfold strip. etransitivity; [apply rstrip_length | apply lstrip_length].
Qed.

(** What [lstrip] leaves is an end of the string. *)
Lemma lstrip_suffix (s : pystr) : exists pre, s = pre ++ lstrip U s.
Proof.
  induction s as [| c s [pre IH]]; [by exists [] |]. cbn [lstrip].
  destruct (is_space U c); [| by exists []].
  exists (c :: pre). cbn [app]. by f_equal.
Qed.

(** A string that ends with a space loses a character at least. *)
Lemma strip_trailing_space (s : pystr) :
  is_space U 32 = true -> length (strip U (s ++ [32%N])) <= length s.
Proof.
  intros Hsp. unfold strip.
  destruct (lstrip_suffix (s ++ [32%N])) as [pre E].
  destruct (lstrip U (s ++ [32%N])) as [| c t] eqn:El using rev_ind.
  - cbn. lia.
  - clear IHt. rewrite app_assoc in E. apply app_inj_tail in E as [E <-].
    unfold rstrip. rewrite rev_unit. cbn [lstrip]. rewrite Hsp, length_rev.
    etransitivity; [apply lstrip_length |]. rewrite length_rev.
    rewrite E, length_app. lia.
Qed.

(** The loop leaves the empty string, or a string of 151 characters at
    most that ends with a full stop and a space. *)
Definition loop_invariant (summary : pystr) : Prop :=
  summary = [] \/ (length summary <= 151 /\ exists a, summary = a ++ u ". ").

Lemma summary_loop_invariant (sentences : list pystr) (summary : pystr) :
  loop_invariant summary -> loop_invariant (summary_loop 150 sentences summary).
Proof.
  revert summary. induction sentences as [| s rest IH]; intros summary H; [done |].
  cbn [summary_loop].
  destruct (Nat.ltb_spec (length summary + length s) 150) as [Hlt | Hge]; [| done].
  apply IH. right. split.
  - rewrite !length_app. change (length (u ". ")) with 2. lia.
  - exists (summary ++ s). by rewrite app_assoc.
Qed.

Lemma summary_loop_stripped (sentences : list pystr) :
  is_space U 32 = true ->
  length (strip U (summary_loop 150 sentences [])) <= 150.
Proof.
  intros Hsp.
  destruct (summary_loop_invariant sentences []) as [-> | [Hlen [a E]]]; [by left | |].
  - cbn. lia.
  - rewrite E in *. change (u ". ") with ([46%N] ++ [32%N]) in *.
    rewrite app_assoc in *.
    etransitivity; [by apply strip_trailing_space |].
    rewrite !length_app in *. simpl in *. lia.
Qed.

(** The sentences that the summary is made of. *)
Definition valid_sentences (text : pystr) : list pystr :=
  strip U <$> filter (fun s => 10 < length (strip U s)) (split_sentences text).

Lemma create_summary_valid (text : pystr) :
  valid_sentences text <> [] ->
  _create_summary U text
  = let summary := strip U (summary_loop 150 (take 3 (valid_sentences text)) []) in
    if 150 <? length summary then take 150 summary ++ u "..." else summary.
Proof.
  intros Hne. unfold _create_summary. cbv zeta. fold (valid_sentences text).
  destruct text as [| c text].
  - exfalso. apply Hne. unfold valid_sentences. cbn [split_sentences split_sentences_from rev].
    rewrite filter_cons, filter_nil. by rewrite decide_False by (cbn; lia).
  - by destruct (valid_sentences (c :: text)).
Qed.

End Summary.

(** X7: a summary never has more than 153 characters; when the text has a
    sentence of more than 10 characters the summary is made of such
    sentences, has 150 characters at most and is never cut; and when the
    first such sentence has 150 characters or more the summary is
    empty. *)
Theorem create_summary_bounds (U : Unicode) (text : pystr) :
  length (_create_summary U text) <= 153 /\
  (is_space U 32 = true -> valid_sentences U text <> [] ->
   _create_summary U text
   = strip U (summary_loop 150 (take 3 (valid_sentences U text)) []) /\
   length (_create_summary U text) <= 150) /\
  (forall sentence rest,
     valid_sentences U text = sentence :: rest -> 150 <= length sentence ->
     _create_summary U text = []).
Proof.
  assert (Hcut : forall s : pystr,
            length (if 150 <? length s then take 150 s ++ u "..." else s) <= 153).
  { intros s. destruct (Nat.ltb_spec 150 (length s)); [| lia].
    rewrite length_app, length_take. change (length (u "...")) with 3. lia. }
  split; [| split].
  - destruct (decide (valid_sentences U text = [])) as [E | Hne].
    + unfold _create_summary. cbv zeta. fold (valid_sentences U text). rewrite E.
      destruct text as [| c text]; [cbn; lia | apply Hcut].
    + rewrite create_summary_valid by done. apply Hcut.
  - intros Hsp Hne. rewrite create_summary_valid by done. cbv zeta.
    pose proof (summary_loop_stripped U (take 3 (valid_sentences U text)) Hsp) as Hlen.
    destruct (Nat.ltb_spec 150 (length (strip U (summary_loop 150
                (take 3 (valid_sentences U text)) [])))); [lia | done].
  - intros sentence rest E Hlong.
    rewrite create_summary_valid by (rewrite E; done). rewrite E. cbv zeta.
    cbn [take summary_loop length].
    destruct (Nat.ltb_spec (0 + length sentence) 150); [lia |].
    reflexivity.
Qed.

End SummaryFacts.

(** ** More on the detection of objects *)

Module DetectionFacts.
Import Str Vision.
Local Open Scope nat_scope.

(** The outer loop keeps, in the order of the vocabulary, the keywords
    that pass the test. *)
Lemma foldl_filter {A} (test : A -> bool) (l acc : list A) :
  foldl (fun objects keyword => if test keyword then objects ++ [keyword] else objects)
        acc l
  = acc ++ filter (fun keyword => test keyword = true) l.
Proof.
  revert acc. induction l as [| x l IH]; intros acc; cbn [foldl].
  - by rewrite app_nil_r.
  - rewrite IH, filter_cons. destruct (test x).
    + rewrite decide_True by done. by rewrite <- app_assoc.
    + rewrite decide_False by done. done.
Qed.

Section Detect.
Variable U : Unicode.

(** The test of the loop on one keyword. *)
Definition passes (config : Config) (caption_words : list pystr) (keyword : pystr)
  : bool :=
  match split U keyword with
  | [] => false
  | keyword_words =>
      SFleb (Py.fdiv (Py.float_of_int (object_threshold config)) (Py.float_of_int 100))
            (Py.fdiv (match_score caption_words keyword_words)
                     (Py.float_of_int (Z.of_nat (length keyword_words))))
  end.

Lemma detect_objects_filter (config : Config) (caption : pystr) :
  _detect_objects U config caption
  = take (max_objects config)
      (filter (fun keyword => passes config (split U (lower U caption)) keyword = true)
              object_keywords).
Proof.
  unfold _detect_objects. cbv zeta. f_equal.
  match goal with |- foldl ?f [] _ = _ => set (body := f) end.
  assert (G : forall l acc,
    foldl body acc l
    = acc ++ filter (fun keyword =>
                       passes config (split U (lower U caption)) keyword = true) l).
  { induction l as [| x l IH]; intros acc; cbn [foldl].
    - by rewrite app_nil_r.
    - rewrite IH, filter_cons. unfold body, passes.
      destruct (split U x) as [| w ws]; [by rewrite decide_False |].
      destruct (SFleb _ _).
      + rewrite decide_True by done. by rewrite <- app_assoc.
      + rewrite decide_False by done. done. }
  apply (G object_keywords []).
Qed.

(** *** Thresholds from 1 to 100 *)

(** The ratio of a keyword of one word: 1, a half or 0. *)
Definition ratio_exact : spec_float :=
  Py.fdiv (fadd (Py.float_of_int 0) lit_1_0) (Py.float_of_int (Z.of_nat 1)).
Definition ratio_partial : spec_float :=
  Py.fdiv (fadd (Py.float_of_int 0) lit_0_5) (Py.float_of_int (Z.of_nat 1)).
Definition ratio_none : spec_float :=
  Py.fdiv (Py.float_of_int 0) (Py.float_of_int (Z.of_nat 1)).

Definition threshold_of (percent : Z) : spec_float :=
  Py.fdiv (Py.float_of_int percent) (Py.float_of_int 100).

Definition threshold_regimes (percent : Z) : bool :=
  SFleb (threshold_of percent) ratio_exact
  && Bool.eqb (SFleb (threshold_of percent) ratio_partial) (percent <=? 50)%Z
  && negb (SFleb (threshold_of percent) ratio_none).

Lemma threshold_regimes_all (percent : Z) :
  (1 <= percent <= 100)%Z -> threshold_regimes percent = true.
Proof.
  intros H.
  assert (Hall : forallb threshold_regimes (Z.of_nat <$> seq 1 100) = true)
    by (vm_compute; reflexivity).
  rewrite forallb_forall in Hall. apply Hall.
  apply list_elem_of_In, list_elem_of_fmap. exists (Z.to_nat percent).
  split; [lia |]. apply elem_of_seq. lia.
Qed.

(** The test on a keyword of one word, for these thresholds: the keyword
    has more than three characters and is a word of the caption, or, up to
    50 percent, a part of a word of more than three characters. *)
Definition found (percent : Z) (caption_words : list pystr) (keyword : pystr) : bool :=
  (3 <? length keyword)
  && (bool_decide (keyword ∈ caption_words)
      || (percent <=? 50)%Z
         && existsb (contains keyword)
              (filter (fun word => 3 < length word) caption_words)).

Lemma passes_found (config : Config) (caption_words : list pystr) (keyword : pystr) :
  (1 <= object_threshold config <= 100)%Z ->
  split U keyword = [keyword] ->
  passes config caption_words keyword
  = found (object_threshold config) caption_words keyword.
Proof.
  intros HT Hsplit. unfold passes, found. rewrite Hsplit.
  pose proof (threshold_regimes_all _ HT) as Hreg.
  unfold threshold_regimes in Hreg.
  apply andb_true_iff in Hreg as [Hreg Hnone].
  apply andb_true_iff in Hreg as [Hexact Hpartial].
  apply Bool.eqb_prop in Hpartial. apply negb_true_iff in Hnone.
  unfold threshold_of, ratio_exact, ratio_partial, ratio_none in *.
  unfold match_score. cbn [foldl length].
  destruct (3 <? length keyword); cbn [andb]; [| exact Hnone].
  repeat case_bool_decide; try contradiction; cbn [orb]; [exact Hexact |].
  destruct (existsb _ _).
  - rewrite Hpartial. by rewrite andb_true_r.
  - rewrite Hnone. by rewrite andb_false_r.
Qed.

End Detect.

(** X8: for a threshold from 1 to 100 percent, and tables in which no
    keyword of the vocabulary holds whitespace, the objects detected are
    the first [max_objects] keywords of the vocabulary, in its order, that
    have more than three characters and are a word of the caption or, for
    a threshold of 50 or less, a part of a word of more than three
    characters of the caption; a keyword of three characters or fewer is
    never detected. *)
Theorem detect_objects_regimes (U : Unicode) (config : Config) (caption : pystr) :
  (1 <= object_threshold config <= 100)%Z ->
  Forall (fun keyword => split U keyword = [keyword]) object_keywords ->
  _detect_objects U config caption
  = take (max_objects config)
      (filter (fun keyword =>
                 found (object_threshold config) (split U (lower U caption)) keyword
                 = true)
              object_keywords) /\
  (forall keyword, keyword ∈ _detect_objects U config caption -> 3 < length keyword).
Proof.
  intros HT Hwords.
  assert (E : _detect_objects U config caption
              = take (max_objects config)
                  (filter (fun keyword =>
                             found (object_threshold config)
                                   (split U (lower U caption)) keyword = true)
                          object_keywords)).
  { rewrite detect_objects_filter. f_equal.
    induction Hwords as [| keyword l Hk _ IH]; [done |].
    rewrite !filter_cons, IH, (passes_found U config _ keyword HT Hk). done. }
  split; [exact E |].
  intros keyword Hin. rewrite E in Hin.
  apply (subseteq_take (max_objects config)) in Hin.
  apply list_elem_of_filter in Hin as [Hf _]. unfold found in Hf.
  apply andb_true_iff in Hf as [Hlen _]. by apply Nat.ltb_lt in Hlen.
Qed.

(** The theorem on a caption with a car, a bus and a truck in it: only the
    truck is detected. *)
Definition traffic : pystr := u "A car and a bus behind a red truck".

Lemma detect_objects_regimes_witness :
  _detect_objects latin default_config traffic = [u "truck"].
Proof.
  destruct (detect_objects_regimes latin default_config traffic) as [E _].
  - simpl. lia.
  - apply Forall_forall. intros keyword Hin. apply list_elem_of_In in Hin.
    vm_compute in Hin.
    repeat (destruct Hin as [<- | Hin]; [vm_compute; reflexivity |]). done.
  - rewrite E. vm_compute. reflexivity.
Defined.

(** X9: whatever the threshold and the tables, the objects detected are
    keywords of the vocabulary, in its order, and [max_objects] at most;
    the image analysis answers "Bilinmeyen" with no object when there is
    no model or the model raises. *)
Theorem detect_objects_vocabulary (U : Unicode) (config : Config)
    (ai_pipeline : option captioner) (filepath caption : pystr) :
  _detect_objects U config caption `sublist_of` object_keywords /\
  length (_detect_objects U config caption) <= max_objects config /\
  snd (_ai_analyze U config ai_pipeline filepath) `sublist_of` object_keywords /\
  length (snd (_ai_analyze U config ai_pipeline filepath)) <= max_objects config /\
  ((ai_pipeline = None \/ exists call, ai_pipeline = Some call /\ call filepath = None) ->
   _ai_analyze U config ai_pipeline filepath = (u "Bilinmeyen", [])).
Proof.
  assert (Hsub : forall c, _detect_objects U config c `sublist_of` object_keywords).
  { intros c. rewrite detect_objects_filter.
    etransitivity; [apply sublist_take | apply sublist_filter]. }
  assert (Hlen : forall c, length (_detect_objects U config c) <= max_objects config).
  { intros c. rewrite detect_objects_filter, length_take. lia. }
  split; [apply Hsub |]. split; [apply Hlen |].
  unfold _ai_analyze.
  destruct ai_pipeline as [call |]; [destruct (call filepath) as [text |] eqn:Ec |];
    cbn [snd length].
  - split; [apply Hsub |]. split; [apply Hlen |].
    intros [? | (call' & [= <-] & ?)]; congruence.
  - split; [apply sublist_nil_l |]. split; [lia | done].
  - split; [apply sublist_nil_l |]. split; [lia | done].
Qed.

End DetectionFacts.

(** ** The metadata of a document: [DocumentAnalyzer.extract_metadata] *)

Module Metadata.
Import Str Analyzer Fs.
Local Open Scope nat_scope.

(** The dictionary that is returned. (The key [son_duzenleme], the time
    of the last change, is left out: the file system of the model keeps
    no times.) *)
Record Metadata := {
  dosya_adi : pystr;
  dosya_yolu : pystr;
  dosya_boyutu : nat;
  karakter_sayisi : nat;
  kelime_sayisi : nat;
  satir_sayisi : nat;
  anahtar_kelimeler : list pystr
}.

Section Methods.
Variable U : Unicode.
Context {S : Type}.

(** The maximal runs of word characters of a string. *)
Fixpoint word_runs_from (cur : pystr) (s : pystr) : list pystr :=
  match s with
  | [] => match cur with [] => [] | _ => [rev cur] end
  | c :: s' =>
      if is_word U c then word_runs_from (c :: cur) s'
      else
        match cur with
        | [] => word_runs_from [] s'
        | _ => rev cur :: word_runs_from [] s'
        end
  end.

(** [re.findall(r'\b\w{4,}\b', s)]: a match starts where a run of word
    characters starts and takes the whole run, so the matches are the
    runs of four characters or more. *)
Definition findall_long_words (s : pystr) : list pystr :=
  filter (fun w => 4 <= length w) (word_runs_from [] s).

(** [text.count('\n')] *)
Definition count_newlines (text : pystr) : nat :=
  length (filter (fun c => c = 10%N) text).

(** [extract_metadata]; [None] for the empty dictionary that is returned
    when an exception is caught. *)
Definition extract_metadata (self : DocumentAnalyzer S) (fs : FS)
    (filepath text : pystr) : option Metadata :=
  match fs !! filepath with
  | None => None
  | Some n =>
      let words := findall_long_words (lower U text) in
      let filtered_words := filter (fun w => w ∉ turkish_stopwords self) words in
      let top_keywords := most_common 5 (Counter filtered_words) in
      Some {| dosya_adi := basename filepath;
              dosya_yolu := filepath;
              dosya_boyutu := match n with File c => getsize c | Folder => 0 end;
              karakter_sayisi := length text;
              kelime_sayisi := length (split U text);
              satir_sayisi := count_newlines text + 1;
              anahtar_kelimeler := fst <$> top_keywords |}
  end.

End Methods.

End Metadata.

Module MetadataFacts.
Import Str Analyzer Fs Metadata AnalyzerFacts AnalyzerOrder.
Local Open Scope nat_scope.

(** The first [n] keys of a counter by count: [n] at most, distinct,
    elements of the list counted, and the first one with a largest
    count. *)
Lemma most_common_Counter {K} `{EqDecision K} (n : nat) (l : list K) :
  let top := fst <$> most_common n (Counter l) in
  length top <= n /\ NoDup top /\
  (forall k, k ∈ top -> k ∈ l) /\
  (forall k rest, top = k :: rest ->
     forall k', occurrences k' l <= occurrences k l).
Proof.
  cbv zeta. unfold most_common.
  set (c := Counter l).
  set (sorted := foldl (fun acc x => insert_by_count x acc) [] c).
  assert (Hperm : sorted ≡ₚ c) by apply (sorted_perm c []).
  assert (Hmax : head_max sorted) by (by apply sorted_head_max).
  destruct (Counter_keys l) as [Hnd Hkeys]. fold c in Hnd, Hkeys.
  assert (Hnd' : NoDup (fst <$> sorted)) by (by rewrite Hperm).
  split; [rewrite length_fmap, length_take; lia |]. split; [| split].
  - rewrite fmap_take. rewrite <- (take_drop n (fst <$> sorted)) in Hnd'.
    by apply NoDup_app in Hnd' as [H _].
  - intros k Hk. apply Hkeys. rewrite <- Hperm, fmap_take in *.
    by apply (subseteq_take n).
  - intros k rest Htop k'.
    destruct sorted as [| [k0 m] tail] eqn:Es; [by destruct n |].
    destruct n as [| n]; [done |]. cbn in Htop. injection Htop as -> _.
    assert (Hin : forall x y, (x, y) ∈ (k, m) :: tail -> y = occurrences x l).
    { intros x y Hx. rewrite Hperm in Hx. by apply Counter_entry. }
    rewrite <- (Hin k m) by left.
    destruct (decide (k' ∈ l)) as [Hk' | Hk'];
      [| rewrite (occurrences_zero k') by done; lia].
    apply Hkeys in Hk'. rewrite <- Hperm in Hk'.
    apply list_elem_of_fmap in Hk' as ([x y] & -> & Hx). cbn [fst].
    rewrite <- (Hin x y Hx).
    apply elem_of_cons in Hx as [[= -> ->] | Hx]; [done |].
    cbn [head_max] in Hmax. rewrite Forall_forall in Hmax. apply (Hmax _ Hx).
Qed.

Section Runs.
Variable U : Unicode.

Lemma word_runs_from_word (cur s w : pystr) :
  Forall (fun c => is_word U c = true) cur ->
  w ∈ word_runs_from U cur s ->
  Forall (fun c => is_word U c = true) w.
Proof.
  revert cur. induction s as [| c s IH]; intros cur Hcur Hw; cbn [word_runs_from] in Hw.
  - destruct cur; [by apply elem_of_nil in Hw |].
    apply list_elem_of_singleton in Hw as ->. by apply Forall_rev.
  - destruct (is_word U c) eqn:Ec.
    + apply (IH (c :: cur)); [by constructor | done].
    + destruct cur as [| c' cur'].
      * by apply (IH []).
      * apply elem_of_cons in Hw as [-> | Hw]; [by apply Forall_rev |].
        by apply (IH []).
Qed.

End Runs.

(** X10: the keywords of the metadata are five at most and distinct; each
    is a run of word characters of the text in lower case, of four
    characters or more, that is not a stop word; the first one is a most
    frequent such word; and when the file is not there the dictionary is
    empty. *)
Theorem extract_metadata_keywords (U : Unicode) {S} (self : DocumentAnalyzer S)
    (fs : FS) (filepath text : pystr) :
  (fs !! filepath = None -> extract_metadata U self fs filepath text = None) /\
  (forall metadata, extract_metadata U self fs filepath text = Some metadata ->
     let candidates :=
       filter (fun w => w ∉ turkish_stopwords self)
              (findall_long_words U (lower U text)) in
     length (anahtar_kelimeler metadata) <= 5 /\
     NoDup (anahtar_kelimeler metadata) /\
     (forall k, k ∈ anahtar_kelimeler metadata ->
        4 <= length k /\ (k ∉ turkish_stopwords self) /\
        Forall (fun c => is_word U c = true) k /\
        (k ∈ word_runs_from U [] (lower U text))) /\
     (forall k rest, anahtar_kelimeler metadata = k :: rest ->
        forall k', occurrences k' candidates <= occurrences k candidates)).
Proof.
  unfold extract_metadata. split; [by intros -> |].
  intros metadata. destruct (fs !! filepath) as [n |]; [| done].
  cbv zeta. intros [= <-]. cbn [anahtar_kelimeler].
  set (candidates := filter (fun w => w ∉ turkish_stopwords self)
                            (findall_long_words U (lower U text))).
  destruct (most_common_Counter 5 candidates) as (Hlen & Hnd & Hin & Hmax).
  split; [done |]. split; [done |]. split; [| done].
  intros k Hk. apply Hin in Hk. unfold candidates in Hk.
  apply list_elem_of_filter in Hk as [Hstop Hk]. unfold findall_long_words in Hk.
  apply list_elem_of_filter in Hk as [Hlong Hk].
  repeat split; try done.
  by apply (word_runs_from_word U [] (lower U text)).
Qed.

End MetadataFacts.

(** ** Copying a document into its category:
    [DocumentAnalyzer.create_category_structure] and [organize_file] *)

Module Organize.
Import Str Fs.
Local Open Scope nat_scope.

Implicit Types (fs : FS).

(** [shutil.copy2(src, dst)]: into [dst] when it is a folder; the source
    is read first, and a file at the destination is replaced. *)
Definition copy2 fs (src dst : pystr) : exn + FS :=
  let real_dst := if isdir fs dst then join dst (basename src) else dst in
  if bool_decide (real_dst = src) && path_exists fs src then
    inl (u "'" ++ src ++ u "' and '" ++ real_dst ++ u "' are the same file")
  else
    match fs !! src with
    | None => inl (u "[Errno 2] No such file or directory: '" ++ src ++ u "'")
    | Some Folder => inl (u "[Errno 21] Is a directory: '" ++ src ++ u "'")
    | Some (File c) => write_file fs real_dst c
    end.

Definition create_category_structure fs (base_path category : pystr)
  : exn + pystr * FS :=
  let target_dir := join base_path category in
  if negb (path_exists fs target_dir) then
    match makedirs fs target_dir with
    | inr fs' => inr (target_dir, fs')
    | inl e => inl e
    end
  else inr (target_dir, fs).

(** [organize_file] at the second [now] of the clock: the file system it
    leaves, and [(True, dest_path)] as [inr] or [(False, str(e))] as
    [inl]. *)
Definition organize_file fs (now : nat) (source_file category output_root : pystr)
  : FS * (exn + pystr) :=
  match create_category_structure fs output_root category with
  | inl e => (fs, inl e)
  | inr (target_dir, fs1) =>
      let filename := basename source_file in
      let dest_path := join target_dir filename in
      let dest_path :=
        if path_exists fs1 dest_path then
          let '(base, ext) := splitext filename in
          join target_dir (base ++ u "_" ++ str_of_nat now ++ ext)
        else dest_path in
      match copy2 fs1 source_file dest_path with
      | inr fs2 => (fs2, inr dest_path)
      | inl e => (fs1, inl e)
      end
  end.

End Organize.

Module OrganizeFacts.
Import Str Fs Organize.
Local Open Scope nat_scope.

(** [makedirs] adds folders and touches nothing that is there. *)
Lemma makedirs_keeps (fs fs' : FS) (p q : pystr) (x : node) :
  makedirs fs p = inr fs' -> fs !! q = Some x -> fs' !! q = Some x.
Proof.
  unfold makedirs. destruct p as [| c p]; [done |].
  generalize (ancestors_from [] (c :: p)). intros l. revert fs.
  induction l as [| a l IH]; intros fs; cbn [foldl].
  - by intros [= <-].
  - unfold pystr in *. destruct (fs !! a) as [[c0 |] |] eqn:Ea.
    + intros H. exfalso. clear -H. induction l as [| b l IHl]; [done |]. apply IHl, H.
    + apply IH.
    + intros H Hq. apply (IH _ H). rewrite lookup_insert_ne; [done |]. congruence.
Qed.

Lemma create_category_structure_keeps (fs fs' : FS) (base category target q : pystr)
    (x : node) :
  create_category_structure fs base category = inr (target, fs') ->
  fs !! q = Some x -> fs' !! q = Some x.
Proof.
  unfold create_category_structure. cbv zeta.
  destruct (negb _); [| by intros [= _ <-]].
  destruct (makedirs fs _) as [e | fs1] eqn:E; [done |].
  intros [= _ <-]. by apply (makedirs_keeps _ _ _ _ _ E).
Qed.

(** ... and the files afterwards are the files before. *)
Lemma makedirs_files (fs fs' : FS) (p q : pystr) (c : content) :
  makedirs fs p = inr fs' -> fs' !! q = Some (File c) -> fs !! q = Some (File c).
Proof.
  unfold makedirs. destruct p as [| c0 p]; [done |].
  generalize (ancestors_from [] (c0 :: p)). intros l. revert fs.
  induction l as [| a l IH]; intros fs; cbn [foldl].
  - by intros [= <-].
  - unfold pystr in *. destruct (fs !! a) as [[c1 |] |] eqn:Ea.
    + intros H. exfalso. clear -H. induction l as [| b l IHl]; [done |]. apply IHl, H.
    + apply IH.
    + intros H Hq. specialize (IH _ H Hq).
      destruct (decide (q = a)) as [-> | Hne].
      * by rewrite lookup_insert_eq in IH.
      * by rewrite lookup_insert_ne in IH.
Qed.

Lemma create_category_structure_files (fs fs' : FS) (base category target q : pystr)
    (c : content) :
  create_category_structure fs base category = inr (target, fs') ->
  fs' !! q = Some (File c) -> fs !! q = Some (File c).
Proof.
  unfold create_category_structure. cbv zeta.
  destruct (negb _); [| by intros [= _ <-]].
  destruct (makedirs fs _) as [e | fs1] eqn:E; [done |].
  intros [= _ <-]. by apply (makedirs_files _ _ _ _ _ E).
Qed.

(** What a copy that succeeds does. *)
Lemma copy2_spec (fs fs' : FS) (src dst : pystr) :
  copy2 fs src dst = inr fs' ->
  exists c real,
    fs !! src = Some (File c) /\ real <> src /\
    fs' = <[real := File c]> fs /\
    real = (if isdir fs dst then join dst (basename src) else dst).
Proof.
  unfold copy2. cbv zeta. set (real := if isdir fs dst then _ else _).
  destruct (fs !! src) as [[c |] |] eqn:Es;
    [| by destruct (_ && _) | by destruct (_ && _)].
  assert (Hex : path_exists fs src = true).
  { unfold path_exists. rewrite Es.
    by rewrite (bool_decide_eq_true_2 _ (mk_is_Some _ _ eq_refl)), orb_true_r. }
  rewrite Hex, andb_true_r. case_bool_decide as Hreal; [done |].
  unfold write_file. destruct (is_folder fs real); [done |].
  destruct (negb _); [done |]. intros [= <-]. by exists c, real.
Qed.

(** X11: what is called moving a document into its category is a copy:
    when [organize_file] answers [True], the source file is still in its
    place, with its content, and the same content stands at the
    destination that is answered, or inside it when that destination was a
    folder; whatever the answer, no path that existed is removed, and
    every path but the one written holds what it held. *)
Theorem organize_file_copies (fs : FS) (now : nat)
    (source_file category output_root : pystr) :
  let fs' := fst (organize_file fs now source_file category output_root) in
  (forall p, is_Some (fs !! p) -> is_Some (fs' !! p)) /\
  (forall dest_path,
     snd (organize_file fs now source_file category output_root) = inr dest_path ->
     exists c written,
       fs !! source_file = Some (File c) /\
       fs' !! source_file = Some (File c) /\
       fs' !! written = Some (File c) /\
       written <> source_file /\
       (written = dest_path \/
        written = join dest_path (basename source_file)) /\
       forall p x, p <> written -> fs !! p = Some x -> fs' !! p = Some x).
Proof.
  cbv zeta. unfold organize_file.
  destruct (create_category_structure fs output_root category)
    as [e | [target_dir fs1]] eqn:Ec; cbn [fst snd].
  { split; [done |]. by intros. }
  cbv zeta.
  set (dest := if path_exists fs1 _ then _ else _).
  assert (Hkeep : forall q x, fs !! q = Some x -> fs1 !! q = Some x)
    by (intros q x; apply (create_category_structure_keeps _ _ _ _ _ _ _ Ec)).
  destruct (copy2 fs1 source_file dest) as [e | fs2] eqn:Ecopy; cbn [fst snd].
  { split; [| by intros]. intros p [x Hp]. rewrite (Hkeep _ _ Hp). by eexists. }
  destruct (copy2_spec _ _ _ _ Ecopy) as (c & real & Hsrc & Hreal & -> & Ereal).
  split.
  - intros p [x Hp]. destruct (decide (p = real)) as [-> | Hne].
    + rewrite lookup_insert_eq. by eexists.
    + rewrite lookup_insert_ne by done. rewrite (Hkeep _ _ Hp). by eexists.
  - intros dest_path [= <-]. exists c, real.
    assert (Hs : fs !! source_file = Some (File c))
      by (by apply (create_category_structure_files _ _ _ _ _ _ _ Ec)).
    split; [done |]. split; [by rewrite lookup_insert_ne |].
    split; [apply lookup_insert_eq |]. split; [done |]. split.
    + rewrite Ereal. destruct (isdir fs1 dest); auto.
    + intros p x Hp Hx. rewrite lookup_insert_ne by done. by apply Hkeep.
Qed.

End OrganizeFacts.

(** ** More on the history and on undo *)

Module UndoFacts.
Import Str Fs Worker Window FsFacts MoveFacts.
Local Open Scope nat_scope.

Lemma undo_move_count (state : FS * nat) (move : LogEntry) :
  snd state <= snd (undo_move state move) <= snd state + 1.
Proof.
  destruct state as [fs n]. unfold undo_move.
  destruct (path_exists fs (new_path move)); [| simpl; lia].
  destruct (makedirs fs _) as [e | fs1]; [simpl; lia |].
  destruct (Fs.move fs1 _ _) as [e | fs2]; simpl; lia.
Qed.

Lemma undo_moves_count (moves : list LogEntry) (state : FS * nat) :
  snd state <= snd (foldl undo_move state moves) <= snd state + length moves.
Proof.
  revert state. induction moves as [| m moves IH]; intros state; cbn [foldl length].
  - lia.
  - pose proof (undo_move_count state m). pose proof (IH (undo_move state m)). lia.
Qed.

(** X12: when undo reports restored files, the history file held a list
    whose last element was a run record; the count reported is the number
    of that run's movements at most; and afterwards the history file holds
    the list without that record, or is removed when the record was the
    only one. Nothing else differs from the state the moves left. When
    undo reports that there is nothing to undo, the file system is as it
    was. *)
Theorem undo_pops_last_run (selected_folder : pystr) (fs fs' : FS) (r : UndoResult) :
  undo_action selected_folder fs = (fs', r) ->
  let log_path := join selected_folder log_file in
  (r = NothingToUndo -> fs' = fs) /\
  (forall success_count, r = Restored success_count ->
   exists prior run,
     load_history fs log_path = inr (prior ++ [Record_ run]) /\
     success_count = snd (foldl undo_move (fs, 0) (movements run)) /\
     success_count <= length (movements run) /\
     fs' !! log_path
     = match prior with [] => None | _ => Some (File (History prior)) end /\
     forall p, p <> log_path ->
       fs' !! p = fst (foldl undo_move (fs, 0) (movements run)) !! p).
Proof.
  intros Hundo log_path. unfold undo_action in Hundo. cbv zeta in Hundo.
  fold log_path in Hundo.
  destruct (path_exists fs log_path); cbn [negb] in Hundo;
    [| injection Hundo as <- <-; split; [done | by intros]].
  destruct (load_history fs log_path) as [e | history] eqn:Eload;
    [injection Hundo as <- <-; split; [done | by intros] |].
  destruct (rev history) as [| last_operation earlier] eqn:Erev;
    [injection Hundo as <- <-; split; [done | by intros] |].
  assert (Eh : history = rev earlier ++ [last_operation]).
  { rewrite <- (rev_involutive history), Erev. done. }
  destruct last_operation as [run | text];
    [| injection Hundo as <- <-; split; [done | by intros] ].
  destruct (foldl undo_move (fs, 0) (movements run)) as [fs1 n] eqn:Efold.
  pose proof (undo_moves_count (movements run) (fs, 0)) as Hn.
  rewrite Efold in Hn. simpl in Hn.
  destruct (rev earlier) as [| x prior] eqn:Ep.
  - unfold remove in Hundo.
    destruct (fs1 !! log_path) as [[c |] |] eqn:El;
      injection Hundo as <- <-; (split; [done |]); intros k Hk;
      try discriminate Hk.
    injection Hk as <-. exists [], run. rewrite Eh, Efold.
    split; [done |]. split; [done |]. split; [simpl; lia |].
    split; [apply lookup_delete_eq |].
    intros p Hp. by rewrite lookup_delete_ne.
  - unfold write_file in Hundo.
    destruct (is_folder fs1 log_path); [injection Hundo as <- <-; by split |].
    destruct (parent_exists fs1 log_path); cbn [negb] in Hundo;
      injection Hundo as <- <-; (split; [done |]); intros k Hk;
      try discriminate Hk.
    injection Hk as <-. exists (x :: prior), run. rewrite Eh, Efold.
    split; [done |]. split; [done |]. split; [simpl; lia |].
    split; [apply lookup_insert_eq |].
    intros p Hp. by rewrite lookup_insert_ne.
Qed.

(** The theorem on the folder of two notes after its run: the only record
    is taken out and the history file removed. *)
Lemma undo_pops_last_run_witness :
  fst (undo_action (u "/src") (fs (fst Scenarios.after_run)))
    !! join (u "/src") log_file = None.
Proof.
  destruct (undo_action (u "/src") (fs (fst Scenarios.after_run))) as [fs' r] eqn:E.
  destruct (undo_pops_last_run (u "/src") (fs (fst Scenarios.after_run)) fs' r E)
    as [_ H].
  assert (Er : r = Restored 2) by (apply (f_equal snd) in E; vm_compute in E; congruence).
  destruct (H 2 Er) as (prior & run & Hl & _ & _ & Hlog & _).
  assert (prior = []) as ->.
  { assert (Hlen : length (prior ++ [Record_ run]) = 1).
    { apply (f_equal (fun x => match x with inr l => length l | inl _ => 0 end)) in Hl.
      rewrite <- Hl. vm_compute. reflexivity. }
    rewrite length_app in Hlen. simpl in Hlen. destruct prior; [done | simpl in Hlen; lia]. }
  exact Hlog.
Defined.




(** X14: a file that already stands in its target folder under its own
    name is not left alone: it is renamed, to the first name with a
    numeric suffix that is free. *)
Theorem move_in_place_renames (fs : FS) (target_dir filename : pystr) (c : content) :
  fs !! join target_dir filename = Some (File c) ->
  is_folder fs target_dir = true ->
  target_dir <> [] -> ends_with_sep target_dir = false ->
  filename <> [] -> sep ∉ filename ->
  exists k,
    let new_path := candidate target_dir (fst (splitext filename))
                              (snd (splitext filename)) k in
    1 <= k /\
    _move_file fs (join target_dir filename) target_dir filename
    = Some (inr (new_path, <[new_path := File c]> (delete (join target_dir filename) fs))) /\
    new_path <> join target_dir filename /\
    (forall j, 1 <= j < k ->
       path_exists fs (candidate target_dir (fst (splitext filename))
                                 (snd (splitext filename)) j) = true).
Proof.
  intros Hfile Hdir Hne Hend Hf Hsep.
  assert (Hex : path_exists fs (join target_dir filename) = true).
  { unfold path_exists. rewrite Hfile.
    by rewrite (bool_decide_eq_true_2 _ (mk_is_Some _ _ eq_refl)), orb_true_r. }
  destruct (move_file_spec fs (join target_dir filename) target_dir filename c)
    as (new_path & E & Hfree & [-> | (_ & k & Hk & -> & Hall)]); try done.
  - congruence.
  - exists k. cbv zeta. repeat split; try done. intros Heq. congruence.
Qed.

Lemma move_in_place_renames_witness :
  exists k,
    let new_path := candidate (u "/t") (fst (splitext (u "a.txt")))
                              (snd (splitext (u "a.txt"))) k in
    1 <= k /\
    _move_file crowded (join (u "/t") (u "a.txt")) (u "/t") (u "a.txt")
    = Some (inr (new_path,
                 <[new_path := File (Raw (u "zero"))]>
                   (delete (join (u "/t") (u "a.txt")) crowded))) /\
    new_path <> join (u "/t") (u "a.txt") /\
    (forall j, 1 <= j < k ->
       path_exists crowded (candidate (u "/t") (fst (splitext (u "a.txt")))
                                      (snd (splitext (u "a.txt"))) j) = true).
Proof.
  apply (move_in_place_renames crowded (u "/t") (u "a.txt") (Raw (u "zero")));
    try (vm_compute; reflexivity); try (vm_compute; discriminate).
  intros H. apply list_elem_of_In in H. vm_compute in H. intuition discriminate.
Defined.

(** *** One move and its undo *)

(** A folder that exists with every folder above it. *)
Definition folder_chain (fs : FS) (d : pystr) : Prop :=
  d <> [] /\ isdir fs d = true /\
  Forall (fun q => fs !! q = Some Folder) (ancestors_from [] d).

Lemma makedirs_existing (fs : FS) (d : pystr) :
  d <> [] -> Forall (fun q => fs !! q = Some Folder) (ancestors_from [] d) ->
  makedirs fs d = inr fs.
Proof.
  intros Hne Hall. unfold makedirs. destruct d as [| c d]; [done |].
  revert Hall. generalize (ancestors_from [] (c :: d)). intros l Hall.
  induction Hall as [| q l Hq _ IH]; [done |].
  cbn [foldl]. unfold pystr in *. by rewrite Hq.
Qed.

(** The two maps agree on the folders of the first. *)
Lemma folder_chain_agree (fs fs1 : FS) (d : pystr) :
  (forall q, fs !! q = Some Folder -> fs1 !! q = Some Folder) ->
  folder_chain fs d -> folder_chain fs1 d.
Proof.
  intros Hagree (Hne & Hdir & Hall). split; [done |]. split.
  - unfold isdir, is_folder in *. destruct (is_root d); [done |].
    destruct (fs !! d) as [[c |] |] eqn:E; try done. by rewrite (Hagree d E).
  - eapply Forall_impl; [exact Hall |]. apply Hagree.
Qed.

(** X15: a file moved into a folder and then put back by one round of the
    undo loop, with the record of that move: the file system is exactly
    as it was before the move, and the round counts one success. (The
    folder of the file is taken to exist, with the folders above it.) *)
Theorem move_then_undo_restores (fs : FS) (target_dir filename : pystr)
    (c : content) (entry : LogEntry) :
  fs !! old_path entry = Some (File c) ->
  is_root (old_path entry) = false ->
  folder_chain fs (dirname (old_path entry)) ->
  is_folder fs target_dir = true ->
  target_dir <> [] -> ends_with_sep target_dir = false ->
  filename <> [] -> sep ∉ filename ->
  forall fs1,
    _move_file fs (old_path entry) target_dir filename
    = Some (inr (new_path entry, fs1)) ->
    undo_move (fs1, 0) entry = (fs, 1).
Proof.
  intros Hold Hroot Hchain Hdir Hne Hend Hf Hsep fs1 Hmove.
  destruct (move_file_spec fs (old_path entry) target_dir filename c)
    as (new & E & Hfree & _); try done.
  rewrite E in Hmove. injection Hmove as Hn <-. subst new.
  destruct (not_exists_lookup _ _ Hfree) as [Hnone _].
  set (old := old_path entry) in *. set (new := new_path entry) in *.
  assert (Hon : old <> new) by congruence.
  set (fs1 := <[new := File c]> (delete old fs)).
  assert (Hagree : forall q, fs !! q = Some Folder -> fs1 !! q = Some Folder).
  { intros q Hq. unfold fs1.
    rewrite lookup_insert_ne by congruence. rewrite lookup_delete_ne by congruence.
    done. }
  destruct (folder_chain_agree fs fs1 _ Hagree Hchain) as (Hd & Hisdir & Hall).
  assert (Hnew : fs1 !! new = Some (File c)) by apply lookup_insert_eq.
  assert (Hgone : fs1 !! old = None).
  { unfold fs1. rewrite lookup_insert_ne by done. apply lookup_delete_eq. }
  unfold undo_move. fold old new.
  assert (Hex : path_exists fs1 new = true).
  { unfold path_exists. rewrite Hnew.
    by rewrite (bool_decide_eq_true_2 _ (mk_is_Some _ _ eq_refl)), orb_true_r. }
  rewrite Hex, (makedirs_existing fs1 _ Hd Hall).
  unfold Fs.move. rewrite Hnew. cbv zeta.
  assert (Hnodir : isdir fs1 old = false).
  { unfold isdir, is_folder. by rewrite Hroot, Hgone. }
  rewrite Hnodir. cbn [andb]. unfold parent_exists.
  destruct (dirname old) as [| x d] eqn:Ed; [done |]. rewrite Hisdir. cbn [negb].
  f_equal. unfold fs1. rewrite delete_insert_id by (by rewrite lookup_delete_ne).
  rewrite insert_delete_eq. by apply insert_id.
Qed.

(** The theorem on the crowded folder: [/s/a.txt] goes to [/t/a_2.txt]
    and comes back. *)
Definition crowded_tree : FS := <[u "/s" := Folder]> crowded.

Lemma move_then_undo_restores_witness :
  undo_move
    (<[u "/t/a_2.txt" := File (Raw (u "first"))]> (delete (u "/s/a.txt") crowded_tree), 0)
    {| old_path := u "/s/a.txt"; new_path := u "/t/a_2.txt";
       category := u "Belgeler"; objects := []; timestamp := 0 |}
  = (crowded_tree, 1).
Proof.
  apply (move_then_undo_restores crowded_tree (u "/t") (u "a.txt") (Raw (u "first"))
           {| old_path := u "/s/a.txt"; new_path := u "/t/a_2.txt";
              category := u "Belgeler"; objects := []; timestamp := 0 |});
    try (vm_compute; reflexivity); try (vm_compute; discriminate).
  - split; [vm_compute; discriminate |]. split; [vm_compute; reflexivity |].
    vm_compute. repeat constructor.
  - intros H. apply list_elem_of_In in H. vm_compute in H. intuition discriminate.
Defined.

End UndoFacts.

(** ** The lock around the shared statistics *)

Module LockFacts.
Import Str Fs Worker.
Local Open Scope nat_scope.

(** The lock as the trace shows it: from whether it is held, to whether it
    is held after the events; [None] when the lock is taken while held,
    released while free, or a shared field is written while it is free. *)
Fixpoint lock_discipline (held : bool) (t : list Event) : option bool :=
  match t with
  | [] => Some held
  | acquire :: t' => if held then None else lock_discipline true t'
  | release :: t' => if held then lock_discipline false t' else None
  | write _ :: t' => if held then lock_discipline true t' else None
  | emit _ :: t' => lock_discipline held t'
  end.

Lemma lock_discipline_app (held : bool) (t1 t2 : list Event) :
  lock_discipline held (t1 ++ t2)
  = lock_discipline held t1 ≫= fun held' => lock_discipline held' t2.
Proof.
  revert held. induction t1 as [| e t1 IH]; intros held; [done |].
  destruct e, held; cbn [app lock_discipline]; try done; apply IH.
Qed.

(** A computation that keeps the discipline, entered and left with the
    lock in the state [held]. *)
Definition disciplined {A} (held : bool) (m : M A) : Prop :=
  forall w, exists t,
    trace (fst (m w)) = trace w ++ t /\ lock_discipline held t = Some held.

(** A computation that leaves the trace as it is. *)
Definition silent {A} (m : M A) : Prop := forall w, trace (fst (m w)) = trace w.

Lemma silent_disciplined {A} held (m : M A) : silent m -> disciplined held m.
Proof. intros H w. exists []. by rewrite app_nil_r, H. Qed.

Lemma disciplined_ret {A} held (a : A) : disciplined held (ret a).
Proof. by apply silent_disciplined. Qed.

Lemma disciplined_raise {A} held (e : exn) : disciplined held (@raise A e).
Proof. by apply silent_disciplined. Qed.

Lemma disciplined_get held : disciplined held get.
Proof. by apply silent_disciplined. Qed.

Lemma disciplined_now held : disciplined held now.
Proof. by apply silent_disciplined. Qed.

Lemma disciplined_getsize held p : disciplined held (os_getsize p).
Proof.
  apply silent_disciplined. intros w. unfold os_getsize.
  by destruct (fs w !! p) as [[] |].
Qed.

Lemma disciplined_fs_call held f : disciplined held (fs_call f).
Proof.
  apply silent_disciplined. intros w. unfold fs_call. by destruct (f (fs w)).
Qed.

Lemma disciplined_move_file held old_path target_dir filename :
  disciplined held (move_file old_path target_dir filename).
Proof.
  apply silent_disciplined. intros w. unfold move_file.
  by destruct (_move_file _ _ _ _) as [[e | [p f]] |].
Qed.

Lemma disciplined_send held s : disciplined held (send s).
Proof. intros w. exists [emit s]. by destruct held. Qed.

(** A write is in order while the lock is held. *)
Lemma disciplined_assign field (f : World -> World) :
  (forall w, trace (f w) = trace w) -> disciplined true (assign field f).
Proof. intros Hf w. exists [write field]. split; [| done]. simpl. by rewrite Hf. Qed.

Lemma disciplined_bind {A B} held (m : M A) (k : A -> M B) :
  disciplined held m -> (forall a, disciplined held (k a)) ->
  disciplined held (bind m k).
Proof.
  intros Hm Hk w. unfold bind. destruct (Hm w) as (t1 & E1 & D1).
  destruct (m w) as [w1 [a | e |]]; simpl in *.
  - destruct (Hk a w1) as (t2 & E2 & D2). exists (t1 ++ t2).
    rewrite E2, E1, app_assoc, lock_discipline_app, D1. done.
  - by exists t1.
  - by exists t1.
Qed.

Lemma disciplined_try_except {A} held (m : M A) (h : exn -> M A) :
  disciplined held m -> (forall e, disciplined held (h e)) ->
  disciplined held (try_except m h).
Proof.
  intros Hm Hh w. unfold try_except. destruct (Hm w) as (t1 & E1 & D1).
  destruct (m w) as [w1 [a | e |]]; simpl in *.
  - by exists t1.
  - destruct (Hh e w1) as (t2 & E2 & D2). exists (t1 ++ t2).
    rewrite E2, E1, app_assoc, lock_discipline_app, D1. done.
  - by exists t1.
Qed.

(** [with self.lock]: taken while free, released whatever the body does. *)
Lemma disciplined_with_lock {A} (m : M A) :
  disciplined true m -> disciplined false (with_lock m).
Proof.
  intros Hm w. unfold with_lock. destruct (Hm (record acquire w)) as (t & E & D).
  destruct (m (record acquire w)) as [w1 r]. simpl in *.
  exists ([acquire] ++ t ++ [release]). split.
  - rewrite E. by rewrite <- !app_assoc.
  - cbn [app lock_discipline]. by rewrite lock_discipline_app, D.
Qed.

Lemma disciplined_count_objects objects : disciplined true (count_objects objects).
Proof.
  induction objects as [| obj rest IH]; cbn [count_objects];
    [apply disciplined_ret |].
  apply disciplined_bind; [by apply disciplined_assign | by intros _].
Qed.

Lemma disciplined_progress_of held n total : disciplined held (progress_of n total).
Proof.
  apply silent_disciplined. intros w. unfold progress_of.
  destruct (total =? 0); [done |]. by destruct (Py.int_of_float _).
Qed.

Lemma disciplined_record_error filename e : disciplined false (record_error filename e).
Proof.
  unfold record_error. cbv zeta. apply disciplined_with_lock.
  apply disciplined_bind; [by apply disciplined_assign | intros _].
  by apply disciplined_assign.
Qed.

Section Loop.
Variable U : Unicode.
Implicit Types (self : Worker) (w : World).

Lemma disciplined_determine_document self filepath :
  disciplined false (_determine_document_category U self filepath).
Proof.
  unfold _determine_document_category.
  destruct (document_analyzer self) as [analyzer |]; [| apply disciplined_ret].
  intros w. destruct (extract_text self (fs w) filepath) as [| c text];
    [exists []; by rewrite app_nil_r |].
  destruct (fst (Analyzer.analyze_content U analyzer () (c :: text)))
    as [[category related] summary].
  exists [emit (document_analyzed (basename filepath) category summary)]. done.
Qed.

Ltac step :=
  first
    [ apply disciplined_ret | apply disciplined_raise | apply disciplined_get
    | apply disciplined_send | apply disciplined_now | apply disciplined_getsize
    | apply disciplined_fs_call | apply disciplined_progress_of
    | apply disciplined_move_file | apply disciplined_count_objects
    | apply disciplined_determine_document
    | apply disciplined_with_lock
    | apply disciplined_assign; intros ?; reflexivity
    | apply disciplined_bind; [| intros ?] ].

Lemma disciplined_process_file self total_files filepath :
  disciplined false (process_file U self total_files filepath).
Proof.
  unfold process_file. cbv zeta.
  apply disciplined_bind; [repeat step; destruct (_ =? 0); step | intros _].
  apply disciplined_bind.
  - destruct (_ && _).
    + apply disciplined_bind; [step | intros [[category subcategory] detected]].
      destruct category; repeat step.
    + step.
  - intros [[target_category subcategory] detected].
    apply disciplined_bind; [step | intros _].
    apply disciplined_bind; [step | intros new_path].
    destruct new_path; [step |].
    apply disciplined_bind; [repeat step | intros _].
    apply disciplined_bind; [step | intros _].
    destruct detected; step.
Qed.

Lemma disciplined_process_file_chunk self file_chunk total_files start_index :
  disciplined false (_process_file_chunk U self file_chunk total_files start_index).
Proof.
  induction file_chunk as [| filepath rest IH]; cbn [_process_file_chunk];
    [apply disciplined_ret |].
  apply disciplined_bind; [| by intros _].
  apply disciplined_try_except; [apply disciplined_process_file |].
  intros e. apply disciplined_record_error.
Qed.

End Loop.

(** X16: the events of a chunk keep the lock discipline: the lock is never
    taken while it is held nor released while it is free, it is free when
    the chunk function returns, and every write to a shared field (a
    counter, a statistic, the log) happens while the chunk holds the
    lock. *)
Theorem chunk_writes_under_lock (U : Unicode) (self : Worker)
    (file_chunk : list pystr) (total_files start_index : nat) (w : World) :
  exists t,
    trace (fst (_process_file_chunk U self file_chunk total_files start_index w))
    = trace w ++ t /\
    lock_discipline false t = Some false /\
    forall before field after,
      t = before ++ write field :: after ->
      lock_discipline false before = Some true.
Proof.
  destruct (disciplined_process_file_chunk U self file_chunk total_files
              start_index w) as (t & E & D).
  exists t. split; [exact E |]. split; [exact D |].
  intros before field after ->. rewrite lock_discipline_app in D.
  destruct (lock_discipline false before) as [[|] |]; done.
Qed.

End LockFacts.

(** ** What a chunk counts *)

Module CountFacts.
Import Str Fs Worker FsFacts MoveFacts ChunkFacts.
Local Open Scope nat_scope.

(** The state a computation leaves and its outcome satisfy [Q]. *)
Definition post {A} (m : M A) (w : World) (Q : World -> outcome A -> Prop) : Prop :=
  Q (fst (m w)) (snd (m w)).



Lemma post_weaken {A} (m : M A) w (Q Q' : World -> outcome A -> Prop) :
  post m w Q -> (forall w1 r, Q w1 r -> Q' w1 r) -> post m w Q'.
Proof. unfold post. auto. Qed.







(** The counters and lists that the chunk loop accounts with. *)
Definition counts (w : World) : nat * nat * nat * list pystr * list LogEntry :=
  (processed_counter w, processed_files (stats w), skipped_files (stats w),
   errors (stats w), log_entries w).

(** A computation that leaves them alone and never runs out of fuel. *)
Definition keeps {A} (m : M A) : Prop :=
  forall w, counts (fst (m w)) = counts w /\ snd (m w) <> OutOfFuel.



Lemma keeps_send s : keeps (send s).
Proof. by intros w. Qed.









Section Loop.
Variable U : Unicode.
Implicit Types (self : Worker) (w : World).







End Loop.



End CountFacts.

(** ** More on the run and on undo *)

Module RunFacts.
Import Str Fs Worker Window FsFacts MoveFacts ChunkFacts.
Local Open Scope nat_scope.

Section Sequential.
Variable U : Unicode.
Implicit Types (self : Worker) (w : World).

(** The chunk function does not read its [start_index]. *)
Lemma process_file_chunk_start self file_chunk total_files start start' w :
  _process_file_chunk U self file_chunk total_files start w
  = _process_file_chunk U self file_chunk total_files start' w.
Proof.
  revert w. induction file_chunk as [| filepath rest IH]; intros w; [done |].
  rewrite !process_file_chunk_cons. apply IH.
Qed.

Lemma run_chunks_concat self (chunks : list (Scheduler.Submitted pystr)) total w :
  Forall (fun c => Scheduler.total_files c = total) chunks ->
  run_chunks U self chunks w
  = _process_file_chunk U self (concat (Scheduler.file_chunk <$> chunks)) total 0 w.
Proof.
  intros Hall. revert w. induction Hall as [| c chunks Hc _ IH]; intros w; [done |].
  rewrite fmap_cons, concat_cons, process_file_chunk_app.
  cbn [run_chunks]. unfold bind at 1, try_except. rewrite Hc.
  rewrite (process_file_chunk_start self _ total (Scheduler.start_index c) 0 w).
  pose proof (process_file_chunk_returns U self (Scheduler.file_chunk c) total 0 w) as Hr.
  destruct (_process_file_chunk U self (Scheduler.file_chunk c) total 0 w) as [w' r].
  simpl in Hr. subst r. apply IH.
Qed.

End Sequential.

(** X18: run one after the other in the order they were submitted, the
    chunks of a file list do what one pass of the chunk function over the
    whole list does: same final state, and no chunk fails. *)
Theorem run_chunks_sequential (U : Unicode) (self : Worker) (files : list pystr)
    (thread_count : nat) (w : World) :
  1 <= thread_count ->
  run_chunks U self (Scheduler.submitted_chunks files thread_count) w
  = _process_file_chunk U self files (length files) 0 w /\
  snd (run_chunks U self (Scheduler.submitted_chunks files thread_count) w)
  = Returned tt.
Proof.
  intros Ht.
  assert (E : run_chunks U self (Scheduler.submitted_chunks files thread_count) w
              = _process_file_chunk U self files (length files) 0 w).
  { rewrite (run_chunks_concat U self _ (length files)).
    - by rewrite (SchedulerFacts.tiling_concat 0 _ files
                    (SchedulerFacts.submitted_chunks_tiling files thread_count Ht)).
    - apply Forall_forall. intros c Hc.
      by apply (ChunkSizes.submitted_chunks_total files thread_count). }
  split; [exact E |]. rewrite E. apply process_file_chunk_returns.
Qed.

(** The theorem on the folder with a missing file, cut in two chunks. *)
Lemma run_chunks_sequential_witness :
  run_chunks latin Scenarios.organizer
    (Scheduler.submitted_chunks Scenarios.chunk_with_gap 2)
    (initial_world Scenarios.two_notes)
  = _process_file_chunk latin Scenarios.organizer Scenarios.chunk_with_gap 3 0
      (initial_world Scenarios.two_notes).
Proof.
  exact (proj1 (run_chunks_sequential latin Scenarios.organizer
                  Scenarios.chunk_with_gap 2 (initial_world Scenarios.two_notes)
                  (le_S 1 1 (le_n 1)))).
Defined.

End RunFacts.

(** ** A run as a whole *)

Module FinishFacts.
Import Str Fs Worker ChunkFacts.
Local Open Scope nat_scope.

(** An event that is not the signal [finished]. *)
Definition not_finished (e : Event) : Prop := forall ok, e <> emit (finished ok).

(** A computation that never signals [finished] and never runs out of
    fuel. *)
Definition unfinished {A} (m : M A) : Prop :=
  forall w, (exists t, trace (fst (m w)) = trace w ++ t /\ Forall not_finished t) /\
            snd (m w) <> OutOfFuel.

Lemma unfinished_silent {A} (m : M A) :
  (forall w, trace (fst (m w)) = trace w /\ snd (m w) <> OutOfFuel) -> unfinished m.
Proof.
  intros H w. destruct (H w) as [E T]. split; [| done].
  exists []. by rewrite app_nil_r.
Qed.

Lemma unfinished_ret {A} (a : A) : unfinished (ret a).
Proof. by apply unfinished_silent. Qed.

Lemma unfinished_raise {A} (e : exn) : unfinished (@raise A e).
Proof. by apply unfinished_silent. Qed.

Lemma unfinished_get : unfinished get.
Proof. by apply unfinished_silent. Qed.

Lemma unfinished_now : unfinished now.
Proof. by apply unfinished_silent. Qed.

Lemma unfinished_getsize p : unfinished (os_getsize p).
Proof.
  apply unfinished_silent. intros w. unfold os_getsize.
  by destruct (fs w !! p) as [[] |].
Qed.

Lemma unfinished_fs_call f : unfinished (fs_call f).
Proof. apply unfinished_silent. intros w. unfold fs_call. by destruct (f (fs w)). Qed.

Lemma unfinished_move_file old_path target_dir filename :
  unfinished (move_file old_path target_dir filename).
Proof.
  apply unfinished_silent. intros w. unfold move_file.
  pose proof (MoveFacts.move_file_terminates (fs w) old_path target_dir filename).
  by destruct (_move_file _ _ _ _) as [[e | [p f]] |].
Qed.

Lemma unfinished_progress_of n total : unfinished (progress_of n total).
Proof.
  apply unfinished_silent. intros w. unfold progress_of.
  destruct (total =? 0); [done |]. by destruct (Py.int_of_float _).
Qed.

Lemma unfinished_event (e : Event) (f : World -> World) :
  not_finished e -> (forall w, trace (f w) = trace w) ->
  unfinished (update (fun w => f (record e w))).
Proof.
  intros He Hf w. split; [| done]. exists [e]. split; [| by constructor].
  simpl. by rewrite Hf.
Qed.

Lemma unfinished_send s : (forall ok, s <> finished ok) -> unfinished (send s).
Proof.
  intros Hs. apply (unfinished_event (emit s) id); [| done].
  intros ok [= E]. by apply (Hs ok).
Qed.

Lemma unfinished_assign field f :
  (forall w, trace (f w) = trace w) -> unfinished (assign field f).
Proof. intros Hf. by apply (unfinished_event (write field) f). Qed.

Lemma unfinished_bind {A B} (m : M A) (k : A -> M B) :
  unfinished m -> (forall a, unfinished (k a)) -> unfinished (bind m k).
Proof.
  intros Hm Hk w. unfold bind. destruct (Hm w) as [(t1 & E1 & F1) T1].
  destruct (m w) as [w1 [a | e |]]; simpl in *.
  - destruct (Hk a w1) as [(t2 & E2 & F2) T2]. split; [| done].
    exists (t1 ++ t2). rewrite E2, E1, app_assoc. split; [done |].
    by apply Forall_app.
  - split; [by exists t1 | done].
  - done.
Qed.

Lemma unfinished_try_except {A} (m : M A) (h : exn -> M A) :
  unfinished m -> (forall e, unfinished (h e)) -> unfinished (try_except m h).
Proof.
  intros Hm Hh w. unfold try_except. destruct (Hm w) as [(t1 & E1 & F1) T1].
  destruct (m w) as [w1 [a | e |]]; simpl in *.
  - split; [by exists t1 | done].
  - destruct (Hh e w1) as [(t2 & E2 & F2) T2]. split; [| done].
    exists (t1 ++ t2). rewrite E2, E1, app_assoc. split; [done |].
    by apply Forall_app.
  - done.
Qed.

Lemma unfinished_with_lock {A} (m : M A) : unfinished m -> unfinished (with_lock m).
Proof.
  intros Hm w. unfold with_lock.
  destruct (Hm (record acquire w)) as [(t & E & F) T].
  destruct (m (record acquire w)) as [w1 r]. simpl in *. split; [| done].
  exists ([acquire] ++ t ++ [release]). split.
  - rewrite E. by rewrite <- !app_assoc.
  - apply Forall_app. split; [by repeat constructor |].
    apply Forall_app. split; [done | by repeat constructor].
Qed.

Lemma unfinished_count_objects objects : unfinished (count_objects objects).
Proof.
  induction objects as [| obj rest IH]; cbn [count_objects];
    [apply unfinished_ret |].
  apply unfinished_bind; [by apply unfinished_assign | by intros _].
Qed.

Section Run.
Variable U : Unicode.
Implicit Types (self : Worker) (w : World).

Lemma unfinished_determine_document self filepath :
  unfinished (_determine_document_category U self filepath).
Proof.
  unfold _determine_document_category.
  destruct (document_analyzer self) as [analyzer |]; [| apply unfinished_ret].
  intros w. destruct (extract_text self (fs w) filepath) as [| c text].
  { split; [| done]. exists []. by rewrite app_nil_r. }
  destruct (fst (Analyzer.analyze_content U analyzer () (c :: text)))
    as [[category related] summary].
  split; [| done].
  exists [emit (document_analyzed (basename filepath) category summary)].
  split; [done |]. by repeat constructor.
Qed.

Ltac step :=
  first
    [ apply unfinished_ret | apply unfinished_raise | apply unfinished_get
    | apply unfinished_now | apply unfinished_getsize
    | apply unfinished_fs_call | apply unfinished_progress_of
    | apply unfinished_move_file | apply unfinished_count_objects
    | apply unfinished_determine_document
    | apply unfinished_with_lock
    | apply unfinished_send; done
    | apply unfinished_assign; intros ?; reflexivity
    | apply unfinished_bind; [| intros ?] ].

Lemma unfinished_process_file self total_files filepath :
  unfinished (process_file U self total_files filepath).
Proof.
  unfold process_file. cbv zeta.
  apply unfinished_bind; [repeat step; destruct (_ =? 0); step | intros _].
  apply unfinished_bind.
  - destruct (_ && _).
    + apply unfinished_bind; [step | intros [[category subcategory] detected]].
      destruct category; repeat step.
    + step.
  - intros [[target_category subcategory] detected].
    apply unfinished_bind; [step | intros _].
    apply unfinished_bind; [step | intros new_path].
    destruct new_path; [step |].
    apply unfinished_bind; [repeat step | intros _].
    apply unfinished_bind; [step | intros _].
    destruct detected; step.
Qed.

Lemma unfinished_process_file_chunk self file_chunk total_files start_index :
  unfinished (_process_file_chunk U self file_chunk total_files start_index).
Proof.
  induction file_chunk as [| filepath rest IH]; cbn [_process_file_chunk];
    [apply unfinished_ret |].
  apply unfinished_bind; [| by intros _].
  apply unfinished_try_except; [apply unfinished_process_file |].
  intros e. unfold record_error. cbv zeta. repeat step.
Qed.

Lemma unfinished_run_chunks self chunks : unfinished (run_chunks U self chunks).
Proof.
  induction chunks as [| c rest IH]; cbn [run_chunks]; [apply unfinished_ret |].
  apply unfinished_bind; [| by intros _].
  apply unfinished_try_except; [apply unfinished_process_file_chunk |].
  intros e. step.
Qed.

Lemma run_chunks_returns self chunks w :
  snd (run_chunks U self chunks w) = Returned tt.
Proof.
  revert w. induction chunks as [| c rest IH]; intros w; [done |].
  cbn [run_chunks]. unfold bind, try_except.
  pose proof (process_file_chunk_returns U self (Scheduler.file_chunk c)
                (Scheduler.total_files c) (Scheduler.start_index c) w) as Hr.
  destruct (_process_file_chunk U self _ _ _ w) as [w1 r]. simpl in Hr. subst r.
  apply IH.
Qed.

Lemma unfinished_multithreaded self PSUTIL_AVAILABLE psutil files :
  unfinished (_process_files_multithreaded U self PSUTIL_AVAILABLE psutil files).
Proof.
  unfold _process_files_multithreaded. cbv zeta.
  destruct (length files =? 0); [apply unfinished_ret |].
  apply unfinished_bind; [step | intros _].
  apply unfinished_bind; [destruct (_ <=? _)%Z; step | intros _].
  apply unfinished_bind; [apply unfinished_run_chunks | intros _]. step.
Qed.

(** With a thread count above zero the pool is created and the chunks
    are run: nothing raises. *)
Lemma multithreaded_returns self PSUTIL_AVAILABLE psutil files w :
  (0 < thread_count self)%Z ->
  snd (_process_files_multithreaded U self PSUTIL_AVAILABLE psutil files w)
  = Returned tt.
Proof.
  intros Ht. unfold _process_files_multithreaded. cbv zeta.
  destruct (length files =? 0); [done |].
  match goal with
  | |- context [Governor._optimize_thread_count ?env ?n ?r] =>
      destruct (GovernorFacts.governor_at_least_one env n r Ht) as [Hone _];
        [lia |]; set (optimal := Governor._optimize_thread_count env n r) in *
  end.
  unfold bind at 1, send, update. unfold bind at 1.
  destruct (Z.leb_spec optimal 0); [lia |]. unfold ret at 1.
  unfold bind.
  match goal with
  | |- context [run_chunks U self ?cs ?x] =>
      pose proof (run_chunks_returns self cs x) as Hr;
        destruct (run_chunks U self cs x) as [w1 r]
  end.
  simpl in Hr. by subst r.
Qed.

Lemma save_log_trace self w : trace (_save_log self w) = trace w.
Proof.
  unfold _save_log. destruct (log_entries w); [done |]. cbv zeta.
  destruct (if path_exists _ _ then _ else _) as [e | existing]; [done |].
  by destruct (write_file _ _ _).
Qed.

End Run.

(** X19: a run never raises and never stops short: it returns, the last
    thing it does is to signal [finished], and it signals it once; the
    signal says [False] when there was no file, and with a thread count
    above zero it says [True] whenever there was one. *)
Theorem run_always_finishes (U : Unicode) (self : Worker) (PSUTIL_AVAILABLE : bool)
    (psutil : option Governor.Telemetry) (files : list pystr) (w : World) :
  snd (run U self PSUTIL_AVAILABLE psutil files w) = Returned tt /\
  exists t ok,
    trace (fst (run U self PSUTIL_AVAILABLE psutil files w))
    = trace w ++ t ++ [emit (finished ok)] /\
    Forall not_finished t /\
    (files = [] -> ok = false) /\
    ((0 < thread_count self)%Z -> files <> [] -> ok = true).
Proof.
  assert (H : exists w' t ok,
    run U self PSUTIL_AVAILABLE psutil files w = (w', Returned tt) /\
    trace w' = trace w ++ t ++ [emit (finished ok)] /\
    Forall not_finished t /\
    (files = [] -> ok = false) /\
    ((0 < thread_count self)%Z -> files <> [] -> ok = true)).
  { unfold run, try_except, bind, update, send.
    set (w0 := set_stats (with_total_files (length files)) w).
    assert (E0 : trace w0 = trace w) by done.
    destruct files as [| f files].
    - eexists _, [emit (status (u "Düzenlenecek dosya bulunamadı!"))], false.
      split; [reflexivity |]. split; [cbn [record trace]; by rewrite <- app_assoc |].
      split; [| done]. repeat constructor. intros ok. discriminate.
    - set (l := f :: files) in *.
      destruct (unfinished_multithreaded U self PSUTIL_AVAILABLE psutil l w0)
        as [(t1 & E1 & F1) T1].
      pose proof (multithreaded_returns U self PSUTIL_AVAILABLE psutil l w0) as Hret.
      destruct (_process_files_multithreaded U self PSUTIL_AVAILABLE psutil l w0)
        as [w1 [[] | e |]]; cbn [fst snd] in *; [| | done].
      + eexists _, t1, true. split; [reflexivity |]. cbn [record trace].
        rewrite save_log_trace, E1, E0, <- app_assoc. done.
      + eexists _, (t1 ++ [emit (error (u "Kritik hata: " ++ e))]), false.
        split; [reflexivity |]. cbn [record trace].
        rewrite E1, E0, <- !app_assoc. split; [done |]. split.
        * apply Forall_app. split; [done |].
          repeat constructor. intros ok. discriminate.
        * split; [done |]. intros Ht _. by specialize (Hret Ht). }
  destruct H as (w' & t & ok & -> & Htrace & Hrest).
  split; [done |]. by exists t, ok.
Qed.

End FinishFacts.
